(** * nxdumptool: certificate decoder and USB transfer engine

    A shallow embedding of [source/cert.c] and [source/usb.c].
    Integers of the C code are [Z] with their wrap-around written out,
    memory is a list of bytes addressed by offset, NULL-able pointers are
    [option], and the functions that talk to the platform (save container,
    USB device server) take the platform's answers from an explicit
    environment. *)

From Stdlib Require Import ZArith List Bool Lia.
From Stdlib Require Import Strings.String Strings.Ascii Strings.Byte.
Import ListNotations.

Open Scope Z_scope.

(** * Part I: the embedding *)

(** ** Machine words and bytes *)

Module Word.

Definition u32 (z : Z) : Z := z mod 2 ^ 32.
Definition u64 (z : Z) : Z := z mod 2 ^ 64.

Definition byte_val (b : byte) : Z := Z.of_N (Byte.to_N b).

Definition byte_of_Z (z : Z) : byte :=
  match Byte.of_N (Z.to_N (z mod 256)) with
  | Some b => b
  | None => x00
  end.

(** The byte stored [off] bytes after the start of [mem].  An offset
    outside the object yields 0; every function that reads memory also
    reports the ranges it touched, so such a read stays visible. *)
Definition load_u8 (mem : list byte) (off : Z) : Z :=
  if off <? 0 then 0 else byte_val (nth (Z.to_nat off) mem x00).

(** [memcpy(&w, mem + off, sizeof(u32))] on the little-endian target. *)
Definition memcpy_u32 (mem : list byte) (off : Z) : Z :=
  Z.lor (load_u8 mem off)
    (Z.lor (Z.shiftl (load_u8 mem (off + 1)) 8)
       (Z.lor (Z.shiftl (load_u8 mem (off + 2)) 16)
          (Z.shiftl (load_u8 mem (off + 3)) 24))).

(** [__builtin_bswap32]. *)
Definition bswap32 (x : Z) : Z :=
  Z.lor (Z.shiftl (Z.land x 255) 24)
    (Z.lor (Z.shiftl (Z.land (Z.shiftr x 8) 255) 16)
       (Z.lor (Z.shiftl (Z.land (Z.shiftr x 16) 255) 8)
          (Z.land (Z.shiftr x 24) 255))).

(** The big-endian reading of the four bytes at [off], as the on-disk
    format defines its 32-bit fields. *)
Definition be32_at (mem : list byte) (off : Z) : Z :=
  load_u8 mem off * 2 ^ 24 + load_u8 mem (off + 1) * 2 ^ 16
  + load_u8 mem (off + 2) * 2 ^ 8 + load_u8 mem (off + 3).

End Word.

(** ** cert.c: certificates and chains *)

Module Cert.
Import Word.

(** [CertType]: one tag per (signature algorithm, public key algorithm)
    pair, and the invalid tag. *)
Inductive CertType : Type :=
| CertType_Invalid
| CertType_SigRsa4096_PubKeyRsa4096
| CertType_SigRsa4096_PubKeyRsa2048
| CertType_SigRsa4096_PubKeyEcsda240
| CertType_SigRsa2048_PubKeyRsa4096
| CertType_SigRsa2048_PubKeyRsa2048
| CertType_SigRsa2048_PubKeyEcsda240
| CertType_SigEcsda240_PubKeyRsa4096
| CertType_SigEcsda240_PubKeyRsa2048
| CertType_SigEcsda240_PubKeyEcsda240.

Definition CertType_eqb (a b : CertType) : bool :=
  match a, b with
  | CertType_Invalid, CertType_Invalid
  | CertType_SigRsa4096_PubKeyRsa4096, CertType_SigRsa4096_PubKeyRsa4096
  | CertType_SigRsa4096_PubKeyRsa2048, CertType_SigRsa4096_PubKeyRsa2048
  | CertType_SigRsa4096_PubKeyEcsda240, CertType_SigRsa4096_PubKeyEcsda240
  | CertType_SigRsa2048_PubKeyRsa4096, CertType_SigRsa2048_PubKeyRsa4096
  | CertType_SigRsa2048_PubKeyRsa2048, CertType_SigRsa2048_PubKeyRsa2048
  | CertType_SigRsa2048_PubKeyEcsda240, CertType_SigRsa2048_PubKeyEcsda240
  | CertType_SigEcsda240_PubKeyRsa4096, CertType_SigEcsda240_PubKeyRsa4096
  | CertType_SigEcsda240_PubKeyRsa2048, CertType_SigEcsda240_PubKeyRsa2048
  | CertType_SigEcsda240_PubKeyEcsda240, CertType_SigEcsda240_PubKeyEcsda240 => true
  | _, _ => false
  end.

(** The declarations of [cert.h], [signature.h] and [save.h] that
    [cert.c] uses.  The headers are not part of the sources at hand, so
    the functions below take them as a parameter. *)
Record Headers : Type := {
  CERT_MIN_SIZE : Z;
  CERT_MAX_SIZE : Z;
  SignatureType_Rsa4096Sha1 : Z;
  SignatureType_Rsa2048Sha1 : Z;
  SignatureType_Ecsda240Sha1 : Z;
  SignatureType_Rsa4096Sha256 : Z;
  SignatureType_Rsa2048Sha256 : Z;
  SignatureType_Ecsda240Sha256 : Z;
  CertPubKeyType_Rsa4096 : Z;
  CertPubKeyType_Rsa2048 : Z;
  CertPubKeyType_Ecsda240 : Z;
  sizeof_SignatureBlockRsa4096 : Z;
  sizeof_SignatureBlockRsa2048 : Z;
  sizeof_SignatureBlockEcsda240 : Z;
  sizeof_CertPublicKeyBlockRsa4096 : Z;
  sizeof_CertPublicKeyBlockRsa2048 : Z;
  sizeof_CertPublicKeyBlockEcsda240 : Z;
  SAVE_FS_LIST_MAX_NAME_LENGTH : Z
}.

(** Every [sizeof] is the size of an object: not negative, and far from
    the range of [u64]. *)
Record headers_wf (h : Headers) : Prop := {
  wf_sig4096 : 0 <= sizeof_SignatureBlockRsa4096 h < 2 ^ 32;
  wf_sig2048 : 0 <= sizeof_SignatureBlockRsa2048 h < 2 ^ 32;
  wf_sig240 : 0 <= sizeof_SignatureBlockEcsda240 h < 2 ^ 32;
  wf_pk4096 : 0 <= sizeof_CertPublicKeyBlockRsa4096 h < 2 ^ 32;
  wf_pk2048 : 0 <= sizeof_CertPublicKeyBlockRsa2048 h < 2 ^ 32;
  wf_pk240 : 0 <= sizeof_CertPublicKeyBlockEcsda240 h < 2 ^ 32;
  wf_min : 0 <= CERT_MIN_SIZE h;
  wf_max : CERT_MAX_SIZE h < 2 ^ 32
}.

(** Modelled from the spec: the struct [CertSigRsa4096PubKeyRsa4096] is
    declared in [cert.h]; the widths of its fixed members are those of
    the on-disk layout table (issuer 0x40, pub_key_type 4, name 0x40,
    cert_id 4). *)
Definition MEMBER_SIZE_issuer : Z := 0x40.
Definition MEMBER_SIZE_pub_key_type : Z := 4.
Definition MEMBER_SIZE_name : Z := 0x40.
Definition MEMBER_SIZE_cert_id : Z := 4.

(** A read of [acc_len] bytes starting [acc_off] bytes into the buffer. *)
Record Access : Type := mkAccess { acc_off : Z; acc_len : Z }.

Definition within (S : Z) (a : Access) : Prop :=
  0 <= acc_off a /\ acc_off a + acc_len a <= S.

Definition withinb (S : Z) (a : Access) : bool :=
  (0 <=? acc_off a) && (acc_off a + acc_len a <=? S).

Section WithHeaders.

Variable h : Headers.

(** The macro [CERT_TYPE(sig)], given the three tags of one signature
    family. *)
Definition CERT_TYPE (pub_key_type : Z) (rsa4096 rsa2048 ecsda240 : CertType) : CertType :=
  if pub_key_type =? CertPubKeyType_Rsa4096 h then rsa4096
  else if pub_key_type =? CertPubKeyType_Rsa2048 h then rsa2048
  else ecsda240.

(** [certGetCertificateType].  [data] is the object behind the pointer
    ([None] for NULL), [data_size] the length passed with it.  The result
    pairs the returned type with the reads performed, in order. *)
Definition certGetCertificateType (data : option (list byte)) (data_size : Z)
  : CertType * list Access :=
  match data with
  | None => (CertType_Invalid, [])
  | Some data_u8 =>
    if (data_size <? CERT_MIN_SIZE h) || (data_size >? CERT_MAX_SIZE h)
    then (CertType_Invalid, [])
    else
      let type := CertType_Invalid in
      let offset := 0 in
      let sig_type := bswap32 (memcpy_u32 data_u8 0) in
      let reads := [mkAccess 0 4] in
      let after_signature :=
        if (sig_type =? SignatureType_Rsa4096Sha1 h)
           || (sig_type =? SignatureType_Rsa4096Sha256 h)
        then Some (u64 (offset + sizeof_SignatureBlockRsa4096 h))
        else if (sig_type =? SignatureType_Rsa2048Sha1 h)
                || (sig_type =? SignatureType_Rsa2048Sha256 h)
        then Some (u64 (offset + sizeof_SignatureBlockRsa2048 h))
        else if (sig_type =? SignatureType_Ecsda240Sha1 h)
                || (sig_type =? SignatureType_Ecsda240Sha256 h)
        then Some (u64 (offset + sizeof_SignatureBlockEcsda240 h))
        else None in
      match after_signature with
      | None => (type, reads)
      | Some offset =>
        let offset := u64 (offset + MEMBER_SIZE_issuer) in
        let pub_key_type := bswap32 (memcpy_u32 data_u8 offset) in
        let reads := reads ++ [mkAccess offset 4] in
        let offset := u64 (offset + MEMBER_SIZE_pub_key_type) in
        let offset := u64 (offset + MEMBER_SIZE_name) in
        let offset := u64 (offset + MEMBER_SIZE_cert_id) in
        let after_public_key :=
          if pub_key_type =? CertPubKeyType_Rsa4096 h
          then Some (u64 (offset + sizeof_CertPublicKeyBlockRsa4096 h))
          else if pub_key_type =? CertPubKeyType_Rsa2048 h
          then Some (u64 (offset + sizeof_CertPublicKeyBlockRsa2048 h))
          else if pub_key_type =? CertPubKeyType_Ecsda240 h
          then Some (u64 (offset + sizeof_CertPublicKeyBlockEcsda240 h))
          else None in
        match after_public_key with
        | None => (type, reads)
        | Some offset =>
          if negb (offset =? data_size) then (type, reads)
          else
            let type :=
              if (sig_type =? SignatureType_Rsa4096Sha1 h)
                 || (sig_type =? SignatureType_Rsa4096Sha256 h)
              then CERT_TYPE pub_key_type CertType_SigRsa4096_PubKeyRsa4096
                     CertType_SigRsa4096_PubKeyRsa2048 CertType_SigRsa4096_PubKeyEcsda240
              else if (sig_type =? SignatureType_Rsa2048Sha1 h)
                      || (sig_type =? SignatureType_Rsa2048Sha256 h)
              then CERT_TYPE pub_key_type CertType_SigRsa2048_PubKeyRsa4096
                     CertType_SigRsa2048_PubKeyRsa2048 CertType_SigRsa2048_PubKeyEcsda240
              else if (sig_type =? SignatureType_Ecsda240Sha1 h)
                      || (sig_type =? SignatureType_Ecsda240Sha256 h)
              then CERT_TYPE pub_key_type CertType_SigEcsda240_PubKeyRsa4096
                     CertType_SigEcsda240_PubKeyRsa2048 CertType_SigEcsda240_PubKeyEcsda240
              else type in
            (type, reads)
        end
      end
  end.

(** *** The layout, in the words of the format description *)

(** The six recognised signature values and the three recognised public
    key values. *)
Definition recognised_sig_types : list Z :=
  [SignatureType_Rsa4096Sha1 h; SignatureType_Rsa4096Sha256 h;
   SignatureType_Rsa2048Sha1 h; SignatureType_Rsa2048Sha256 h;
   SignatureType_Ecsda240Sha1 h; SignatureType_Ecsda240Sha256 h].

Definition recognised_pub_key_types : list Z :=
  [CertPubKeyType_Rsa4096 h; CertPubKeyType_Rsa2048 h; CertPubKeyType_Ecsda240 h].

(** Size of the signature block (the four bytes of [sig_type] included)
    selected by a signature value. *)
Definition signature_block_size (sig_type : Z) : Z :=
  if (sig_type =? SignatureType_Rsa4096Sha1 h) || (sig_type =? SignatureType_Rsa4096Sha256 h)
  then sizeof_SignatureBlockRsa4096 h
  else if (sig_type =? SignatureType_Rsa2048Sha1 h) || (sig_type =? SignatureType_Rsa2048Sha256 h)
  then sizeof_SignatureBlockRsa2048 h
  else sizeof_SignatureBlockEcsda240 h.

(** Size of the public key block selected by a public key value. *)
Definition public_key_block_size (pub_key_type : Z) : Z :=
  if pub_key_type =? CertPubKeyType_Rsa4096 h then sizeof_CertPublicKeyBlockRsa4096 h
  else if pub_key_type =? CertPubKeyType_Rsa2048 h then sizeof_CertPublicKeyBlockRsa2048 h
  else sizeof_CertPublicKeyBlockEcsda240 h.

(** Where [pub_key_type] sits: after the signature block and the issuer. *)
Definition pub_key_type_offset (data : list byte) : Z :=
  signature_block_size (be32_at data 0) + MEMBER_SIZE_issuer.

(** The end offset: signature block, issuer, pub_key_type, name, cert_id
    and public key block. *)
Definition end_offset (data : list byte) : Z :=
  pub_key_type_offset data + MEMBER_SIZE_pub_key_type + MEMBER_SIZE_name
  + MEMBER_SIZE_cert_id
  + public_key_block_size (be32_at data (pub_key_type_offset data)).

(** The tag of a recognised pair. *)
Definition cert_type_of (sig_type pub_key_type : Z) : CertType :=
  if (sig_type =? SignatureType_Rsa4096Sha1 h) || (sig_type =? SignatureType_Rsa4096Sha256 h)
  then CERT_TYPE pub_key_type CertType_SigRsa4096_PubKeyRsa4096
         CertType_SigRsa4096_PubKeyRsa2048 CertType_SigRsa4096_PubKeyEcsda240
  else if (sig_type =? SignatureType_Rsa2048Sha1 h) || (sig_type =? SignatureType_Rsa2048Sha256 h)
  then CERT_TYPE pub_key_type CertType_SigRsa2048_PubKeyRsa4096
         CertType_SigRsa2048_PubKeyRsa2048 CertType_SigRsa2048_PubKeyEcsda240
  else CERT_TYPE pub_key_type CertType_SigEcsda240_PubKeyRsa4096
         CertType_SigEcsda240_PubKeyRsa2048 CertType_SigEcsda240_PubKeyEcsda240.

Definition recognised_sigb (sig_type : Z) : bool :=
  existsb (Z.eqb sig_type) recognised_sig_types.

Definition recognised_pub_keyb (pub_key_type : Z) : bool :=
  existsb (Z.eqb pub_key_type) recognised_pub_key_types.

(** *** Certificates and the save container *)

(** [Certificate]: the tag, the length and the inline array of
    [CERT_MAX_SIZE] bytes of which the first [size] are the certificate. *)
Record Certificate : Type := mkCertificate {
  type : CertType;
  size : Z;
  data : list byte
}.

(** [CertificateChain]: [certs] is [None] for a NULL pointer. *)
Record CertificateChain : Type := mkCertificateChain {
  count : Z;
  certs : option (list Certificate)
}.

(** An element of a [calloc]ed array: every byte zero
    ([CertType_Invalid] is the zero enumerator). *)
Definition zero_Certificate : Certificate :=
  mkCertificate CertType_Invalid 0 (repeat x00 (Z.to_nat (CERT_MAX_SIZE h))).

(** The certificate proper: the first [size] bytes of the array. *)
Definition cert_bytes (c : Certificate) : list byte :=
  firstn (Z.to_nat (size c)) (data c).

(** A file entry of the save container: the size the lookup reports and
    the bytes a read of [n] bytes from offset 0 delivers (fewer than [n]
    on a short read). *)
Record SaveFile : Type := mkSaveFile {
  file_size : Z;
  file_read : Z -> list byte
}.

(** The platform's side of [cert.c]: the save container ([save.h]) and
    the allocator. *)
Record Platform : Type := mkPlatform {
  (** whether [save_open_savefile] returns a context for a path *)
  save_open_savefile : string -> bool;
  (** [save_get_fat_storage_from_file_entry_by_path]: the entry at a path *)
  save_get_fat_storage_from_file_entry_by_path : string -> option SaveFile;
  (** whether [calloc] of that many certificates succeeds *)
  calloc_succeeds : Z -> bool;
  (** whether [malloc] of that many bytes succeeds, and what the fresh
      block holds *)
  malloc_succeeds : Z -> bool;
  malloc_fill : byte;
  (** what [snprintf] emits from a conversion specification on for a
      format that names an argument the call does not pass *)
  undefined_format : string -> string
}.

Definition CERT_SAVEFILE_PATH : string := "sys:/save/80000000000000e0".
Definition CERT_SAVEFILE_STORAGE_BASE_PATH : string := "/certificate/".

(** [dst] after [n] bytes [src] were stored at its start. *)
Definition store_prefix (dst src : list byte) : list byte :=
  (src ++ skipn (List.length src) dst)%list.

(** The first [n - 1] characters: what fits a buffer of [n] bytes. *)
Definition truncate (n : Z) (s : string) : string :=
  substring 0 (Z.to_nat n - 1) s.

Variable p : Platform.

(** [snprintf(buf, n, fmt)] with no argument after the format: ordinary
    characters are copied and "%%" gives '%'.  Any other '%' asks for an
    argument that is not there; from that point the output is the
    platform's. *)
Fixpoint format_noargs (fmt : string) : string :=
  match fmt with
  | EmptyString => EmptyString
  | String c rest =>
    if Ascii.eqb c "%"
    then match rest with
         | String c' rest' =>
           if Ascii.eqb c' "%" then String "%" (format_noargs rest')
           else undefined_format p fmt
         | EmptyString => undefined_format p fmt
         end
    else String c (format_noargs rest)
  end.

(** [certRetrieveCertificateByName].  The result pairs the returned
    flag with the object behind [dst] after the call. *)
Definition certRetrieveCertificateByName (dst : option Certificate) (name : option string)
  : bool * option Certificate :=
  match dst, name with
  | Some d, Some name =>
    if (String.length name =? 0)%nat then (false, dst)
    else
      let cert_path :=
        truncate (SAVE_FS_LIST_MAX_NAME_LENGTH h)
          (CERT_SAVEFILE_STORAGE_BASE_PATH ++ name)%string in
      if negb (save_open_savefile p CERT_SAVEFILE_PATH) then (false, dst)
      else
        match save_get_fat_storage_from_file_entry_by_path p cert_path with
        | None => (false, dst)
        | Some fat_storage =>
          let cert_size := file_size fat_storage in
          if (cert_size <? CERT_MIN_SIZE h) || (cert_size >? CERT_MAX_SIZE h)
          then (false, dst)
          else
            let d := mkCertificate (type d) cert_size (data d) in
            let got := file_read fat_storage (size d) in
            let br := Z.of_nat (List.length got) in
            let d := mkCertificate (type d) (size d) (store_prefix (data d) got) in
            if negb (br =? size d) then (false, Some d)
            else
              let d :=
                mkCertificate (fst (certGetCertificateType (Some (data d)) (size d)))
                  (size d) (data d) in
              if CertType_eqb (type d) CertType_Invalid then (false, Some d)
              else (true, Some d)
        end
  | _, _ => (false, dst)
  end.

(** [certFreeCertificateChain]. *)
Definition certFreeCertificateChain (chain : option CertificateChain)
  : option CertificateChain :=
  match chain with
  | None => None
  | Some c =>
    match certs c with
    | None => chain
    | Some _ => Some (mkCertificateChain 0 None)
    end
  end.

(** *** The tokeniser *)

(** Skip the delimiters in front of a token. *)
Fixpoint skip_delims (delim : ascii) (s : string) : string :=
  match s with
  | EmptyString => EmptyString
  | String c rest => if Ascii.eqb c delim then skip_delims delim rest else s
  end.

(** The token at the head of [s] and the text after the delimiter that
    ends it (empty when the token runs to the end of the string). *)
Fixpoint span_token (delim : ascii) (s : string) : string * string :=
  match s with
  | EmptyString => (EmptyString, EmptyString)
  | String c rest =>
    if Ascii.eqb c delim then (EmptyString, rest)
    else let (tok, after) := span_token delim rest in (String c tok, after)
  end.

(** One call of [strtok] on the text that is left: the token and the text
    saved for the next call, or [None] for a NULL result. *)
Definition strtok (delim : ascii) (s : string) : option (string * string) :=
  match skip_delims delim s with
  | EmptyString => None
  | s' => Some (span_token delim s')
  end.

(** [issuer + 5]. *)
Definition skip_parent (issuer : string) : string :=
  substring 5 (String.length issuer - 5) issuer.

(** The loop of [certGetCertificateCountInSignatureIssuer]; [pch] is the
    pending result of [strtok]. *)
Fixpoint count_loop (fuel : nat) (pch : option (string * string)) (count : Z) : Z :=
  match fuel with
  | O => count
  | S fuel' =>
    match pch with
    | None => count
    | Some (_, saved) => count_loop fuel' (strtok "-" saved) (u32 (count + 1))
    end
  end.

(** [certGetCertificateCountInSignatureIssuer].  Every turn of the loop
    consumes a character of the copy, so its length bounds the turns. *)
Definition certGetCertificateCountInSignatureIssuer (issuer : option string) : Z :=
  match issuer with
  | None => 0
  | Some issuer =>
    if (String.length issuer =? 0)%nat then 0
    else
      let count := 0 in
      let issuer_copy := truncate 0x40 (format_noargs (skip_parent issuer)) in
      count_loop (Datatypes.S (String.length issuer_copy)) (strtok "-" issuer_copy) count
  end.

(** [certs[i] := c]; an index outside the array writes nothing. *)
Fixpoint array_set (certs : list Certificate) (i : nat) (c : Certificate)
  : list Certificate :=
  match certs, i with
  | [], _ => []
  | _ :: tl, O => c :: tl
  | hd :: tl, Datatypes.S i' => hd :: array_set tl i' c
  end.

(** The loop of [certRetrieveCertificateChainBySignatureIssuer]: the
    success flag and the array after the loop. *)
Fixpoint retrieve_loop (fuel : nat) (pch : option (string * string)) (i : Z)
  (certs : list Certificate) : bool * list Certificate :=
  match fuel with
  | O => (true, certs)
  | S fuel' =>
    match pch with
    | None => (true, certs)
    | Some (tok, saved) =>
      let slot := nth_error certs (Z.to_nat i) in
      let (ok, slot') := certRetrieveCertificateByName slot (Some tok) in
      let certs :=
        match slot' with
        | Some c => array_set certs (Z.to_nat i) c
        | None => certs
        end in
      if negb ok then (false, certs)
      else retrieve_loop fuel' (strtok "-" saved) (u32 (i + 1)) certs
    end
  end.

(** [certRetrieveCertificateChainBySignatureIssuer]. *)
Definition certRetrieveCertificateChainBySignatureIssuer
  (dst : option CertificateChain) (issuer : option string)
  : bool * option CertificateChain :=
  match dst, issuer with
  | Some d, Some issuer_s =>
    if (String.length issuer_s =? 0)%nat || negb (prefix "Root-" issuer_s)
    then (false, dst)
    else
      let i := 0 in
      let d := mkCertificateChain (certGetCertificateCountInSignatureIssuer issuer) (certs d) in
      if count d =? 0 then (false, Some d)
      else if negb (calloc_succeeds p (count d))
      then (false, Some (mkCertificateChain (count d) None))
      else
        let d :=
          mkCertificateChain (count d)
            (Some (repeat zero_Certificate (Z.to_nat (count d)))) in
        let issuer_copy := truncate 0x40 (format_noargs (skip_parent issuer_s)) in
        let (success, arr) :=
          retrieve_loop (Datatypes.S (String.length issuer_copy)) (strtok "-" issuer_copy) i
            (repeat zero_Certificate (Z.to_nat (count d))) in
        let d := mkCertificateChain (count d) (Some arr) in
        if negb success then (false, certFreeCertificateChain (Some d))
        else (true, Some d)
  | _, _ => (false, dst)
  end.

(** [memcpy(dst + off, src, n)]. *)
Definition memcpy_at (dst : list byte) (off : Z) (src : list byte) (n : Z) : list byte :=
  (firstn (Z.to_nat off) dst ++ firstn (Z.to_nat n) src
   ++ skipn (Z.to_nat off + Z.to_nat n) dst)%list.

(** The [for] loop of [certCalculateRawCertificateChainSize], with [n]
    turns left. *)
Fixpoint size_loop (n : nat) (i : Z) (certs : list Certificate) (chain_size : Z) : Z :=
  match n with
  | O => chain_size
  | S n' =>
    size_loop n' (u32 (i + 1)) certs
      (u64 (chain_size + size (nth (Z.to_nat i) certs zero_Certificate)))
  end.

(** [certCalculateRawCertificateChainSize]. *)
Definition certCalculateRawCertificateChainSize (chain : option CertificateChain) : Z :=
  match chain with
  | None => 0
  | Some c =>
    if count c =? 0 then 0
    else match certs c with
         | None => 0
         | Some cs => size_loop (Z.to_nat (count c)) 0 cs 0
         end
  end.

(** The [for] loop of [certCopyCertificateChainDataToMemoryBuffer];
    [off] is the distance of [dst_u8] from [dst]. *)
Fixpoint copy_loop (n : nat) (i : Z) (certs : list Certificate) (dst : list byte) (off : Z)
  : list byte :=
  match n with
  | O => dst
  | S n' =>
    let c := nth (Z.to_nat i) certs zero_Certificate in
    copy_loop n' (u32 (i + 1)) certs (memcpy_at dst off (data c) (size c))
      (u64 (off + size c))
  end.

(** [certCopyCertificateChainDataToMemoryBuffer]: the buffer after the
    call. *)
Definition certCopyCertificateChainDataToMemoryBuffer (dst : list byte)
  (chain : option CertificateChain) : list byte :=
  match chain with
  | None => dst
  | Some c =>
    if count c =? 0 then dst
    else match certs c with
         | None => dst
         | Some cs => copy_loop (Z.to_nat (count c)) 0 cs dst 0
         end
  end.

(** [certGenerateRawCertificateChainBySignatureIssuer]: the returned
    buffer ([None] for NULL) and the object behind [out_size] after the
    call. *)
Definition certGenerateRawCertificateChainBySignatureIssuer
  (issuer : option string) (out_size : option Z) : option (list byte) * option Z :=
  match issuer, out_size with
  | Some issuer_s, Some _ =>
    if (String.length issuer_s =? 0)%nat then (None, out_size)
    else
      let chain := mkCertificateChain 0 None in
      match certRetrieveCertificateChainBySignatureIssuer (Some chain) issuer with
      | (false, _) => (None, out_size)
      | (true, chain) =>
        let raw_chain_size := certCalculateRawCertificateChainSize chain in
        if negb (malloc_succeeds p raw_chain_size) then (None, out_size)
        else
          let raw_chain := repeat (malloc_fill p) (Z.to_nat raw_chain_size) in
          let raw_chain := certCopyCertificateChainDataToMemoryBuffer raw_chain chain in
          (Some raw_chain, Some raw_chain_size)
      end
  | _, _ => (None, out_size)
  end.

(** *** Tokens, in the words of the chain description *)

(** The pieces of [s] between delimiters, empty pieces included. *)
Fixpoint pieces (delim : ascii) (s : string) : list string :=
  match s with
  | EmptyString => [EmptyString]
  | String c rest =>
    if Ascii.eqb c delim then EmptyString :: pieces delim rest
    else match pieces delim rest with
         | [] => [String c EmptyString]
         | piece :: more => String c piece :: more
         end
  end.

Definition nonempty (s : string) : bool := negb (String.length s =? 0)%nat.

(** The [delim]-separated tokens of [s], in order of appearance. *)
Definition tokens (delim : ascii) (s : string) : list string :=
  filter nonempty (pieces delim s).

(** The format has no conversion specification. *)
Fixpoint no_percent (s : string) : bool :=
  match s with
  | EmptyString => true
  | String c rest => negb (Ascii.eqb c "%") && no_percent rest
  end.

(** The certificate a token retrieves into a fresh slot of the array. *)
Definition retrieves (tok : string) (c : Certificate) : Prop :=
  certRetrieveCertificateByName (Some zero_Certificate) (Some tok) = (true, Some c).

(** The retrieval loop, told over the list of tokens. *)
Fixpoint retrieve_tokens (toks : list string) (i : Z) (certs : list Certificate)
  : bool * list Certificate :=
  match toks with
  | [] => (true, certs)
  | tok :: more =>
    let slot := nth_error certs (Z.to_nat i) in
    let (ok, slot') := certRetrieveCertificateByName slot (Some tok) in
    let certs :=
      match slot' with
      | Some c => array_set certs (Z.to_nat i) c
      | None => certs
      end in
    if negb ok then (false, certs)
    else retrieve_tokens more (u32 (i + 1)) certs
  end.

(** The sum of the sizes of a list of certificates. *)
Definition total_size (cs : list Certificate) : Z :=
  fold_right (fun c acc => size c + acc) 0 cs.

(** A certificate as a successful lookup leaves it. *)
Definition cert_ok (c : Certificate) : Prop :=
  CERT_MIN_SIZE h <= size c <= CERT_MAX_SIZE h /\
  List.length (data c) = Z.to_nat (CERT_MAX_SIZE h) /\
  type c <> CertType_Invalid.

(** The copy that both loops tokenise. *)
Definition issuer_copy_of (issuer : string) : string :=
  truncate 0x40 (format_noargs (skip_parent issuer)).

(** *** Serialising a chain *)

(** The invariant of a stored certificate that serialisation relies on. *)
Definition fits (c : Certificate) : Prop :=
  0 <= size c <= CERT_MAX_SIZE h /\ (Z.to_nat (size c) <= List.length (data c))%nat.

End WithHeaders.

(** Modelled from the spec: [cert.h] and [signature.h] are not among the
    sources, and the spec leaves the block sizes to the platform headers.
    These are the platform's values: a signature block is the four bytes
    of [sig_type], the signature (0x200, 0x100 or 0x3C bytes) and its
    padding; a public key block is the key, the RSA exponent and the
    padding.  [CERT_MIN_SIZE] and [CERT_MAX_SIZE] are the smallest and
    the largest combination, as the spec defines them. *)
Definition nx_headers : Headers := {|
  CERT_MIN_SIZE := 0x180;
  CERT_MAX_SIZE := 0x500;
  SignatureType_Rsa4096Sha1 := 0x10000;
  SignatureType_Rsa2048Sha1 := 0x10001;
  SignatureType_Ecsda240Sha1 := 0x10002;
  SignatureType_Rsa4096Sha256 := 0x10003;
  SignatureType_Rsa2048Sha256 := 0x10004;
  SignatureType_Ecsda240Sha256 := 0x10005;
  CertPubKeyType_Rsa4096 := 0;
  CertPubKeyType_Rsa2048 := 1;
  CertPubKeyType_Ecsda240 := 2;
  sizeof_SignatureBlockRsa4096 := 4 + 0x200 + 0x3C;
  sizeof_SignatureBlockRsa2048 := 4 + 0x100 + 0x3C;
  sizeof_SignatureBlockEcsda240 := 4 + 0x3C + 0x40;
  sizeof_CertPublicKeyBlockRsa4096 := 0x200 + 4 + 0x34;
  sizeof_CertPublicKeyBlockRsa2048 := 0x100 + 4 + 0x34;
  sizeof_CertPublicKeyBlockEcsda240 := 0x3C + 0x3C;
  SAVE_FS_LIST_MAX_NAME_LENGTH := 0x40
|}.

(** The size of the layout for a signature block and a key block. *)
Definition layout_size (sig_block pk_block : Z) : Z :=
  sig_block + MEMBER_SIZE_issuer + MEMBER_SIZE_pub_key_type + MEMBER_SIZE_name
  + MEMBER_SIZE_cert_id + pk_block.

(** A buffer from a list of byte values. *)
Definition bytes (l : list Z) : list byte := map byte_of_Z l.

Definition zeros (n : nat) : list Z := repeat 0 n.

(** A well-formed certificate of the smallest layout: ECDSA signature
    (0x10002), ECDSA public key (2), 0x180 bytes. *)
Definition sample_ecsda240_cert : list byte :=
  bytes ([0; 1; 0; 2] ++ zeros 0xBC ++ [0; 0; 0; 2] ++ zeros 0xBC).

(** A 0x180-byte file whose first four bytes announce an RSA-4096
    signature (0x10000). *)
Definition short_rsa4096_cert : list byte :=
  bytes ([0; 1; 0; 0] ++ zeros 0x17C).

(** *** Sample platforms *)

(** A file holding [content] whose reads deliver what was asked for, as
    far as the content goes. *)
Definition file_of (content : list byte) : SaveFile :=
  mkSaveFile (Z.of_nat (List.length content)) (fun n => firstn (Z.to_nat n) content).

(** A platform whose save container lists the given paths. *)
Definition platform_of (entries : list (string * SaveFile)) : Platform :=
  mkPlatform
    (fun _ => true)
    (fun path =>
       match find (fun e => String.eqb (fst e) path) entries with
       | Some e => Some (snd e)
       | None => None
       end)
    (fun _ => true) (fun _ => true) x00 (fun fmt => fmt).

(** The two certificates every chain of the fixtures names. *)
Definition nx_platform : Platform :=
  platform_of [("/certificate/CA00000003"%string, file_of sample_ecsda240_cert);
               ("/certificate/XS00000020"%string, file_of sample_ecsda240_cert)].

(** A container whose only file is malformed. *)
Definition malformed_platform : Platform :=
  platform_of [("/certificate/CA00000003"%string, file_of short_rsa4096_cert)].

(** A container whose only file reports 0x180 bytes and delivers 4. *)
Definition short_read_platform : Platform :=
  platform_of [("/certificate/CA00000003"%string,
                mkSaveFile 0x180 (fun _ => bytes [0; 1; 0; 2]))].

Definition letters_a (n : nat) : string := string_of_list_ascii (repeat "a"%char n).

(** An issuer whose text after "Root-" has 65 characters: a name of 63
    letters, a dash and a second name. *)
Definition long_issuer : string := ("Root-" ++ letters_a 63 ++ "-b")%string.

(** A container that has the certificate the first name of
    [long_issuer] resolves to. *)
Definition long_platform : Platform :=
  platform_of [(("/certificate/" ++ letters_a 50)%string, file_of sample_ecsda240_cert)].

(** A container whose only certificate has a '%' in its name. *)
Definition percent_platform : Platform :=
  platform_of [("/certificate/CA%03"%string, file_of sample_ecsda240_cert)].

(** The sample certificate as a lookup stores it in a fresh slot. *)
Definition sample_stored : Certificate :=
  mkCertificate CertType_SigEcsda240_PubKeyEcsda240 0x180
    (store_prefix (data (zero_Certificate nx_headers)) sample_ecsda240_cert).

Definition zero_chain : CertificateChain := mkCertificateChain 0 None.

(** *** Further notions for the laws of Part II *)

(** [sizeof] of the certificate struct that a type names: its signature
    block, the fixed members and its public key block. *)
Definition sizeof_certificate (h : Headers) (t : CertType) : Z :=
  match t with
  | CertType_Invalid => 0
  | CertType_SigRsa4096_PubKeyRsa4096 =>
    layout_size (sizeof_SignatureBlockRsa4096 h) (sizeof_CertPublicKeyBlockRsa4096 h)
  | CertType_SigRsa4096_PubKeyRsa2048 =>
    layout_size (sizeof_SignatureBlockRsa4096 h) (sizeof_CertPublicKeyBlockRsa2048 h)
  | CertType_SigRsa4096_PubKeyEcsda240 =>
    layout_size (sizeof_SignatureBlockRsa4096 h) (sizeof_CertPublicKeyBlockEcsda240 h)
  | CertType_SigRsa2048_PubKeyRsa4096 =>
    layout_size (sizeof_SignatureBlockRsa2048 h) (sizeof_CertPublicKeyBlockRsa4096 h)
  | CertType_SigRsa2048_PubKeyRsa2048 =>
    layout_size (sizeof_SignatureBlockRsa2048 h) (sizeof_CertPublicKeyBlockRsa2048 h)
  | CertType_SigRsa2048_PubKeyEcsda240 =>
    layout_size (sizeof_SignatureBlockRsa2048 h) (sizeof_CertPublicKeyBlockEcsda240 h)
  | CertType_SigEcsda240_PubKeyRsa4096 =>
    layout_size (sizeof_SignatureBlockEcsda240 h) (sizeof_CertPublicKeyBlockRsa4096 h)
  | CertType_SigEcsda240_PubKeyRsa2048 =>
    layout_size (sizeof_SignatureBlockEcsda240 h) (sizeof_CertPublicKeyBlockRsa2048 h)
  | CertType_SigEcsda240_PubKeyEcsda240 =>
    layout_size (sizeof_SignatureBlockEcsda240 h) (sizeof_CertPublicKeyBlockEcsda240 h)
  end.

(** No character of [s] is the delimiter. *)
Fixpoint delim_free (delim : ascii) (s : string) : bool :=
  match s with
  | EmptyString => true
  | String c rest => negb (Ascii.eqb c delim) && delim_free delim rest
  end.

(** A well-formed RSA-4096/RSA-2048 certificate of 0x400 bytes
    (signature value 0x10003, public key value 1), every other byte 0xAA. *)
Definition sample_rsa_cert : list byte :=
  bytes ([0; 1; 0; 3] ++ repeat 0xAA 0x27C ++ [0; 0; 0; 1] ++ repeat 0xAA 0x17C).

(** A slot whose array holds stale bytes 0xFF. *)
Definition stale_Certificate : Certificate :=
  mkCertificate CertType_SigRsa4096_PubKeyRsa4096 0x500 (bytes (repeat 0xFF 0x500)).

(** The RSA sample as a lookup stores it in [stale_Certificate]. *)
Definition rsa_stored : Certificate :=
  mkCertificate CertType_SigRsa4096_PubKeyRsa2048 0x400
    (store_prefix (data stale_Certificate) sample_rsa_cert).

(** A container with an RSA certificate besides the two ECDSA ones. *)
Definition mixed_platform : Platform :=
  platform_of [("/certificate/CA00000003"%string, file_of sample_rsa_cert);
               ("/certificate/XS00000020"%string, file_of sample_ecsda240_cert)].

(** The RSA sample as a lookup stores it in a fresh slot. *)
Definition rsa_fresh : Certificate :=
  mkCertificate CertType_SigRsa4096_PubKeyRsa2048 0x400
    (store_prefix (data (zero_Certificate nx_headers)) sample_rsa_cert).

(** An issuer with two ancestors below the root, and its chain over
    [mixed_platform]. *)
Definition mixed_issuer : string := "Root-CA00000003-XS00000020".

Definition mixed_chain : CertificateChain :=
  mkCertificateChain 2 (Some [rsa_fresh; sample_stored]).

(** An issuer whose only ancestor is not in the container. *)
Definition unknown_issuer : string := "Root-ZZ00000000".

(** Two names of 51 characters that differ in the last one only. *)
Definition long_name_x : string := (letters_a 50 ++ "x")%string.
Definition long_name_y : string := (letters_a 50 ++ "y")%string.

End Cert.

(** ** usb.c: the transfer protocol engine *)

Module Usb.
Import Word.

(** *** Constants and wire formats *)

Definition USB_ABI_VERSION : Z := 1.
Definition USB_CMD_HEADER_MAGIC : Z := 0x4E584454.
Definition USB_TRANSFER_ALIGNMENT : Z := 0x1000.

Definition UsbCommandType_StartSession : Z := 0.
Definition UsbCommandType_SendFileProperties : Z := 1.
Definition UsbCommandType_SendNspHeader : Z := 2.
Definition UsbCommandType_EndSession : Z := 3.

Definition UsbStatusType_Success : Z := 0.
Definition UsbStatusType_InvalidCommandSize : Z := 1.
Definition UsbStatusType_WriteCommandFailed : Z := 2.
Definition UsbStatusType_ReadStatusFailed : Z := 3.
Definition UsbStatusType_InvalidMagicWord : Z := 4.
Definition UsbStatusType_UnsupportedCommand : Z := 5.
Definition UsbStatusType_UnsupportedAbiVersion : Z := 6.
Definition UsbStatusType_MalformedCommand : Z := 7.
Definition UsbStatusType_HostIoError : Z := 8.

(** Modelled from the spec: [FS_MAX_PATH] comes from the platform
    headers; the wire format of the file properties block gives 0x301. *)
Definition FS_MAX_PATH : Z := 0x301.

Definition sizeof_UsbCommandHeader : Z := 4 + 4 + 4 + 0x4.
Definition sizeof_UsbCommandStartSession : Z := 1 + 1 + 1 + 1 + 0xC.
Definition sizeof_UsbCommandSendFileProperties : Z := 8 + 4 + 0x4 + FS_MAX_PATH + 0xF.
Definition sizeof_UsbStatus : Z := 4 + 4 + 0x8.

(** What [usb.h] and the build declare: the size of the transfer buffer
    and the version of the application.  They are not part of the
    sources at hand, so the functions below take them as a parameter. *)
Record Headers : Type := {
  USB_TRANSFER_BUFFER_SIZE : Z;
  VERSION_MAJOR : Z;
  VERSION_MINOR : Z;
  VERSION_MICRO : Z
}.

(** A block of memory: where it starts and the byte at each offset. *)
Record Buffer : Type := mkBuffer {
  addr : Z;
  byte_at : Z -> byte
}.

(** Modelled from the spec: the macro [IS_ALIGNED] is declared in
    [utils.h]; a 4 KiB-aligned address has its low twelve bits clear. *)
Definition IS_ALIGNED (x align : Z) : bool := Z.land x (align - 1) =? 0.

(** [memcpy(b + off, src, length src)]. *)
Definition store (b : Buffer) (off : Z) (src : list byte) : Buffer :=
  mkBuffer (addr b)
    (fun i =>
       if (off <=? i) && (i <? off + Z.of_nat (List.length src))
       then nth (Z.to_nat (i - off)) src x00
       else byte_at b i).

(** [memset(b + off, 0, n)]. *)
Definition memset0 (b : Buffer) (off n : Z) : Buffer :=
  mkBuffer (addr b) (fun i => if (off <=? i) && (i <? off + n) then x00 else byte_at b i).

(** [memcpy(dst, src, n)] between two blocks. *)
Definition copy_from (dst src : Buffer) (n : Z) : Buffer :=
  mkBuffer (addr dst) (fun i => if (0 <=? i) && (i <? n) then byte_at src i else byte_at dst i).

(** The [n] bytes from [off] on. *)
Definition window (b : Buffer) (off : Z) (n : nat) : list byte :=
  map (fun k => byte_at b (off + Z.of_nat k)) (seq 0 n).

(** The little-endian bytes of an integer of [n] bytes. *)
Fixpoint le_bytes (n : nat) (v : Z) : list byte :=
  match n with
  | O => []
  | S n' => byte_of_Z v :: le_bytes n' (Z.shiftr v 8)
  end.

(** The fields of a [UsbStatus] laid over the start of a block, as the
    little-endian target loads them. *)
Definition UsbStatus_magic (b : Buffer) : Z :=
  memcpy_u32 (window b 0 (Z.to_nat sizeof_UsbStatus)) 0.
Definition UsbStatus_status (b : Buffer) : Z :=
  memcpy_u32 (window b 0 (Z.to_nat sizeof_UsbStatus)) 4.

(** The magic field of a status frame, read as the wire defines it. *)
Definition wire_magic (frame : list byte) : Z := be32_at frame 0.

(** *** The platform *)

(** What the USB device server answers to one posted transfer. *)
Record Urb : Type := mkUrb {
  (** [usbDsEndpoint_PostBufferAsync] succeeded *)
  urb_post_ok : bool;
  (** [eventWait] with the transfer timeout succeeded *)
  urb_event_wait_ok : bool;
  (** [waitMulti] on completion and exit: success, and the index that fired *)
  urb_wait_multi : bool * Z;
  (** [usbDsEndpoint_GetReportData] and [usbDsParseReportData] succeeded *)
  urb_report_ok : bool;
  urb_parse_ok : bool;
  urb_transferred_size : Z;
  (** the bytes the host sent, for a transfer on the OUT endpoint *)
  urb_payload : list byte
}.

Inductive Direction : Type := In_endpoint | Out_endpoint.

(** One call of [usbWrite] or [usbRead]: the size asked for and whether
    the call succeeded. *)
Record Io : Type := mkIo {
  io_dir : Direction;
  io_size : Z;
  io_ok : bool
}.

(** The globals of [usb.c], the calls made so far, and what the platform
    will answer next: to [usbDsGetState] (success and state code) and to
    posted transfers. *)
Record State : Type := mkState {
  g_usbTransferBuffer : option Buffer;
  g_usbDeviceInterfaceInitialized : bool;
  g_usbDeviceInterface_initialized : bool;
  g_usbDeviceInterface_endpoint_in : bool;
  g_usbDeviceInterface_endpoint_out : bool;
  g_usbDeviceInterface_zlt : bool;
  g_usbHostAvailable : bool;
  g_usbSessionStarted : bool;
  g_usbDetectionThreadExitFlag : bool;
  g_usbTransferRemainingSize : Z;
  g_usbTimeoutEvent : bool;
  io_trace : list Io;
  ds_states : list (bool * Z);
  urbs : list Urb
}.

Definition set_buffer (b : option Buffer) (s : State) : State :=
  mkState b (g_usbDeviceInterfaceInitialized s) (g_usbDeviceInterface_initialized s)
    (g_usbDeviceInterface_endpoint_in s) (g_usbDeviceInterface_endpoint_out s)
    (g_usbDeviceInterface_zlt s) (g_usbHostAvailable s) (g_usbSessionStarted s)
    (g_usbDetectionThreadExitFlag s) (g_usbTransferRemainingSize s) (g_usbTimeoutEvent s)
    (io_trace s) (ds_states s) (urbs s).

Definition set_zlt (v : bool) (s : State) : State :=
  mkState (g_usbTransferBuffer s) (g_usbDeviceInterfaceInitialized s)
    (g_usbDeviceInterface_initialized s)
    (g_usbDeviceInterface_endpoint_in s) (g_usbDeviceInterface_endpoint_out s)
    v (g_usbHostAvailable s) (g_usbSessionStarted s)
    (g_usbDetectionThreadExitFlag s) (g_usbTransferRemainingSize s) (g_usbTimeoutEvent s)
    (io_trace s) (ds_states s) (urbs s).

Definition set_host (v : bool) (s : State) : State :=
  mkState (g_usbTransferBuffer s) (g_usbDeviceInterfaceInitialized s)
    (g_usbDeviceInterface_initialized s)
    (g_usbDeviceInterface_endpoint_in s) (g_usbDeviceInterface_endpoint_out s)
    (g_usbDeviceInterface_zlt s) v (g_usbSessionStarted s)
    (g_usbDetectionThreadExitFlag s) (g_usbTransferRemainingSize s) (g_usbTimeoutEvent s)
    (io_trace s) (ds_states s) (urbs s).

Definition set_session (v : bool) (s : State) : State :=
  mkState (g_usbTransferBuffer s) (g_usbDeviceInterfaceInitialized s)
    (g_usbDeviceInterface_initialized s)
    (g_usbDeviceInterface_endpoint_in s) (g_usbDeviceInterface_endpoint_out s)
    (g_usbDeviceInterface_zlt s) (g_usbHostAvailable s) v
    (g_usbDetectionThreadExitFlag s) (g_usbTransferRemainingSize s) (g_usbTimeoutEvent s)
    (io_trace s) (ds_states s) (urbs s).

Definition set_exit_flag (v : bool) (s : State) : State :=
  mkState (g_usbTransferBuffer s) (g_usbDeviceInterfaceInitialized s)
    (g_usbDeviceInterface_initialized s)
    (g_usbDeviceInterface_endpoint_in s) (g_usbDeviceInterface_endpoint_out s)
    (g_usbDeviceInterface_zlt s) (g_usbHostAvailable s) (g_usbSessionStarted s)
    v (g_usbTransferRemainingSize s) (g_usbTimeoutEvent s)
    (io_trace s) (ds_states s) (urbs s).

Definition set_remaining (v : Z) (s : State) : State :=
  mkState (g_usbTransferBuffer s) (g_usbDeviceInterfaceInitialized s)
    (g_usbDeviceInterface_initialized s)
    (g_usbDeviceInterface_endpoint_in s) (g_usbDeviceInterface_endpoint_out s)
    (g_usbDeviceInterface_zlt s) (g_usbHostAvailable s) (g_usbSessionStarted s)
    (g_usbDetectionThreadExitFlag s) v (g_usbTimeoutEvent s)
    (io_trace s) (ds_states s) (urbs s).

Definition set_timeout_event (v : bool) (s : State) : State :=
  mkState (g_usbTransferBuffer s) (g_usbDeviceInterfaceInitialized s)
    (g_usbDeviceInterface_initialized s)
    (g_usbDeviceInterface_endpoint_in s) (g_usbDeviceInterface_endpoint_out s)
    (g_usbDeviceInterface_zlt s) (g_usbHostAvailable s) (g_usbSessionStarted s)
    (g_usbDetectionThreadExitFlag s) (g_usbTransferRemainingSize s) v
    (io_trace s) (ds_states s) (urbs s).

Definition set_io_trace (v : list Io) (s : State) : State :=
  mkState (g_usbTransferBuffer s) (g_usbDeviceInterfaceInitialized s)
    (g_usbDeviceInterface_initialized s)
    (g_usbDeviceInterface_endpoint_in s) (g_usbDeviceInterface_endpoint_out s)
    (g_usbDeviceInterface_zlt s) (g_usbHostAvailable s) (g_usbSessionStarted s)
    (g_usbDetectionThreadExitFlag s) (g_usbTransferRemainingSize s) (g_usbTimeoutEvent s)
    v (ds_states s) (urbs s).

Definition set_ds_states (v : list (bool * Z)) (s : State) : State :=
  mkState (g_usbTransferBuffer s) (g_usbDeviceInterfaceInitialized s)
    (g_usbDeviceInterface_initialized s)
    (g_usbDeviceInterface_endpoint_in s) (g_usbDeviceInterface_endpoint_out s)
    (g_usbDeviceInterface_zlt s) (g_usbHostAvailable s) (g_usbSessionStarted s)
    (g_usbDetectionThreadExitFlag s) (g_usbTransferRemainingSize s) (g_usbTimeoutEvent s)
    (io_trace s) v (urbs s).

Definition set_urbs (v : list Urb) (s : State) : State :=
  mkState (g_usbTransferBuffer s) (g_usbDeviceInterfaceInitialized s)
    (g_usbDeviceInterface_initialized s)
    (g_usbDeviceInterface_endpoint_in s) (g_usbDeviceInterface_endpoint_out s)
    (g_usbDeviceInterface_zlt s) (g_usbHostAvailable s) (g_usbSessionStarted s)
    (g_usbDetectionThreadExitFlag s) (g_usbTransferRemainingSize s) (g_usbTimeoutEvent s)
    (io_trace s) (ds_states s) v.

(** *** A state monad for the globals *)

Definition M (A : Type) : Type := State -> A * State.

Definition ret {A : Type} (a : A) : M A := fun s => (a, s).
Definition bind {A B : Type} (m : M A) (k : A -> M B) : M B :=
  fun s => let (a, s') := m s in k a s'.
Definition get {A : Type} (f : State -> A) : M A := fun s => (f s, s).
Definition modify (f : State -> State) : M unit := fun s => (tt, f s).

Declare Scope usb_scope.
Delimit Scope usb_scope with usb.
Notation "x <- m ;; k" := (bind m (fun x => k))
  (at level 61, m at next level, right associativity) : usb_scope.
Notation "m ;;; k" := (bind m (fun _ => k))
  (at level 61, right associativity) : usb_scope.

Notation "' pat <- m ;; k" := (bind m (fun x => match x with pat => k end))
  (at level 61, pat pattern, m at next level, right associativity) : usb_scope.

Local Open Scope usb_scope.

Section WithHeaders.

Variable h : Headers.

(** *** The transfer primitive *)

(** [usbIsHostAvailable]: the next answer of [usbDsGetState]; with no
    answer left the call fails. *)
Definition usbIsHostAvailable : M bool :=
  fun s =>
    match ds_states s with
    | [] => (false, s)
    | (rc_ok, state) :: rest => (rc_ok && (state =? 5), set_ds_states rest s)
    end.

(** The platform's answer to the next posted transfer; with no answer
    left the post fails. *)
Definition next_urb : M Urb :=
  fun s =>
    match urbs s with
    | [] => (mkUrb false false (false, 0) false false 0 [], s)
    | u :: rest => (u, set_urbs rest s)
    end.

Definition endpoint_of (e : Direction) (s : State) : bool :=
  match e with
  | In_endpoint => g_usbDeviceInterface_endpoint_in s
  | Out_endpoint => g_usbDeviceInterface_endpoint_out s
  end.

(** The block after a completed transfer: on the OUT endpoint the bytes
    of the host are in it. *)
Definition completed (e : Direction) (b : Buffer) (u : Urb) (size : Z) : Buffer :=
  match e with
  | In_endpoint => b
  | Out_endpoint => store b 0 (firstn (Z.to_nat size) (urb_payload u))
  end.

(** [usbTransferData]: the returned flag and the block behind [buf]
    after the call. *)
Definition usbTransferData (buf : option Buffer) (size : Z) (endpoint : Direction)
  : M (bool * option Buffer) :=
  ep <- get (endpoint_of endpoint) ;;
  match buf with
  | None => ret (false, buf)
  | Some b =>
    if negb (IS_ALIGNED (addr b) USB_TRANSFER_ALIGNMENT) || (size =? 0) || negb ep
    then ret (false, buf)
    else
      available <- usbIsHostAvailable ;;
      if negb available then ret (false, buf)
      else
        u <- next_urb ;;
        if negb (urb_post_ok u) then ret (false, buf)
        else
          started <- get g_usbSessionStarted ;;
          ' (rc_ok, thread_exit) <-
            (if started then ret (urb_event_wait_ok u, false)
             else
               let (ok, idx) := urb_wait_multi u in
               if ok && (idx =? 1)
               then modify (set_exit_flag true) ;;; ret (false, true)
               else ret (ok, false)) ;;
          if negb rc_ok
          then
            started <- get g_usbSessionStarted ;;
            (if started then modify (set_timeout_event true) else ret tt) ;;;
            ret (false, buf)
          else
            let b' := Some (completed endpoint b u size) in
            if negb (urb_report_ok u) then ret (false, b')
            else if negb (urb_parse_ok u) then ret (false, b')
            else if negb (u32 (urb_transferred_size u) =? size) then ret (false, b')
            else ret (true, b')
  end.

Definition log_io (e : Direction) (size : Z) (ok : bool) : M unit :=
  modify (fun s => set_io_trace (io_trace s ++ [mkIo e size ok]) s).

(** [usbRead]. *)
Definition usbRead (buf : option Buffer) (size : Z) : M (bool * option Buffer) :=
  ' (ok, b) <- usbTransferData buf size Out_endpoint ;;
  log_io Out_endpoint size ok ;;;
  ret (ok, b).

(** [usbWrite]. *)
Definition usbWrite (buf : option Buffer) (size : Z) : M bool :=
  ' (ok, _) <- usbTransferData buf size In_endpoint ;;
  (if ok then modify (set_zlt true) else ret tt) ;;;
  log_io In_endpoint size ok ;;;
  ret ok.

(** [usbRead(g_usbTransferBuffer, size)]: the bytes land in the transfer
    buffer. *)
Definition usbRead_transfer_buffer (size : Z) : M bool :=
  buf <- get g_usbTransferBuffer ;;
  ' (ok, b) <- usbRead buf size ;;
  modify (set_buffer b) ;;;
  ret ok.

(** *** Commands *)

Definition update_buffer (f : Buffer -> Buffer) : M unit :=
  modify (fun s => set_buffer (option_map f (g_usbTransferBuffer s)) s).

(** [usbPrepareCommandHeader]. *)
Definition usbPrepareCommandHeader (cmd cmd_block_size : Z) : M unit :=
  if cmd >? UsbCommandType_EndSession then ret tt
  else
    update_buffer (fun b =>
      let b := memset0 b 0 sizeof_UsbCommandHeader in
      let b := store b 0 (le_bytes 4 (bswap32 USB_CMD_HEADER_MAGIC)) in
      let b := store b 4 (le_bytes 4 cmd) in
      store b 8 (le_bytes 4 cmd_block_size)).

(** The command code of the header at the start of a block:
    [((UsbCommandHeader* )b)->cmd], as the little-endian target loads
    it. *)
Definition UsbCommandHeader_cmd (b : Buffer) : Z :=
  memcpy_u32 (window b 0 (Z.to_nat sizeof_UsbCommandHeader)) 4.

(** No status: the value of a call that does not return.  It lies
    outside the range of [u32], so that no status of the code or of the
    host is mistaken for it. *)
Definition no_status : Z := -1.

(** The statements of [usbSendCommand] that follow the load of the
    command code. *)
Definition usbSendCommand_exchange (cmd_size : Z) : M Z :=
  if (cmd_size <? sizeof_UsbCommandHeader) || (cmd_size >? USB_TRANSFER_BUFFER_SIZE h)
  then ret UsbStatusType_InvalidCommandSize
  else
    buf <- get g_usbTransferBuffer ;;
    written <- usbWrite buf cmd_size ;;
    if negb written then ret UsbStatusType_WriteCommandFailed
    else
      read <- usbRead_transfer_buffer sizeof_UsbStatus ;;
      if negb read then ret UsbStatusType_ReadStatusFailed
      else
        buf <- get g_usbTransferBuffer ;;
        match buf with
        | None => ret UsbStatusType_ReadStatusFailed
        | Some cmd_status =>
          if negb (UsbStatus_magic cmd_status =? bswap32 USB_CMD_HEADER_MAGIC)
          then ret UsbStatusType_InvalidMagicWord
          else ret (UsbStatus_status cmd_status)
        end.

(** [usbSendCommand].  Its first statement loads the command code
    through [g_usbTransferBuffer], before the size is checked; the code
    only serves the log.  Behind a NULL pointer there is nothing to
    load: the call faults there and does not return. *)
Definition usbSendCommand (cmd_size : Z) : M Z :=
  cmd_header <- get g_usbTransferBuffer ;;
  match cmd_header with
  | None => ret no_status
  | Some cmd_header =>
    let cmd := UsbCommandHeader_cmd cmd_header in
    usbSendCommand_exchange cmd_size
  end.

Definition comms_ready (s : State) : bool :=
  match g_usbTransferBuffer s with None => false | Some _ => true end
  && g_usbDeviceInterfaceInitialized s && g_usbDeviceInterface_initialized s.

(** [usbStartSession]. *)
Definition usbStartSession : M bool :=
  ready <- get comms_ready ;;
  if negb ready then ret false
  else
    usbPrepareCommandHeader UsbCommandType_StartSession sizeof_UsbCommandStartSession ;;;
    update_buffer (fun b =>
      let cmd_block := sizeof_UsbCommandHeader in
      let b := memset0 b cmd_block sizeof_UsbCommandStartSession in
      store b cmd_block
        [byte_of_Z (VERSION_MAJOR h); byte_of_Z (VERSION_MINOR h);
         byte_of_Z (VERSION_MICRO h); byte_of_Z USB_ABI_VERSION]) ;;;
    let cmd_size := sizeof_UsbCommandHeader + sizeof_UsbCommandStartSession in
    status <- usbSendCommand cmd_size ;;
    ret (status =? UsbStatusType_Success).

(** [usbEndSession]. *)
Definition usbEndSession : M unit :=
  ready <- get comms_ready ;;
  host <- get g_usbHostAvailable ;;
  session <- get g_usbSessionStarted ;;
  if negb ready || negb host || negb session then ret tt
  else
    usbPrepareCommandHeader UsbCommandType_EndSession 0 ;;;
    buf <- get g_usbTransferBuffer ;;
    usbWrite buf sizeof_UsbCommandHeader ;;;
    ret tt.

(** *** The public calls *)

(** [usbIsReady]. *)
Definition usbIsReady : M bool :=
  host <- get g_usbHostAvailable ;;
  session <- get g_usbSessionStarted ;;
  ret (host && session).

(** [(u32)strlen(filename)], 0 for NULL. *)
Definition filename_length_of (filename : option string) : Z :=
  match filename with
  | None => 0
  | Some name => u32 (Z.of_nat (String.length name))
  end.

(** The parameter check of [usbSendFileProperties]: true when the call
    is refused. *)
Definition usbSendFileProperties_refused (filename : option string) (s : State) : bool :=
  negb (comms_ready s) || negb (g_usbHostAvailable s) || negb (g_usbSessionStarted s)
  || (g_usbTransferRemainingSize s >? 0)
  || match filename with None => true | Some _ => false end
  || (filename_length_of filename =? 0) || (filename_length_of filename >=? FS_MAX_PATH).

(** The lines of [usbSendFileProperties] that fill the header and the
    command block. *)
Definition usbSendFileProperties_prepare (file_size : Z) (filename : option string) : M unit :=
  usbPrepareCommandHeader UsbCommandType_SendFileProperties
    (u32 sizeof_UsbCommandSendFileProperties) ;;;
  update_buffer (fun b =>
    let cmd_block := sizeof_UsbCommandHeader in
    let b := memset0 b cmd_block sizeof_UsbCommandSendFileProperties in
    let b := store b cmd_block (le_bytes 8 file_size) in
    let b := store b (cmd_block + 8) (le_bytes 4 (filename_length_of filename)) in
    store b (cmd_block + 16)
      (match filename with
       | None => []
       | Some name => (list_byte_of_string name ++ [x00])%list
       end)).

Definition SendFileProperties_cmd_size : Z :=
  sizeof_UsbCommandHeader + sizeof_UsbCommandSendFileProperties.

(** [usbSendFileProperties]; [filename] is [None] for NULL. *)
Definition usbSendFileProperties (file_size : Z) (filename : option string) : M bool :=
  refused <- get (usbSendFileProperties_refused filename) ;;
  if refused then ret false
  else
    usbSendFileProperties_prepare file_size filename ;;;
    status <- usbSendCommand SendFileProperties_cmd_size ;;
    if status =? UsbStatusType_Success
    then modify (set_remaining file_size) ;;; ret true
    else ret false.

(** The tail of [usbSendFileData]: the label [end]. *)
Definition usbSendFileData_end (ret_value : bool) : M bool :=
  (if negb ret_value then modify (set_remaining 0) else ret tt) ;;;
  ret ret_value.

(** [usbSendFileData]; [data] is [None] for NULL. *)
Definition usbSendFileData (data : option Buffer) (data_size : Z) : M bool :=
  ready <- get comms_ready ;;
  host <- get g_usbHostAvailable ;;
  session <- get g_usbSessionStarted ;;
  remaining <- get g_usbTransferRemainingSize ;;
  match data with
  | None => usbSendFileData_end false
  | Some d =>
    if negb ready || negb host || negb session || (remaining =? 0)
       || (data_size =? 0) || (data_size >? USB_TRANSFER_BUFFER_SIZE h)
       || (data_size >? remaining)
    then usbSendFileData_end false
    else
      buf <-
        (if IS_ALIGNED (addr d) USB_TRANSFER_ALIGNMENT then ret (Some d)
         else
           update_buffer (fun b => copy_from b d data_size) ;;;
           get g_usbTransferBuffer) ;;
      written <- usbWrite buf data_size ;;
      if negb written then usbSendFileData_end false
      else
        modify (fun s => set_remaining (u64 (g_usbTransferRemainingSize s - data_size)) s) ;;;
        remaining <- get g_usbTransferRemainingSize ;;
        if remaining =? 0
        then
          read <- usbRead_transfer_buffer sizeof_UsbStatus ;;
          if negb read then usbSendFileData_end false
          else
            buf <- get g_usbTransferBuffer ;;
            match buf with
            | None => usbSendFileData_end false
            | Some cmd_status =>
              if negb (UsbStatus_magic cmd_status =? bswap32 USB_CMD_HEADER_MAGIC)
              then usbSendFileData_end false
              else usbSendFileData_end (UsbStatus_status cmd_status =? UsbStatusType_Success)
            end
        else usbSendFileData_end true
  end.

(** *** The detection thread *)

(** The lines after the loop of [usbDetectionThreadFunc]. *)
Definition usbDetectionThread_exit : M unit :=
  host <- get g_usbHostAvailable ;;
  session <- get g_usbSessionStarted ;;
  (if host && session then usbEndSession else ret tt) ;;;
  modify (set_host false) ;;;
  modify (set_session false) ;;;
  modify (set_exit_flag false) ;;;
  modify (set_remaining 0).

(** One turn of the loop of [usbDetectionThreadFunc] for a wake-up of
    [waitMulti] (success, index): true when the thread goes back to
    waiting, false when it left the loop and ran the exit lines. *)
Definition usbDetectionThread_turn (wake : bool * Z) : M bool :=
  let (rc_ok, idx) := wake in
  if negb rc_ok then ret true
  else if idx =? 2 then usbDetectionThread_exit ;;; ret false
  else
    available <- usbIsHostAvailable ;;
    modify (set_host available) ;;;
    modify (set_session false) ;;;
    modify (set_remaining 0) ;;;
    if available
    then
      started <- usbStartSession ;;
      modify (set_session started) ;;;
      exit_flag <- get g_usbDetectionThreadExitFlag ;;
      if negb started && exit_flag then usbDetectionThread_exit ;;; ret false
      else ret true
    else ret true.

(** [usbDetectionThreadFunc] over the wake-ups it gets: true when the
    thread is still waiting after the last of them. *)
Fixpoint usbDetectionThreadFunc (wakes : list (bool * Z)) : M bool :=
  match wakes with
  | [] => ret true
  | wake :: more =>
    waiting <- usbDetectionThread_turn wake ;;
    if waiting then usbDetectionThreadFunc more else ret false
  end.

(** *** What the transfer primitive leaves alone *)

(** The session triple, the readiness flags and the transfer buffer are
    the same in both states. *)
Definition same_session (s s' : State) : Prop :=
  g_usbHostAvailable s' = g_usbHostAvailable s /\
  g_usbSessionStarted s' = g_usbSessionStarted s /\
  g_usbTransferRemainingSize s' = g_usbTransferRemainingSize s /\
  comms_ready s' = comms_ready s.

End WithHeaders.

(** *** Reachable states *)

(** The platform's answers for the call to come. *)
Definition with_platform (states : list (bool * Z)) (answers : list Urb) (s : State) : State :=
  set_ds_states states (set_urbs answers s).

(** The boot state of the session triple. *)
Definition boot (s : State) : Prop :=
  g_usbHostAvailable s = false /\ g_usbSessionStarted s = false /\
  g_usbTransferRemainingSize s = 0.

(** One state-modifying operation, run under the device lock against
    whatever the platform answers. *)
Inductive step (h : Headers) : State -> State -> Prop :=
| step_send_file_properties (s : State) (states : list (bool * Z)) (answers : list Urb)
    (file_size : Z) (filename : option string) :
    step h s (snd (usbSendFileProperties h file_size filename (with_platform states answers s)))
| step_send_file_data (s : State) (states : list (bool * Z)) (answers : list Urb)
    (data : option Buffer) (data_size : Z) :
    step h s (snd (usbSendFileData h data data_size (with_platform states answers s)))
| step_detection (s : State) (states : list (bool * Z)) (answers : list Urb)
    (wake : bool * Z) :
    step h s (snd (usbDetectionThread_turn h wake (with_platform states answers s))).

Inductive reachable (h : Headers) : State -> Prop :=
| reachable_boot (s : State) : boot s -> reachable h s
| reachable_step (s s' : State) : reachable h s -> step h s s' -> reachable h s'.

Definition session_invariant (s : State) : Prop :=
  0 < g_usbTransferRemainingSize s ->
  g_usbSessionStarted s = true /\ g_usbHostAvailable s = true.

(** *** Sample runs *)

(** Modelled from the spec: [usb.h] and the build files are not among
    the sources.  The transfer buffer of the platform is 8 MiB; the
    version is the one of the application. *)
Definition nx_usb_headers : Headers := {|
  USB_TRANSFER_BUFFER_SIZE := 0x800000;
  VERSION_MAJOR := 2;
  VERSION_MINOR := 0;
  VERSION_MICRO := 0
|}.

Definition zero_buffer (a : Z) : Buffer := mkBuffer a (fun _ => x00).

(** The state after [usbInitialize], before the detection thread ran. *)
Definition initialized_state : State :=
  mkState (Some (zero_buffer 0x10000)) true true true true false
    false false false 0 false [] [] [].

(** A state in the middle of a file: 0x2000 bytes left. *)
Definition streaming_state : State :=
  set_remaining 0x2000 (set_session true (set_host true initialized_state)).

(** A transfer of [n] bytes that completes; the host sends [payload]. *)
Definition urb_done (n : Z) (payload : list byte) : Urb :=
  mkUrb true true (true, 0) true true n payload.

Definition status_frame (magic status : Z) : list byte :=
  (map byte_of_Z [Z.shiftr magic 24; Z.shiftr magic 16; Z.shiftr magic 8; magic]
   ++ le_bytes 4 status ++ repeat x00 8)%list.

Definition ack : list byte := status_frame USB_CMD_HEADER_MAGIC UsbStatusType_Success.

(** The state after the detection thread saw the host and the host
    acknowledged [StartSession]. *)
Definition session_state : State :=
  snd (usbDetectionThread_turn nx_usb_headers (true, 0)
         (with_platform [(true, 5); (true, 5); (true, 5)]
            [urb_done 32 []; urb_done 16 ack] initialized_state)).

(** The state after the host acknowledged the properties of a file of
    0x2000 bytes. *)
Definition file_state : State :=
  snd (usbSendFileProperties nx_usb_headers 0x2000 (Some "dump.bin"%string)
         (with_platform [(true, 5); (true, 5)]
            [urb_done 0x330 []; urb_done 16 ack] session_state)).

(** A reply whose magic is "NXDU". *)
Definition bad_reply : list byte := status_frame 0x4E584455 UsbStatusType_Success.

Definition bad_host (s : State) : State :=
  with_platform [(true, 5); (true, 5)] [urb_done 0x330 []; urb_done 16 bad_reply] s.

(** The states of a [SendFileProperties] command answered by
    [bad_reply]: after the command block is filled, after the command is
    written, and after the reply is read. *)
Definition bad_prepared : State :=
  snd (usbSendFileProperties_prepare 0x2000 (Some "dump.bin"%string)
         (bad_host session_state)).

Definition bad_written : State :=
  snd (usbWrite (g_usbTransferBuffer bad_prepared) SendFileProperties_cmd_size bad_prepared).

Definition bad_read : State :=
  snd (usbRead_transfer_buffer sizeof_UsbStatus bad_written).

(** *** Further notions for the laws of Part II *)

(** The bytes of a command header in a block. *)
Definition header_of (b : Buffer) : list byte :=
  window b 0 (Z.to_nat sizeof_UsbCommandHeader).

(** A client that sends the chunks of a file one after the other with
    [usbSendFileData] and stops at the first call that fails. *)
Fixpoint send_chunks (h : Headers) (chunks : list (option Buffer * Z)) : M bool :=
  match chunks with
  | [] => ret true
  | (data, data_size) :: more =>
    sent <- usbSendFileData h data data_size ;;
    if sent then send_chunks h more else ret false
  end.

(** The sum of the sizes of a list of chunks. *)
Definition chunks_size (chunks : list (option Buffer * Z)) : Z :=
  fold_right (fun chunk acc => snd chunk + acc) 0 chunks.

Definition set_interface (flag initialized endpoint_in endpoint_out : bool) (s : State)
  : State :=
  mkState (g_usbTransferBuffer s) flag initialized endpoint_in endpoint_out
    (g_usbDeviceInterface_zlt s) (g_usbHostAvailable s) (g_usbSessionStarted s)
    (g_usbDetectionThreadExitFlag s) (g_usbTransferRemainingSize s) (g_usbTimeoutEvent s)
    (io_trace s) (ds_states s) (urbs s).

(** [usbFreeTransferBuffer]. *)
Definition usbFreeTransferBuffer : M unit :=
  buf <- get g_usbTransferBuffer ;;
  match buf with
  | None => ret tt
  | Some _ => modify (set_buffer None)
  end.

(** [usbFreeDeviceInterface]: the interface and both endpoints are set
    to NULL. *)
Definition usbFreeDeviceInterface : M unit :=
  initialized <- get g_usbDeviceInterface_initialized ;;
  if negb initialized then ret tt
  else modify (fun s => set_interface (g_usbDeviceInterfaceInitialized s) false false false s).

(** [usbCloseComms]; [usbDsExit] has no part in the globals. *)
Definition usbCloseComms : M unit :=
  modify (fun s =>
    set_interface false (g_usbDeviceInterface_initialized s)
      (g_usbDeviceInterface_endpoint_in s) (g_usbDeviceInterface_endpoint_out s) s) ;;;
  usbFreeDeviceInterface.

(** The lines of [usbExit] under the device lock, once the detection
    thread is gone.  The pointer to the state change event, which the
    function also clears, is not among the globals that the transfer
    functions read. *)
Definition usbExit_locked : M unit :=
  usbCloseComms ;;;
  usbFreeTransferBuffer.

(** A transfer that the exit event interrupts while no session is up. *)
Definition urb_interrupted : Urb := mkUrb true false (true, 1) false false 0 [].

(** A transfer that times out. *)
Definition urb_timeout : Urb := mkUrb true false (false, 0) false false 0 [].

(** The file of [file_state] in two chunks of 0x1000 bytes, the answers
    of the platform to the two writes and the status read, and the state
    after the client sent them. *)
Definition sample_chunks : list (option Buffer * Z) :=
  [(Some (zero_buffer 0x20000), 0x1000); (Some (zero_buffer 0x20000), 0x1000)].

Definition chunked_state : State :=
  with_platform [(true, 5); (true, 5); (true, 5)]
    [urb_done 0x1000 []; urb_done 0x1000 []; urb_done 16 ack] file_state.

Definition chunked_done : State :=
  snd (send_chunks nx_usb_headers sample_chunks chunked_state).

(** A started session has a host. *)
Definition session_needs_host (s : State) : Prop :=
  g_usbSessionStarted s = true -> g_usbHostAvailable s = true.

(** A chunk of 0x1000 bytes in a block that is not page aligned, sent
    as the first half of the file of [file_state]. *)
Definition unaligned_chunk : Buffer := mkBuffer 0x20001 (fun _ => xff).

Definition staging_input : State :=
  with_platform [(true, 5)] [urb_done 0x1000 []] file_state.

Definition staged_state : State :=
  snd (usbSendFileData nx_usb_headers (Some unaligned_chunk) 0x1000 staging_input).

(** The file of [file_state] sent as one chunk: the answers of the
    platform to the write and to the status read, and the state after
    the call. *)
Definition last_chunk_input : State :=
  with_platform [(true, 5); (true, 5)] [urb_done 0x2000 []; urb_done 16 ack] file_state.

Definition last_chunk_done : State :=
  snd (usbSendFileData nx_usb_headers (Some (zero_buffer 0x20000)) 0x2000 last_chunk_input).

End Usb.

(** * Part II: the properties *)

(** ** Byte order *)

Module WordTheory.
Import Word.

Lemma u64_small (z : Z) : 0 <= z < 2 ^ 64 -> u64 z = z.
Proof. intro H. unfold u64. apply Z.mod_small. assumption. Qed.

(** Strip the wrap-around from sums that stay in range, innermost first. *)
Ltac u64_simpl :=
  repeat match goal with
         | |- context [u64 ?z] =>
           lazymatch z with
           | context [u64 _] => fail
           | _ => rewrite (u64_small z) by lia
           end
         end.

Lemma byte_val_range (b : byte) : 0 <= byte_val b < 256.
Proof.
  unfold byte_val. pose proof (Byte.to_N_bounded b) as Hb.
  split; [apply N2Z.is_nonneg | lia].
Qed.

Lemma load_u8_range (mem : list byte) (off : Z) : 0 <= load_u8 mem off < 256.
Proof.
  unfold load_u8. destruct (off <? 0); [lia | apply byte_val_range].
Qed.

(** A field shifted above [k] bits and a value below [2^k] do not overlap:
    or-ing them is adding them. *)
Lemma lor_shiftl_low (hi lo k : Z) :
  0 <= k -> 0 <= lo < 2 ^ k ->
  Z.lor (Z.shiftl hi k) lo = hi * 2 ^ k + lo.
Proof.
  intros Hk Hlo.
  rewrite <- Z.shiftl_mul_pow2 by assumption.
  rewrite <- Z.lxor_lor, <- Z.add_nocarry_lxor; try reflexivity.
  all: apply Z.bits_inj'; intros n Hn; rewrite Z.land_spec, Z.bits_0;
    destruct (Z.ltb_spec n k) as [Hlt | Hge].
  all: try (rewrite Z.shiftl_spec_low by assumption; reflexivity).
  all: replace (Z.testbit lo n) with false;
    [apply andb_false_r | symmetry].
  all: destruct (Z.eq_dec lo 0) as [-> | Hnz]; [apply Z.bits_0 |].
  all: apply Z.bits_above_log2; [lia |];
    apply Z.lt_le_trans with k; [apply Z.log2_lt_pow2; lia | assumption].
Qed.

Lemma memcpy_u32_le (mem : list byte) (off : Z) :
  memcpy_u32 mem off =
  load_u8 mem off + load_u8 mem (off + 1) * 2 ^ 8
  + load_u8 mem (off + 2) * 2 ^ 16 + load_u8 mem (off + 3) * 2 ^ 24.
Proof.
  unfold memcpy_u32.
  pose proof (load_u8_range mem off) as H0.
  pose proof (load_u8_range mem (off + 1)) as H1.
  pose proof (load_u8_range mem (off + 2)) as H2.
  pose proof (load_u8_range mem (off + 3)) as H3.
  set (b0 := load_u8 mem off) in *. set (b1 := load_u8 mem (off + 1)) in *.
  set (b2 := load_u8 mem (off + 2)) in *. set (b3 := load_u8 mem (off + 3)) in *.
  rewrite (Z.lor_comm (Z.shiftl b2 16)), (Z.shiftl_mul_pow2 b2) by lia.
  rewrite (lor_shiftl_low b3 (b2 * 2 ^ 16) 24) by lia.
  replace (b3 * 2 ^ 24 + b2 * 2 ^ 16) with (Z.shiftl (b3 * 2 ^ 8 + b2) 16)
    by (rewrite Z.shiftl_mul_pow2; lia).
  rewrite (Z.lor_comm (Z.shiftl b1 8)), (Z.shiftl_mul_pow2 b1) by lia.
  rewrite (lor_shiftl_low _ (b1 * 2 ^ 8) 16) by lia.
  replace ((b3 * 2 ^ 8 + b2) * 2 ^ 16 + b1 * 2 ^ 8)
    with (Z.shiftl (b3 * 2 ^ 16 + b2 * 2 ^ 8 + b1) 8)
    by (rewrite Z.shiftl_mul_pow2; lia).
  rewrite Z.lor_comm, (lor_shiftl_low _ b0 8) by lia.
  lia.
Qed.

Lemma memcpy_u32_range (mem : list byte) (off : Z) :
  0 <= memcpy_u32 mem off < 2 ^ 32.
Proof.
  rewrite memcpy_u32_le.
  pose proof (load_u8_range mem off). pose proof (load_u8_range mem (off + 1)).
  pose proof (load_u8_range mem (off + 2)). pose proof (load_u8_range mem (off + 3)).
  lia.
Qed.

(** Byte [i] of a word built from four bytes. *)
Lemma bswap32_bytes (b0 b1 b2 b3 : Z) :
  0 <= b0 < 256 -> 0 <= b1 < 256 -> 0 <= b2 < 256 -> 0 <= b3 < 256 ->
  bswap32 (b0 + b1 * 2 ^ 8 + b2 * 2 ^ 16 + b3 * 2 ^ 24) =
  b0 * 2 ^ 24 + b1 * 2 ^ 16 + b2 * 2 ^ 8 + b3.
Proof.
  intros H0 H1 H2 H3. unfold bswap32.
  set (x := b0 + b1 * 2 ^ 8 + b2 * 2 ^ 16 + b3 * 2 ^ 24).
  change 255 with (Z.ones 8).
  rewrite !Z.land_ones, !Z.shiftr_div_pow2 by lia.
  assert (E0 : x mod 2 ^ 8 = b0).
  { subst x. symmetry. apply (Z.mod_unique_pos _ _ (b1 + b2 * 2 ^ 8 + b3 * 2 ^ 16)); lia. }
  assert (E1 : (x / 2 ^ 8) mod 2 ^ 8 = b1).
  { replace (x / 2 ^ 8) with (b1 + b2 * 2 ^ 8 + b3 * 2 ^ 16).
    - symmetry. apply (Z.mod_unique_pos _ _ (b2 + b3 * 2 ^ 8)); lia.
    - apply (Z.div_unique_pos _ _ _ b0); subst x; lia. }
  assert (E2 : (x / 2 ^ 16) mod 2 ^ 8 = b2).
  { replace (x / 2 ^ 16) with (b2 + b3 * 2 ^ 8).
    - symmetry. apply (Z.mod_unique_pos _ _ b3); lia.
    - apply (Z.div_unique_pos _ _ _ (b0 + b1 * 2 ^ 8)); subst x; lia. }
  assert (E3 : (x / 2 ^ 24) mod 2 ^ 8 = b3).
  { replace (x / 2 ^ 24) with b3.
    - apply Z.mod_small; lia.
    - apply (Z.div_unique_pos _ _ _ (b0 + b1 * 2 ^ 8 + b2 * 2 ^ 16)); subst x; lia. }
  rewrite E0, E1, E2, E3.
  rewrite (lor_shiftl_low b2 b3 8) by lia.
  replace (b2 * 2 ^ 8 + b3) with (b3 + b2 * 2 ^ 8) by lia.
  rewrite (Z.shiftl_mul_pow2 b1), (Z.shiftl_mul_pow2 b0) by lia.
  replace (b1 * 2 ^ 16) with (Z.shiftl b1 16) by (rewrite Z.shiftl_mul_pow2; lia).
  rewrite (lor_shiftl_low b1 _ 16) by lia.
  replace (b0 * 2 ^ 24) with (Z.shiftl b0 24) by (rewrite Z.shiftl_mul_pow2; lia).
  rewrite (lor_shiftl_low b0 _ 24) by lia.
  rewrite !Z.shiftl_mul_pow2 by lia. lia.
Qed.

(** Swapping the little-endian load gives the big-endian field. *)
Lemma bswap32_memcpy_u32 (mem : list byte) (off : Z) :
  bswap32 (memcpy_u32 mem off) = be32_at mem off.
Proof.
  rewrite memcpy_u32_le. unfold be32_at.
  apply bswap32_bytes; apply load_u8_range.
Qed.

(** And swapping the big-endian field gives back what was loaded. *)
Lemma bswap32_be32_at (mem : list byte) (off : Z) :
  bswap32 (be32_at mem off) = memcpy_u32 mem off.
Proof.
  rewrite memcpy_u32_le. unfold be32_at.
  pose proof (load_u8_range mem off). pose proof (load_u8_range mem (off + 1)).
  pose proof (load_u8_range mem (off + 2)). pose proof (load_u8_range mem (off + 3)).
  replace (load_u8 mem off * 2 ^ 24 + load_u8 mem (off + 1) * 2 ^ 16
           + load_u8 mem (off + 2) * 2 ^ 8 + load_u8 mem (off + 3))
    with (load_u8 mem (off + 3) + load_u8 mem (off + 2) * 2 ^ 8
          + load_u8 mem (off + 1) * 2 ^ 16 + load_u8 mem off * 2 ^ 24) by lia.
  rewrite bswap32_bytes by assumption. lia.
Qed.

Lemma be32_at_range (mem : list byte) (off : Z) : 0 <= be32_at mem off < 2 ^ 32.
Proof.
  unfold be32_at.
  pose proof (load_u8_range mem off). pose proof (load_u8_range mem (off + 1)).
  pose proof (load_u8_range mem (off + 2)). pose proof (load_u8_range mem (off + 3)).
  lia.
Qed.

End WordTheory.

(** ** cert.c: type recovery, chains and serialisation *)

Module CertTheory.
Import Word WordTheory Cert.

Lemma CertType_eqb_eq (a b : CertType) : CertType_eqb a b = true <-> a = b.
Proof. destruct a, b; simpl; split; intro H; congruence. Qed.

Section WithHeaders.

Variable h : Headers.
Variable p : Platform.

Local Abbreviation CERT_TYPE := (Cert.CERT_TYPE h).
Local Abbreviation certGetCertificateType := (Cert.certGetCertificateType h).
Local Abbreviation recognised_sig_types := (Cert.recognised_sig_types h).
Local Abbreviation recognised_pub_key_types := (Cert.recognised_pub_key_types h).
Local Abbreviation signature_block_size := (Cert.signature_block_size h).
Local Abbreviation public_key_block_size := (Cert.public_key_block_size h).
Local Abbreviation pub_key_type_offset := (Cert.pub_key_type_offset h).
Local Abbreviation end_offset := (Cert.end_offset h).
Local Abbreviation cert_type_of := (Cert.cert_type_of h).
Local Abbreviation recognised_sigb := (Cert.recognised_sigb h).
Local Abbreviation recognised_pub_keyb := (Cert.recognised_pub_keyb h).
Local Abbreviation zero_Certificate := (Cert.zero_Certificate h).
Local Abbreviation size_loop := (Cert.size_loop h).
Local Abbreviation certCalculateRawCertificateChainSize := (Cert.certCalculateRawCertificateChainSize h).
Local Abbreviation copy_loop := (Cert.copy_loop h).
Local Abbreviation certCopyCertificateChainDataToMemoryBuffer := (Cert.certCopyCertificateChainDataToMemoryBuffer h).
Local Abbreviation cert_ok := (Cert.cert_ok h).
Local Abbreviation fits := (Cert.fits h).
Local Abbreviation format_noargs := (Cert.format_noargs p).
Local Abbreviation certGetCertificateCountInSignatureIssuer := (Cert.certGetCertificateCountInSignatureIssuer p).
Local Abbreviation issuer_copy_of := (Cert.issuer_copy_of p).
Local Abbreviation certRetrieveCertificateByName := (Cert.certRetrieveCertificateByName h p).
Local Abbreviation retrieve_loop := (Cert.retrieve_loop h p).
Local Abbreviation certRetrieveCertificateChainBySignatureIssuer := (Cert.certRetrieveCertificateChainBySignatureIssuer h p).
Local Abbreviation certGenerateRawCertificateChainBySignatureIssuer := (Cert.certGenerateRawCertificateChainBySignatureIssuer h p).
Local Abbreviation retrieves := (Cert.retrieves h p).
Local Abbreviation retrieve_tokens := (Cert.retrieve_tokens h p).

(** *** Facts *)

Lemma recognised_sigb_In (v : Z) :
  recognised_sigb v = true <-> In v recognised_sig_types.
Proof.
  unfold recognised_sigb. rewrite existsb_exists. split.
  - intros [x [Hx He]]. apply Z.eqb_eq in He. subst. assumption.
  - intro H. exists v. split; [assumption | apply Z.eqb_refl].
Qed.

Lemma recognised_pub_keyb_In (v : Z) :
  recognised_pub_keyb v = true <-> In v recognised_pub_key_types.
Proof.
  unfold recognised_pub_keyb. rewrite existsb_exists. split.
  - intros [x [Hx He]]. apply Z.eqb_eq in He. subst. assumption.
  - intro H. exists v. split; [assumption | apply Z.eqb_refl].
Qed.

Lemma CERT_TYPE_valid (pk : Z) (a b c : CertType) :
  a <> CertType_Invalid -> b <> CertType_Invalid -> c <> CertType_Invalid ->
  CERT_TYPE pk a b c <> CertType_Invalid.
Proof.
  intros Ha Hb Hc. unfold CERT_TYPE.
  destruct (pk =? _); [assumption |]. destruct (pk =? _); assumption.
Qed.

Lemma cert_type_of_valid (sg pk : Z) : cert_type_of sg pk <> CertType_Invalid.
Proof.
  unfold cert_type_of.
  destruct (_ || _); [apply CERT_TYPE_valid; discriminate |].
  destruct (_ || _); apply CERT_TYPE_valid; discriminate.
Qed.

(** What the function returns, read off the layout: inside the size
    window it is the tag of the pair when both values are recognised and
    the layout ends where the buffer ends, and the invalid tag otherwise. *)
Lemma certGetCertificateType_layout (data : list byte) (S : Z) :
  headers_wf h ->
  CERT_MIN_SIZE h <= S <= CERT_MAX_SIZE h ->
  fst (certGetCertificateType (Some data) S) =
  if recognised_sigb (be32_at data 0)
     && recognised_pub_keyb (be32_at data (pub_key_type_offset data))
     && (end_offset data =? S)
  then cert_type_of (be32_at data 0) (be32_at data (pub_key_type_offset data))
  else CertType_Invalid.
Proof.
  intros [W1 W2 W3 W4 W5 W6 _ _] [Hlo Hhi].
  unfold certGetCertificateType.
  replace (S <? CERT_MIN_SIZE h) with false by (symmetry; apply Z.ltb_ge; lia).
  replace (S >? CERT_MAX_SIZE h) with false
    by (symmetry; rewrite Z.gtb_ltb; apply Z.ltb_ge; lia).
  cbv beta iota zeta. simpl orb. cbv iota.
  rewrite bswap32_memcpy_u32.
  unfold end_offset, pub_key_type_offset, signature_block_size, cert_type_of,
    recognised_sigb, recognised_sig_types, MEMBER_SIZE_issuer,
    MEMBER_SIZE_pub_key_type, MEMBER_SIZE_name, MEMBER_SIZE_cert_id.
  cbn [existsb].
  set (sg := be32_at data 0).
  destruct (sg =? SignatureType_Rsa4096Sha1 h), (sg =? SignatureType_Rsa4096Sha256 h),
    (sg =? SignatureType_Rsa2048Sha1 h), (sg =? SignatureType_Rsa2048Sha256 h),
    (sg =? SignatureType_Ecsda240Sha1 h), (sg =? SignatureType_Ecsda240Sha256 h);
    cbn [orb andb fst]; try reflexivity.
  all: rewrite Z.add_0_l; rewrite !bswap32_memcpy_u32.
  all: u64_simpl.
  all: unfold public_key_block_size, recognised_pub_keyb, recognised_pub_key_types,
    CERT_TYPE; cbn [existsb].
  all: match goal with |- context [be32_at ?d ?o] => set (pk := be32_at d o) end.
  all: destruct (pk =? CertPubKeyType_Rsa4096 h), (pk =? CertPubKeyType_Rsa2048 h),
    (pk =? CertPubKeyType_Ecsda240 h); cbn [orb andb fst]; try reflexivity.
  all: u64_simpl.
  all: destruct (_ =? S); reflexivity.
Qed.

(** The reads are the four bytes of [sig_type] and, once the signature
    value is recognised, the four bytes of [pub_key_type]. *)
Lemma certGetCertificateType_reads (data : list byte) (S : Z) :
  headers_wf h ->
  CERT_MIN_SIZE h <= S <= CERT_MAX_SIZE h ->
  snd (certGetCertificateType (Some data) S) =
  if recognised_sigb (be32_at data 0)
  then [mkAccess 0 4; mkAccess (pub_key_type_offset data) 4]
  else [mkAccess 0 4].
Proof.
  intros [W1 W2 W3 W4 W5 W6 _ _] [Hlo Hhi].
  unfold certGetCertificateType.
  replace (S <? CERT_MIN_SIZE h) with false by (symmetry; apply Z.ltb_ge; lia).
  replace (S >? CERT_MAX_SIZE h) with false
    by (symmetry; rewrite Z.gtb_ltb; apply Z.ltb_ge; lia).
  cbv beta iota zeta. simpl orb. cbv iota.
  rewrite bswap32_memcpy_u32.
  unfold pub_key_type_offset, signature_block_size, recognised_sigb,
    recognised_sig_types, MEMBER_SIZE_issuer.
  cbn [existsb].
  set (sg := be32_at data 0).
  destruct (sg =? SignatureType_Rsa4096Sha1 h), (sg =? SignatureType_Rsa4096Sha256 h),
    (sg =? SignatureType_Rsa2048Sha1 h), (sg =? SignatureType_Rsa2048Sha256 h),
    (sg =? SignatureType_Ecsda240Sha1 h), (sg =? SignatureType_Ecsda240Sha256 h);
    cbn [orb andb snd]; try reflexivity.
  all: rewrite Z.add_0_l; u64_simpl.
  all: repeat match goal with
              | |- context [if ?c then _ else _] => destruct c
              end; reflexivity.
Qed.

Lemma signature_block_size_range (v : Z) :
  headers_wf h -> 0 <= signature_block_size v < 2 ^ 32.
Proof.
  intros [W1 W2 W3 _ _ _ _ _]. unfold Cert.signature_block_size.
  destruct (_ || _); [assumption |]. destruct (_ || _); assumption.
Qed.

Lemma public_key_block_size_range (v : Z) :
  headers_wf h -> 0 <= public_key_block_size v < 2 ^ 32.
Proof.
  intros [_ _ _ W4 W5 W6 _ _]. unfold Cert.public_key_block_size.
  destruct (v =? _); [assumption |]. destruct (v =? _); assumption.
Qed.

Lemma layout_fields_within (bs bp S : Z) :
  0 <= bs -> 0 <= bp ->
  bs + MEMBER_SIZE_issuer + MEMBER_SIZE_pub_key_type + MEMBER_SIZE_name
  + MEMBER_SIZE_cert_id + bp = S ->
  Forall (within S) [mkAccess 0 4; mkAccess (bs + MEMBER_SIZE_issuer) 4].
Proof.
  unfold MEMBER_SIZE_issuer, MEMBER_SIZE_pub_key_type, MEMBER_SIZE_name,
    MEMBER_SIZE_cert_id.
  intros Hs Hp He.
  constructor; [| constructor; [| constructor]];
    unfold within; cbn [acc_off acc_len]; lia.
Qed.

Lemma certGetCertificateType_valid_layout (data : list byte) (S : Z) :
  headers_wf h ->
  CERT_MIN_SIZE h <= S <= CERT_MAX_SIZE h ->
  fst (certGetCertificateType (Some data) S) <> CertType_Invalid ->
  recognised_sigb (be32_at data 0)
  && recognised_pub_keyb (be32_at data (pub_key_type_offset data))
  && (end_offset data =? S) = true.
Proof.
  intros Hwf HS Hv.
  pose proof (certGetCertificateType_layout data S Hwf HS) as Hl.
  destruct (_ && _ && _); [reflexivity | exact (False_ind _ (Hv Hl))].
Qed.

(** A certificate that is given a valid type was read inside its [S]
    bytes: the layout that ends at [S] contains both fields. *)
Lemma certGetCertificateType_valid_reads_within (data : list byte) (S : Z) :
  headers_wf h ->
  CERT_MIN_SIZE h <= S <= CERT_MAX_SIZE h ->
  fst (certGetCertificateType (Some data) S) <> CertType_Invalid ->
  Forall (within S) (snd (certGetCertificateType (Some data) S)).
Proof.
  intros Hwf HS Hv.
  pose proof (certGetCertificateType_valid_layout data S Hwf HS Hv) as Hb.
  apply andb_prop in Hb. destruct Hb as [Hb He].
  apply andb_prop in Hb. destruct Hb as [Hsig _].
  apply Z.eqb_eq in He.
  rewrite (certGetCertificateType_reads data S Hwf HS), Hsig.
  apply (layout_fields_within _
           (public_key_block_size (be32_at data (pub_key_type_offset data)))).
  - apply signature_block_size_range. exact Hwf.
  - apply public_key_block_size_range. exact Hwf.
  - unfold Cert.end_offset in He. unfold Cert.pub_key_type_offset in He at 1.
    exact He.
Qed.

(** *** The tokeniser yields the tokens *)

Lemma tokens_skip_delims (delim : ascii) (s : string) :
  tokens delim (skip_delims delim s) = tokens delim s.
Proof.
  induction s as [| c rest IH]; [reflexivity |].
  simpl skip_delims. destruct (Ascii.eqb c delim) eqn:E; [| reflexivity].
  rewrite IH. unfold tokens. simpl pieces. rewrite E. reflexivity.
Qed.

Lemma skip_delims_length (delim : ascii) (s : string) :
  (String.length (skip_delims delim s) <= String.length s)%nat.
Proof.
  induction s as [| c rest IH]; simpl; [lia |].
  destruct (Ascii.eqb c delim); simpl; lia.
Qed.

Lemma span_token_pieces (delim : ascii) (s tok after : string) :
  span_token delim s = (tok, after) ->
  exists more, pieces delim s = tok :: more /\
               filter nonempty more = tokens delim after.
Proof.
  revert tok after. induction s as [| c rest IH]; intros tok after H.
  - inversion H; subst. exists []. split; reflexivity.
  - simpl in H. simpl pieces. destruct (Ascii.eqb c delim).
    + inversion H; subst. exists (pieces delim after). split; reflexivity.
    + destruct (span_token delim rest) as [tok' after'] eqn:E.
      inversion H; subst.
      destruct (IH tok' after eq_refl) as [more [Hp Hf]].
      exists more. rewrite Hp. split; [reflexivity | assumption].
Qed.

Lemma span_token_length (delim : ascii) (s tok after : string) :
  span_token delim s = (tok, after) ->
  (String.length after <= String.length s)%nat.
Proof.
  revert tok after. induction s as [| c rest IH]; intros tok after H; simpl in H.
  - inversion H; subst. simpl. lia.
  - destruct (Ascii.eqb c delim).
    + inversion H; subst. simpl. lia.
    + destruct (span_token delim rest) as [tok' after'] eqn:E.
      inversion H; subst. specialize (IH _ _ eq_refl). simpl. lia.
Qed.

(** A NULL result means no token is left; otherwise the result is the
    next token, and the saved text is shorter and holds the rest. *)
Lemma strtok_tokens (delim : ascii) (s : string) :
  match strtok delim s with
  | None => tokens delim s = []
  | Some (tok, after) =>
    tokens delim s = tok :: tokens delim after /\
    (String.length after < String.length s)%nat
  end.
Proof.
  unfold strtok. rewrite <- (tokens_skip_delims delim s).
  pose proof (skip_delims_length delim s) as Hlen.
  destruct (skip_delims delim s) as [| c rest] eqn:E; [reflexivity |].
  assert (Hc : Ascii.eqb c delim = false).
  { clear Hlen. induction s as [| c0 r0 IH]; simpl in E; [discriminate |].
    destruct (Ascii.eqb c0 delim) eqn:E0; [auto |].
    inversion E; subst. assumption. }
  destruct (span_token delim (String c rest)) as [tok after] eqn:Es.
  destruct (span_token_pieces _ _ _ _ Es) as [more [Hp Hf]].
  pose proof (span_token_length _ _ _ _ Es) as Hl.
  simpl in Es. rewrite Hc in Es.
  destruct (span_token delim rest) as [tok' after'] eqn:Er.
  inversion Es; subst. pose proof (span_token_length _ _ _ _ Er) as Hl'.
  split.
  - unfold tokens at 1. rewrite Hp. simpl. rewrite Hf. reflexivity.
  - simpl in Hlen. lia.
Qed.

Lemma pieces_length (delim : ascii) (s : string) :
  (List.length (pieces delim s) <= Datatypes.S (String.length s))%nat.
Proof.
  induction s as [| c rest IH]; simpl; [lia |].
  destruct (Ascii.eqb c delim); simpl; [lia |].
  destruct (pieces delim rest); simpl in *; lia.
Qed.

Lemma tokens_length (delim : ascii) (s : string) :
  (List.length (tokens delim s) <= String.length s)%nat.
Proof.
  remember (String.length s) as n eqn:Hn. revert s Hn.
  induction n as [n IH] using lt_wf_ind. intros s Hn.
  pose proof (strtok_tokens delim s) as H.
  destruct (strtok delim s) as [[tok after] |].
  - destruct H as [Ht Hl]. rewrite Ht. simpl.
    specialize (IH (String.length after) ltac:(lia) after eq_refl). lia.
  - rewrite H. simpl. lia.
Qed.

(** The counting loop counts the tokens. *)
Lemma count_loop_tokens (fuel : nat) (s : string) (c : Z) :
  (String.length s < fuel)%nat ->
  0 <= c -> c + Z.of_nat (String.length s) < 2 ^ 32 ->
  count_loop fuel (strtok "-" s) c = c + Z.of_nat (List.length (tokens "-" s)).
Proof.
  revert s c. induction fuel as [| fuel IH]; intros s c Hf Hc Hb; [lia |].
  pose proof (strtok_tokens "-" s) as H. simpl.
  destruct (strtok "-" s) as [[tok after] |].
  - destruct H as [Ht Hl]. rewrite Ht. simpl List.length.
    rewrite IH; unfold u32; rewrite ?Z.mod_small; lia.
  - rewrite H. simpl. lia.
Qed.

(** The retrieval loop visits the tokens in order. *)
Lemma retrieve_loop_tokens (fuel : nat) (s : string) (i : Z) (cs : list Certificate) :
  (String.length s < fuel)%nat ->
  retrieve_loop fuel (strtok "-" s) i cs = retrieve_tokens (tokens "-" s) i cs.
Proof.
  revert s i cs. induction fuel as [| fuel IH]; intros s i cs Hf; [lia |].
  pose proof (strtok_tokens "-" s) as H. simpl.
  destruct (strtok "-" s) as [[tok after] |].
  - destruct H as [Ht Hl]. rewrite Ht. simpl.
    destruct (certRetrieveCertificateByName _ _) as [ok slot'].
    destruct ok; simpl; [| reflexivity].
    apply IH. lia.
  - rewrite H. reflexivity.
Qed.

(** *** Lookup by name *)

Lemma store_prefix_length (dst src : list byte) :
  (List.length src <= List.length dst)%nat ->
  List.length (store_prefix dst src) = List.length dst.
Proof.
  intro H. unfold store_prefix. rewrite length_app, length_skipn. lia.
Qed.

(** A successful lookup leaves a certificate in the slot: its size is in
    the window, its array keeps its length and its tag is valid. *)
Lemma certRetrieveCertificateByName_success (d : Certificate) (name : string)
  (r : option Certificate) :
  List.length (data d) = Z.to_nat (CERT_MAX_SIZE h) ->
  certRetrieveCertificateByName (Some d) (Some name) = (true, r) ->
  exists c, r = Some c /\ cert_ok c.
Proof.
  intros Hd H. unfold certRetrieveCertificateByName in H.
  destruct (String.length name =? 0)%nat; [discriminate |].
  destruct (negb (save_open_savefile p CERT_SAVEFILE_PATH)); [discriminate |].
  destruct (save_get_fat_storage_from_file_entry_by_path p _) as [f |]; [| discriminate].
  destruct ((file_size f <? CERT_MIN_SIZE h) || (file_size f >? CERT_MAX_SIZE h)) eqn:Er;
    [discriminate |].
  apply orb_false_elim in Er. destruct Er as [Hlo Hhi].
  apply Z.ltb_ge in Hlo. rewrite Z.gtb_ltb in Hhi. apply Z.ltb_ge in Hhi.
  cbn [size data type] in H.
  destruct (Z.of_nat (List.length (file_read f (file_size f))) =? file_size f) eqn:Eb;
    cbn [negb] in H; [| discriminate].
  apply Z.eqb_eq in Eb.
  remember (fst (certGetCertificateType _ (file_size f))) as t eqn:Ht. clear Ht.
  destruct (CertType_eqb t CertType_Invalid) eqn:Et; [discriminate |].
  inversion H; subst. eexists. split; [reflexivity |].
  unfold cert_ok. cbn [size data type]. repeat split; try assumption.
  - rewrite store_prefix_length; [assumption | lia].
  - intro Hc. rewrite Hc in Et. discriminate.
Qed.

Lemma zero_Certificate_length :
  List.length (data zero_Certificate) = Z.to_nat (CERT_MAX_SIZE h).
Proof. apply repeat_length. Qed.

Lemma retrieves_cert_ok (tok : string) (c : Certificate) :
  retrieves tok c -> cert_ok c.
Proof.
  intro H. destruct (certRetrieveCertificateByName_success _ _ _ zero_Certificate_length H)
    as [c' [Hc Hok]].
  inversion Hc; subst. assumption.
Qed.

(** *** The array during the retrieval loop *)

Lemma nth_error_middle (pre : list Certificate) (x : Certificate) (post : list Certificate) :
  nth_error (pre ++ x :: post) (List.length pre) = Some x.
Proof. induction pre as [| a pre IH]; simpl; [reflexivity | assumption]. Qed.

Lemma array_set_middle (pre : list Certificate) (x c : Certificate) (post : list Certificate) :
  array_set (pre ++ x :: post) (List.length pre) c = (pre ++ c :: post)%list.
Proof. induction pre as [| a pre IH]; simpl; [reflexivity | rewrite IH; reflexivity]. Qed.

(** When the loop succeeds on a fresh tail of the array, the tail holds
    the certificate of each token, in the order of the tokens. *)
Lemma retrieve_tokens_success (toks : list string) (pre arr : list Certificate) :
  Z.of_nat (List.length pre) + Z.of_nat (List.length toks) < 2 ^ 32 ->
  retrieve_tokens toks (Z.of_nat (List.length pre))
    (pre ++ repeat zero_Certificate (List.length toks)) = (true, arr) ->
  exists cs, arr = (pre ++ cs)%list /\ Forall2 retrieves toks cs.
Proof.
  revert pre arr. induction toks as [| tok more IH]; intros pre arr Hb H.
  - simpl in H. inversion H; subst. exists []. split; [reflexivity | constructor].
  - simpl in H. rewrite Nat2Z.id, nth_error_middle in H.
    destruct (certRetrieveCertificateByName (Some zero_Certificate) (Some tok))
      as [ok slot'] eqn:E.
    destruct ok; cbn [negb] in H; [| discriminate].
    destruct (certRetrieveCertificateByName_success _ _ _ zero_Certificate_length E)
      as [c [Hc Hok]].
    subst slot'. rewrite array_set_middle in H.
    replace (u32 (Z.of_nat (List.length pre) + 1))
      with (Z.of_nat (List.length (pre ++ [c]))) in H.
    2:{ rewrite length_app. simpl List.length. unfold u32.
        rewrite Z.mod_small; simpl List.length in Hb; lia. }
    replace (pre ++ c :: repeat zero_Certificate (List.length more))%list
      with ((pre ++ [c]) ++ repeat zero_Certificate (List.length more))%list in H
      by (rewrite <- app_assoc; reflexivity).
    apply IH in H.
    + destruct H as [cs [Ha Hf]]. exists (c :: cs). split.
      * rewrite Ha, <- app_assoc. reflexivity.
      * constructor; assumption.
    + rewrite length_app. simpl List.length in *. lia.
Qed.

(** Conversely, when every token has a certificate the loop succeeds. *)
Lemma retrieve_tokens_complete (toks : list string) (cs pre : list Certificate) :
  Z.of_nat (List.length pre) + Z.of_nat (List.length toks) < 2 ^ 32 ->
  Forall2 retrieves toks cs ->
  retrieve_tokens toks (Z.of_nat (List.length pre))
    (pre ++ repeat zero_Certificate (List.length toks)) = (true, (pre ++ cs)%list).
Proof.
  intros Hb HF. revert pre Hb. induction HF as [| tok c more cs Hr HF IH]; intros pre Hb.
  - simpl. rewrite app_nil_r. reflexivity.
  - simpl. rewrite Nat2Z.id, nth_error_middle. unfold retrieves in Hr. rewrite Hr.
    cbn [negb]. rewrite array_set_middle.
    replace (u32 (Z.of_nat (List.length pre) + 1))
      with (Z.of_nat (List.length (pre ++ [c]))).
    2:{ rewrite length_app. simpl List.length. unfold u32.
        rewrite Z.mod_small; simpl List.length in Hb; lia. }
    replace (pre ++ c :: repeat zero_Certificate (List.length more))%list
      with ((pre ++ [c]) ++ repeat zero_Certificate (List.length more))%list
      by (rewrite <- app_assoc; reflexivity).
    rewrite IH.
    + rewrite <- app_assoc. reflexivity.
    + rewrite length_app. simpl List.length in *. lia.
Qed.

(** *** The copy of the issuer *)

Lemma substring_all (n : nat) (s : string) :
  (String.length s <= n)%nat -> substring 0 n s = s.
Proof.
  revert n. induction s as [| c rest IH]; intros n H.
  - destruct n; reflexivity.
  - destruct n; simpl in H; [lia |]. simpl. rewrite IH; [reflexivity | lia].
Qed.

Lemma substring_length_le (n : nat) (s : string) :
  (String.length (substring 0 n s) <= n)%nat.
Proof.
  revert n. induction s as [| c rest IH]; intros n.
  - destruct n; simpl; lia.
  - destruct n; simpl; [lia |]. specialize (IH n). lia.
Qed.

Lemma truncate_length (s : string) : (String.length (truncate 0x40 s) <= 63)%nat.
Proof. unfold truncate. apply substring_length_le. Qed.

Lemma truncate_short (s : string) :
  (String.length s <= 63)%nat -> truncate 0x40 s = s.
Proof. intro H. unfold truncate. apply substring_all. exact H. Qed.

Lemma format_noargs_plain (s : string) :
  no_percent s = true -> format_noargs s = s.
Proof.
  induction s as [| c rest IH]; intro H; [reflexivity |].
  simpl in H. apply andb_true_iff in H. destruct H as [Hc Hr].
  simpl. destruct (Ascii.eqb c "%"); [discriminate |].
  rewrite IH; [reflexivity | assumption].
Qed.

Lemma issuer_copy_of_plain (issuer : string) :
  (String.length (skip_parent issuer) <= 63)%nat ->
  no_percent (skip_parent issuer) = true ->
  issuer_copy_of issuer = skip_parent issuer.
Proof.
  intros Hl Hp. unfold issuer_copy_of.
  rewrite format_noargs_plain by assumption. apply truncate_short. assumption.
Qed.

Lemma count_of_copy (issuer : string) :
  (String.length issuer =? 0)%nat = false ->
  certGetCertificateCountInSignatureIssuer (Some issuer) =
  Z.of_nat (List.length (tokens "-" (issuer_copy_of issuer))).
Proof.
  intro Hn. unfold certGetCertificateCountInSignatureIssuer. rewrite Hn.
  fold (issuer_copy_of issuer).
  pose proof (truncate_length (format_noargs (skip_parent issuer))) as Hl.
  fold (issuer_copy_of issuer) in Hl.
  rewrite count_loop_tokens; lia.
Qed.

(** What a call that gets past the parameter check returns, told over
    the tokens of the copy. *)
Lemma chain_of_copy (d : CertificateChain) (issuer : string) :
  (String.length issuer =? 0)%nat || negb (prefix "Root-" issuer) = false ->
  let toks := tokens "-" (issuer_copy_of issuer) in
  let n := Z.of_nat (List.length toks) in
  certRetrieveCertificateChainBySignatureIssuer (Some d) (Some issuer) =
  if n =? 0 then (false, Some (mkCertificateChain 0 (certs d)))
  else if negb (calloc_succeeds p n) then (false, Some (mkCertificateChain n None))
  else
    let (success, arr) := retrieve_tokens toks 0 (repeat zero_Certificate (List.length toks)) in
    if negb success then (false, Some (mkCertificateChain 0 None))
    else (true, Some (mkCertificateChain n (Some arr))).
Proof.
  intros Hchk toks n. unfold certRetrieveCertificateChainBySignatureIssuer.
  rewrite Hchk. apply orb_false_elim in Hchk. destruct Hchk as [Hn _].
  rewrite (count_of_copy issuer Hn). fold (issuer_copy_of issuer). fold toks. fold n.
  cbn [count certs].
  destruct (n =? 0) eqn:En.
  - apply Z.eqb_eq in En. rewrite En. reflexivity.
  - destruct (negb (calloc_succeeds p n)); [reflexivity |].
    rewrite retrieve_loop_tokens by lia. fold toks.
    unfold n. rewrite Nat2Z.id.
    destruct (retrieve_tokens toks 0 _) as [success arr].
    destruct success; reflexivity.
Qed.

(** *** Serialising a chain *)

Lemma cert_ok_fits (c : Certificate) : 0 <= CERT_MIN_SIZE h -> cert_ok c -> fits c.
Proof. intros Hm [[Hlo Hhi] [Hl _]]. unfold fits. rewrite Hl. lia. Qed.

Lemma total_size_bounds (cs : list Certificate) :
  Forall fits cs ->
  0 <= total_size cs <= Z.of_nat (List.length cs) * CERT_MAX_SIZE h.
Proof.
  induction 1 as [| c cs [Hc _] _ IH]; simpl total_size; simpl List.length; lia.
Qed.

Lemma nth_middle_cert (pre : list Certificate) (c : Certificate) (post : list Certificate) :
  nth (List.length pre) (pre ++ c :: post) zero_Certificate = c.
Proof. induction pre as [| a pre IH]; simpl; [reflexivity | assumption]. Qed.

Lemma u32_succ_length (pre : list Certificate) (c : Certificate) (k : Z) :
  0 <= k -> Z.of_nat (List.length pre) + 1 + k < 2 ^ 32 ->
  u32 (Z.of_nat (List.length pre) + 1) = Z.of_nat (List.length (pre ++ [c])).
Proof.
  intros Hk Hb. rewrite length_app. simpl List.length. unfold u32.
  rewrite Z.mod_small; lia.
Qed.

(** The size loop adds up the sizes. *)
Lemma size_loop_total (cs pre : list Certificate) (acc : Z) :
  Forall fits cs ->
  Z.of_nat (List.length pre) + Z.of_nat (List.length cs) < 2 ^ 32 ->
  0 <= acc -> acc + total_size cs < 2 ^ 64 ->
  size_loop (List.length cs) (Z.of_nat (List.length pre)) (pre ++ cs) acc =
  acc + total_size cs.
Proof.
  intros HF. revert pre acc. induction HF as [| c cs [[Hc0 Hc1] Hc] HF IH];
    intros pre acc Hb Ha Ht.
  - simpl. lia.
  - pose proof (total_size_bounds cs HF) as Hts.
    simpl total_size in *. simpl List.length in Hb. simpl size_loop.
    rewrite Nat2Z.id, nth_middle_cert.
    rewrite (u32_succ_length pre c (Z.of_nat (List.length cs))) by lia.
    replace (pre ++ c :: cs)%list with ((pre ++ [c]) ++ cs)%list
      by (rewrite <- app_assoc; reflexivity).
    rewrite u64_small by lia.
    rewrite IH; [lia | rewrite length_app; simpl List.length; lia | lia | lia].
Qed.

Lemma firstn_app_exact (A : Type) (l r : list A) (n : nat) :
  List.length l = n -> firstn n (l ++ r) = l.
Proof.
  intro H. subst n. rewrite firstn_app, Nat.sub_diag, firstn_all. simpl.
  apply app_nil_r.
Qed.

Lemma skipn_app_exact (A : Type) (l r : list A) (n k : nat) :
  List.length l = n -> skipn (n + k) (l ++ r) = skipn k r.
Proof.
  intro H. subst n. rewrite skipn_app.
  replace (List.length l + k - List.length l)%nat with k by lia.
  rewrite skipn_all2 by lia. reflexivity.
Qed.

(** The copy loop lays the certificates end to end, from [off] on. *)
Lemma copy_loop_concat (cs pre : list Certificate) (dst : list byte) (off : Z) :
  Forall fits cs ->
  Z.of_nat (List.length pre) + Z.of_nat (List.length cs) < 2 ^ 32 ->
  0 <= off -> off + total_size cs < 2 ^ 64 ->
  (Z.to_nat (off + total_size cs) <= List.length dst)%nat ->
  copy_loop (List.length cs) (Z.of_nat (List.length pre)) (pre ++ cs) dst off =
  (firstn (Z.to_nat off) dst ++ List.concat (map cert_bytes cs)
   ++ skipn (Z.to_nat (off + total_size cs)) dst)%list.
Proof.
  intros HF. revert pre dst off.
  induction HF as [| c cs [[Hc0 Hc1] Hc] HF IH]; intros pre dst off Hb Ho Ht Hl.
  - simpl. rewrite Z.add_0_r. symmetry. apply firstn_skipn.
  - pose proof (total_size_bounds cs HF) as Hts.
    simpl total_size in *. simpl List.length in Hb. simpl copy_loop.
    rewrite Nat2Z.id, nth_middle_cert.
    rewrite (u32_succ_length pre c (Z.of_nat (List.length cs))) by lia.
    replace (pre ++ c :: cs)%list with ((pre ++ [c]) ++ cs)%list
      by (rewrite <- app_assoc; reflexivity).
    rewrite u64_small by lia.
    set (a := Z.to_nat off). set (b := Z.to_nat (size c)).
    assert (Hab : Z.to_nat (off + size c) = (a + b)%nat)
      by (unfold a, b; apply Z2Nat.inj_add; lia).
    assert (Habt : Z.to_nat (off + size c + total_size cs)
                   = (a + b + Z.to_nat (total_size cs))%nat)
      by (rewrite Z2Nat.inj_add, Hab; lia).
    assert (Hfull : Z.to_nat (off + (size c + total_size cs))
                    = (a + b + Z.to_nat (total_size cs))%nat)
      by (rewrite Z.add_assoc; exact Habt).
    assert (HA : List.length (firstn a dst) = a)
      by (apply firstn_length_le; lia).
    assert (HB : List.length (firstn b (data c)) = b)
      by (apply firstn_length_le; exact Hc).
    assert (Hd' : memcpy_at dst off (data c) (size c) =
                  ((firstn a dst ++ cert_bytes c) ++ skipn (a + b) dst)%list).
    { unfold memcpy_at, cert_bytes. fold a b. rewrite <- app_assoc. reflexivity. }
    assert (HAB : List.length (firstn a dst ++ cert_bytes c) = (a + b)%nat)
      by (unfold cert_bytes; fold b; rewrite length_app; lia).
    rewrite IH.
    + rewrite Hab, Habt, Hfull, Hd'.
      rewrite (firstn_app_exact _ _ _ (a + b)%nat HAB).
      rewrite (skipn_app_exact _ _ _ (a + b)%nat _ HAB).
      rewrite skipn_skipn.
      replace (Z.to_nat (total_size cs) + (a + b))%nat
        with (a + b + Z.to_nat (total_size cs))%nat by lia.
      simpl List.concat. simpl map. rewrite <- !app_assoc. reflexivity.
    + rewrite length_app. simpl List.length. lia.
    + lia.
    + lia.
    + rewrite Habt, Hd', length_app, HAB, length_skipn. lia.
Qed.

(** Size and content of the serialisation of an array of certificates
    into a fresh block of exactly the computed size. *)
Lemma serialise_array (cs : list Certificate) (fill : byte) :
  Forall fits cs ->
  Z.of_nat (List.length cs) < 2 ^ 32 ->
  CERT_MAX_SIZE h < 2 ^ 32 ->
  cs <> [] ->
  let chain := Some (mkCertificateChain (Z.of_nat (List.length cs)) (Some cs)) in
  certCalculateRawCertificateChainSize chain = total_size cs /\
  certCopyCertificateChainDataToMemoryBuffer
    (repeat fill (Z.to_nat (total_size cs))) chain = List.concat (map cert_bytes cs) /\
  Z.of_nat (List.length (List.concat (map cert_bytes cs))) = total_size cs.
Proof.
  intros HF Hn Hmax Hne chain.
  pose proof (total_size_bounds cs HF) as Hts.
  assert (Hcnt : (Z.of_nat (List.length cs) =? 0) = false).
  { apply Z.eqb_neq. destruct cs; [congruence | simpl; lia]. }
  assert (Hlt : total_size cs < 2 ^ 64) by nia.
  unfold chain, certCalculateRawCertificateChainSize,
    certCopyCertificateChainDataToMemoryBuffer. cbn [count certs].
  rewrite Hcnt, Nat2Z.id.
  pose proof (size_loop_total cs [] 0 HF) as Hs.
  pose proof (copy_loop_concat cs [] (repeat fill (Z.to_nat (total_size cs))) 0 HF) as Hc.
  simpl List.length in Hs, Hc. simpl app in Hs, Hc. simpl Z.of_nat in Hs, Hc.
  rewrite Z.add_0_l in *.
  rewrite Hs by lia.
  rewrite Hc by (rewrite ?repeat_length; lia).
  rewrite skipn_all2, app_nil_r by (rewrite repeat_length; lia).
  split; [lia |]. split; [reflexivity |].
  clear - HF. induction HF as [| c cs [[Hc0 _] Hc] HF IH]; [reflexivity |].
  simpl List.concat. simpl map. simpl total_size. rewrite length_app.
  unfold cert_bytes at 1. rewrite firstn_length_le by exact Hc. lia.
Qed.

End WithHeaders.

Lemma nx_headers_wf : headers_wf nx_headers.
Proof. constructor; simpl; lia. Qed.

Lemma nx_headers_min_max :
  CERT_MIN_SIZE nx_headers =
    layout_size (sizeof_SignatureBlockEcsda240 nx_headers)
      (sizeof_CertPublicKeyBlockEcsda240 nx_headers) /\
  CERT_MAX_SIZE nx_headers =
    layout_size (sizeof_SignatureBlockRsa4096 nx_headers)
      (sizeof_CertPublicKeyBlockRsa4096 nx_headers).
Proof. split; reflexivity. Qed.

(** C1: inside the size window, the returned type differs from
    [CertType_Invalid] exactly when the big-endian [sig_type] at offset 0
    is one of the six recognised values, the big-endian [pub_key_type]
    found after the signature block and the issuer is one of the three
    recognised values, and the end offset of the layout equals the
    length [S] handed to the function. *)
Theorem certGetCertificateType_valid_iff (h : Headers) (data : list byte) (S : Z) :
  headers_wf h ->
  CERT_MIN_SIZE h <= S <= CERT_MAX_SIZE h ->
  fst (certGetCertificateType h (Some data) S) <> CertType_Invalid <->
  In (be32_at data 0) (recognised_sig_types h) /\
  In (be32_at data (pub_key_type_offset h data)) (recognised_pub_key_types h) /\
  end_offset h data = S.
Proof.
  intros Hwf HS.
  rewrite (certGetCertificateType_layout h data S Hwf HS).
  rewrite <- recognised_sigb_In, <- recognised_pub_keyb_In, <- Z.eqb_eq.
  destruct (recognised_sigb h _), (recognised_pub_keyb h _), (_ =? S);
    cbn [andb]; split; try tauto; try (intros [? [? ?]]; discriminate).
  intros _. apply cert_type_of_valid.
Qed.

Lemma certGetCertificateType_valid_iff_witness :
  headers_wf nx_headers /\
  CERT_MIN_SIZE nx_headers <= 0x180 <= CERT_MAX_SIZE nx_headers /\
  (fst (certGetCertificateType nx_headers (Some sample_ecsda240_cert) 0x180)
     <> CertType_Invalid <->
   In (be32_at sample_ecsda240_cert 0) (recognised_sig_types nx_headers) /\
   In (be32_at sample_ecsda240_cert (pub_key_type_offset nx_headers sample_ecsda240_cert))
      (recognised_pub_key_types nx_headers) /\
   end_offset nx_headers sample_ecsda240_cert = 0x180).
Proof.
  split; [exact nx_headers_wf |].
  split; [simpl; lia |].
  apply (certGetCertificateType_valid_iff nx_headers sample_ecsda240_cert 0x180).
  - exact nx_headers_wf.
  - simpl; lia.
Defined.

Example sample_ecsda240_cert_type :
  certGetCertificateType nx_headers (Some sample_ecsda240_cert) 0x180 =
  (CertType_SigEcsda240_PubKeyEcsda240, [mkAccess 0 4; mkAccess 0xC0 4]).
Proof. vm_compute. reflexivity. Qed.

(** C6: the claim fails on the code.  For the 0x180-byte buffer
    [short_rsa4096_cert] the size check passes, the signature value
    0x10000 selects the 0x240-byte RSA-4096 block, and the function reads
    the four bytes of [pub_key_type] at offset 0x280: past the 0x180
    bytes of the buffer. *)
Theorem certGetCertificateType_reads_past_size :
  Z.of_nat (List.length short_rsa4096_cert) = 0x180 /\
  (CERT_MIN_SIZE nx_headers <=? 0x180) && (0x180 <=? CERT_MAX_SIZE nx_headers) = true /\
  certGetCertificateType nx_headers (Some short_rsa4096_cert) 0x180 =
    (CertType_Invalid, [mkAccess 0 4; mkAccess 0x280 4]) /\
  forallb (withinb 0x180)
    (snd (certGetCertificateType nx_headers (Some short_rsa4096_cert) 0x180)) = false.
Proof. vm_compute. repeat split; reflexivity. Qed.

Example retrieve_sample :
  certRetrieveCertificateByName nx_headers nx_platform
    (Some (zero_Certificate nx_headers)) (Some "CA00000003"%string)
  = (true, Some sample_stored).
Proof. vm_compute. reflexivity. Qed.

Example tokens_sample :
  tokens "-" "CA00000003--XS00000020-"%string = ["CA00000003"; "XS00000020"]%string.
Proof. reflexivity. Qed.

(** *** Chain retrieval *)

Lemma prefix_nonempty (issuer : string) :
  prefix "Root-" issuer = true -> (String.length issuer =? 0)%nat = false.
Proof. destruct issuer; [discriminate | reflexivity]. Qed.

Lemma Forall2_retrieves_In (h : Headers) (p : Platform) (toks : list string)
  (cs : list Certificate) (tok : string) :
  Forall2 (retrieves h p) toks cs -> In tok toks ->
  fst (certRetrieveCertificateByName h p (Some (zero_Certificate h)) (Some tok)) = true.
Proof.
  induction 1 as [| t c toks cs Hr HF IH]; intros Hin; [contradiction |].
  destruct Hin as [-> | Hin]; [| auto].
  unfold retrieves in Hr. rewrite Hr. reflexivity.
Qed.

(** A successful call leaves a chain with one certificate per token of
    the copy, in the order of the tokens. *)
Lemma chain_success (h : Headers) (p : Platform) (d d' : CertificateChain)
  (issuer : string) :
  certRetrieveCertificateChainBySignatureIssuer h p (Some d) (Some issuer) = (true, Some d') ->
  let toks := tokens "-" (issuer_copy_of p issuer) in
  toks <> [] /\
  exists cs, d' = mkCertificateChain (Z.of_nat (List.length cs)) (Some cs) /\
             Forall2 (retrieves h p) toks cs.
Proof.
  intros H toks.
  destruct ((String.length issuer =? 0)%nat || negb (prefix "Root-" issuer)) eqn:Hchk.
  { unfold certRetrieveCertificateChainBySignatureIssuer in H. rewrite Hchk in H.
    discriminate. }
  rewrite (chain_of_copy h p d issuer Hchk) in H. cbv zeta in H. fold toks in H.
  pose proof (tokens_length "-" (issuer_copy_of p issuer)) as Hl.
  pose proof (truncate_length (format_noargs p (skip_parent issuer))) as Hc.
  fold (issuer_copy_of p issuer) in Hc. fold toks in Hl.
  destruct (Z.of_nat (List.length toks) =? 0) eqn:En; [discriminate |].
  destruct (negb (calloc_succeeds p _)); [discriminate |].
  destruct (retrieve_tokens h p toks 0 _) as [success arr] eqn:Er.
  destruct success; cbn [negb] in H; [| discriminate].
  apply (retrieve_tokens_success h p toks [] arr) in Er; [| simpl; lia].
  destruct Er as [cs [Ha HF]]. simpl in Ha. subst arr.
  split.
  - intro Hnil. rewrite Hnil in En. discriminate.
  - exists cs. split; [| assumption].
    inversion H; subst. rewrite (Forall2_length HF). reflexivity.
Qed.

(** C3 (as amended): for an issuer that begins with "Root-" and whose
    text after the prefix is at most 63 characters long and free of '%',
    a successful call returns a chain whose count is the number k >= 1
    of '-'-separated tokens of that text, and whose i-th certificate is
    the one retrieved for the i-th token, in order of appearance. *)
Theorem chain_follows_issuer_tokens (h : Headers) (p : Platform)
  (d d' : CertificateChain) (issuer : string) :
  prefix "Root-" issuer = true ->
  (String.length (skip_parent issuer) <= 63)%nat ->
  no_percent (skip_parent issuer) = true ->
  certRetrieveCertificateChainBySignatureIssuer h p (Some d) (Some issuer) = (true, Some d') ->
  let toks := tokens "-" (skip_parent issuer) in
  (1 <= List.length toks)%nat /\
  count d' = Z.of_nat (List.length toks) /\
  exists cs, certs d' = Some cs /\ Forall2 (retrieves h p) toks cs.
Proof.
  intros Hp Hl Hn H toks.
  destruct (chain_success h p d d' issuer H) as [Hne [cs [Hd HF]]].
  rewrite (issuer_copy_of_plain p issuer Hl Hn) in Hne, HF. fold toks in Hne, HF.
  split; [destruct toks; [congruence | simpl; lia] |].
  subst d'. cbn [count certs]. split.
  - rewrite (Forall2_length HF). reflexivity.
  - exists cs. split; [reflexivity | assumption].
Qed.

Lemma chain_follows_issuer_tokens_witness :
  prefix "Root-" "Root-CA00000003-XS00000020" = true /\
  (String.length (skip_parent "Root-CA00000003-XS00000020") <= 63)%nat /\
  no_percent (skip_parent "Root-CA00000003-XS00000020") = true /\
  certRetrieveCertificateChainBySignatureIssuer nx_headers nx_platform
    (Some zero_chain) (Some "Root-CA00000003-XS00000020"%string)
  = (true, Some (mkCertificateChain 2 (Some [sample_stored; sample_stored]))) /\
  ((1 <= List.length (tokens "-" (skip_parent "Root-CA00000003-XS00000020")))%nat /\
   count (mkCertificateChain 2 (Some [sample_stored; sample_stored])) =
   Z.of_nat (List.length (tokens "-" (skip_parent "Root-CA00000003-XS00000020"))) /\
   exists cs, certs (mkCertificateChain 2 (Some [sample_stored; sample_stored])) = Some cs /\
     Forall2 (retrieves nx_headers nx_platform)
       (tokens "-" (skip_parent "Root-CA00000003-XS00000020")) cs).
Proof.
  assert (Hcall : certRetrieveCertificateChainBySignatureIssuer nx_headers nx_platform
    (Some zero_chain) (Some "Root-CA00000003-XS00000020"%string)
    = (true, Some (mkCertificateChain 2 (Some [sample_stored; sample_stored]))))
    by (vm_compute; reflexivity).
  assert (Hlen : (String.length (skip_parent "Root-CA00000003-XS00000020") <= 63)%nat)
    by (apply Nat.leb_le; reflexivity).
  split; [reflexivity |]. split; [exact Hlen |]. split; [reflexivity |].
  split; [exact Hcall |].
  exact (chain_follows_issuer_tokens nx_headers nx_platform zero_chain _
           "Root-CA00000003-XS00000020" eq_refl Hlen eq_refl Hcall).
Defined.

(** C3 as stated fails: [long_issuer] begins with "Root-" and has two
    tokens after the prefix, the call succeeds, and the chain has one
    certificate: the copy the tokeniser works on stops after 63
    characters. *)
Lemma chain_count_of_long_issuer :
  prefix "Root-" long_issuer = true /\
  List.length (tokens "-" (skip_parent long_issuer)) = 2%nat /\
  exists c,
    certRetrieveCertificateChainBySignatureIssuer nx_headers long_platform
      (Some zero_chain) (Some long_issuer)
    = (true, Some (mkCertificateChain 1 (Some [c]))).
Proof.
  split; [reflexivity |]. split; [reflexivity |].
  exists sample_stored. vm_compute. reflexivity.
Qed.

(** The copy is made by [snprintf] with the issuer as its format: for
    the issuer "Root-CA%%03" the token of the issuer is "CA%%03", which
    names no certificate, and the chain holds the certificate of
    "CA%03". *)
Example chain_of_percent_issuer :
  tokens "-" (skip_parent "Root-CA%%03") = ["CA%%03"%string] /\
  fst (certRetrieveCertificateByName nx_headers percent_platform
         (Some (zero_Certificate nx_headers)) (Some "CA%%03"%string)) = false /\
  certRetrieveCertificateByName nx_headers percent_platform
    (Some (zero_Certificate nx_headers)) (Some "CA%03"%string) = (true, Some sample_stored) /\
  certRetrieveCertificateChainBySignatureIssuer nx_headers percent_platform
    (Some zero_chain) (Some "Root-CA%%03"%string)
  = (true, Some (mkCertificateChain 1 (Some [sample_stored]))).
Proof. vm_compute. repeat split; reflexivity. Qed.

(** C4: when [certGenerateRawCertificateChainBySignatureIssuer] returns
    a buffer, the chain it retrieved is a non-empty array [cs]; the value
    stored through [out_size] and the length of the buffer are the sum
    of the sizes of [cs], and the buffer is the concatenation of the
    certificates of [cs] in chain order. *)
Theorem raw_chain_is_concatenation (h : Headers) (p : Platform) (issuer : string)
  (o : Z) (raw : list byte) (out_size : option Z) :
  headers_wf h ->
  certGenerateRawCertificateChainBySignatureIssuer h p (Some issuer) (Some o)
  = (Some raw, out_size) ->
  exists cs,
    cs <> [] /\
    certRetrieveCertificateChainBySignatureIssuer h p (Some zero_chain) (Some issuer)
    = (true, Some (mkCertificateChain (Z.of_nat (List.length cs)) (Some cs))) /\
    out_size = Some (total_size cs) /\
    Z.of_nat (List.length raw) = total_size cs /\
    raw = List.concat (map cert_bytes cs).
Proof.
  intros Hwf H. unfold certGenerateRawCertificateChainBySignatureIssuer in H.
  destruct (String.length issuer =? 0)%nat; [discriminate |].
  fold zero_chain in H.
  destruct (certRetrieveCertificateChainBySignatureIssuer h p (Some zero_chain) (Some issuer))
    as [ok chain] eqn:Er.
  destruct ok; [| discriminate].
  assert (Hsome : exists d', chain = Some d').
  { unfold certRetrieveCertificateChainBySignatureIssuer in Er.
    destruct (_ || _); [discriminate |].
    destruct (_ =? 0); [discriminate |].
    destruct (negb (calloc_succeeds p _)); [discriminate |].
    destruct (retrieve_loop _ _ _ _ _ _) as [success arr].
    destruct (negb success); [discriminate |].
    inversion Er. eexists. reflexivity. }
  destruct Hsome as [d' ->].
  destruct (chain_success h p zero_chain d' issuer Er) as [Hne [cs [Hd HF]]].
  pose proof (tokens_length "-" (issuer_copy_of p issuer)) as Hl.
  pose proof (truncate_length (format_noargs p (skip_parent issuer))) as Hc.
  fold (issuer_copy_of p issuer) in Hc.
  pose proof (Forall2_length HF) as Hlen.
  assert (Hfits : Forall (fits h) cs).
  { clear - HF Hwf. induction HF as [| t c toks cs Hr HF IH]; constructor; [| assumption].
    apply cert_ok_fits; [apply Hwf | exact (retrieves_cert_ok h p t c Hr)]. }
  assert (Hcs : cs <> []).
  { intro Hnil. subst cs. destruct (tokens "-" (issuer_copy_of p issuer));
      [congruence | discriminate]. }
  subst d'.
  destruct (serialise_array h cs (malloc_fill p) Hfits ltac:(lia) (wf_max h Hwf) Hcs)
    as [Hsize [Hcopy Hraw]].
  rewrite Hsize in H.
  destruct (negb (malloc_succeeds p (total_size cs))); [discriminate |].
  rewrite Hcopy in H. inversion H; subst.
  exists cs. repeat split; assumption.
Qed.

Lemma raw_chain_is_concatenation_witness :
  headers_wf nx_headers /\
  certGenerateRawCertificateChainBySignatureIssuer nx_headers nx_platform
    (Some "Root-CA00000003-XS00000020"%string) (Some 0)
  = (Some (sample_ecsda240_cert ++ sample_ecsda240_cert)%list, Some 0x300) /\
  exists cs,
    cs <> [] /\
    certRetrieveCertificateChainBySignatureIssuer nx_headers nx_platform
      (Some zero_chain) (Some "Root-CA00000003-XS00000020"%string)
    = (true, Some (mkCertificateChain (Z.of_nat (List.length cs)) (Some cs))) /\
    Some 0x300 = Some (total_size cs) /\
    Z.of_nat (List.length (sample_ecsda240_cert ++ sample_ecsda240_cert)) = total_size cs /\
    (sample_ecsda240_cert ++ sample_ecsda240_cert)%list = List.concat (map cert_bytes cs).
Proof.
  assert (Hcall : certGenerateRawCertificateChainBySignatureIssuer nx_headers nx_platform
    (Some "Root-CA00000003-XS00000020"%string) (Some 0)
    = (Some (sample_ecsda240_cert ++ sample_ecsda240_cert)%list, Some 0x300))
    by (vm_compute; reflexivity).
  split; [exact nx_headers_wf |]. split; [exact Hcall |].
  exact (raw_chain_is_concatenation nx_headers nx_platform _ 0 _ _ nx_headers_wf Hcall).
Defined.

(** C8 (as amended): each of the three failure cases makes the call
    return false: an issuer that does not start with "Root-", an empty
    text after the prefix, and a token whose lookup fails.  The flag is
    all the caller gets. *)
Theorem chain_failures_return_false (h : Headers) (p : Platform)
  (d : CertificateChain) (issuer : string) :
  (prefix "Root-" issuer = false ->
   fst (certRetrieveCertificateChainBySignatureIssuer h p (Some d) (Some issuer)) = false) /\
  (prefix "Root-" issuer = true -> skip_parent issuer = EmptyString ->
   fst (certRetrieveCertificateChainBySignatureIssuer h p (Some d) (Some issuer)) = false) /\
  (prefix "Root-" issuer = true ->
   (exists tok, In tok (tokens "-" (issuer_copy_of p issuer)) /\
      fst (certRetrieveCertificateByName h p (Some (zero_Certificate h)) (Some tok)) = false) ->
   fst (certRetrieveCertificateChainBySignatureIssuer h p (Some d) (Some issuer)) = false).
Proof.
  split; [| split].
  - intro Hp. unfold certRetrieveCertificateChainBySignatureIssuer.
    rewrite Hp. rewrite orb_true_r. reflexivity.
  - intros Hp He.
    rewrite chain_of_copy by (rewrite Hp, (prefix_nonempty issuer Hp); reflexivity).
    unfold issuer_copy_of. rewrite He. reflexivity.
  - intros Hp [tok [Hin Hfail]].
    destruct (certRetrieveCertificateChainBySignatureIssuer h p (Some d) (Some issuer))
      as [ok r] eqn:E.
    destruct ok; [| reflexivity]. exfalso.
    assert (Hsome : exists d', r = Some d').
    { rewrite chain_of_copy in E
        by (rewrite Hp, (prefix_nonempty issuer Hp); reflexivity).
      cbv zeta in E.
      destruct (_ =? 0); [discriminate |].
      destruct (negb (calloc_succeeds p _)); [discriminate |].
      destruct (retrieve_tokens _ _ _ _ _) as [success arr].
      destruct (negb success); [discriminate |].
      inversion E. eexists. reflexivity. }
    destruct Hsome as [d' ->].
    destruct (chain_success h p d d' issuer E) as [_ [cs [_ HF]]].
    rewrite (Forall2_retrieves_In h p _ cs tok HF Hin) in Hfail. discriminate.
Qed.

Lemma chain_failures_return_false_witness :
  (prefix "Root-" "Boot-CA00000003" = false /\
   fst (certRetrieveCertificateChainBySignatureIssuer nx_headers nx_platform
          (Some zero_chain) (Some "Boot-CA00000003"%string)) = false) /\
  (prefix "Root-" "Root-" = true /\ skip_parent "Root-" = EmptyString /\
   fst (certRetrieveCertificateChainBySignatureIssuer nx_headers nx_platform
          (Some zero_chain) (Some "Root-"%string)) = false) /\
  (prefix "Root-" "Root-CA00000003-XS00000099" = true /\
   In "XS00000099"%string
      (tokens "-" (issuer_copy_of nx_platform "Root-CA00000003-XS00000099")) /\
   fst (certRetrieveCertificateByName nx_headers nx_platform
          (Some (zero_Certificate nx_headers)) (Some "XS00000099"%string)) = false /\
   fst (certRetrieveCertificateChainBySignatureIssuer nx_headers nx_platform
          (Some zero_chain) (Some "Root-CA00000003-XS00000099"%string)) = false).
Proof.
  assert (Hin : In "XS00000099"%string
    (tokens "-" (issuer_copy_of nx_platform "Root-CA00000003-XS00000099")))
    by (right; left; reflexivity).
  assert (Hfail : fst (certRetrieveCertificateByName nx_headers nx_platform
    (Some (zero_Certificate nx_headers)) (Some "XS00000099"%string)) = false)
    by (vm_compute; reflexivity).
  split; [| split].
  - split; [reflexivity |].
    exact (proj1 (chain_failures_return_false nx_headers nx_platform zero_chain
                    "Boot-CA00000003") eq_refl).
  - split; [reflexivity |]. split; [reflexivity |].
    exact (proj1 (proj2 (chain_failures_return_false nx_headers nx_platform zero_chain
                           "Root-")) eq_refl eq_refl).
  - split; [reflexivity |]. split; [exact Hin |]. split; [exact Hfail |].
    exact (proj2 (proj2 (chain_failures_return_false nx_headers nx_platform zero_chain
                           "Root-CA00000003-XS00000099")) eq_refl
             (ex_intro _ "XS00000099"%string (conj Hin Hfail))).
Defined.

(** C8 as stated fails: on a zero-initialised chain the three failure
    cases hand the caller the same flag and the same chain. *)
Lemma chain_failures_indistinguishable :
  certRetrieveCertificateChainBySignatureIssuer nx_headers nx_platform
    (Some zero_chain) (Some "Boot-CA00000003"%string) = (false, Some zero_chain) /\
  certRetrieveCertificateChainBySignatureIssuer nx_headers nx_platform
    (Some zero_chain) (Some "Root-"%string) = (false, Some zero_chain) /\
  certRetrieveCertificateChainBySignatureIssuer nx_headers nx_platform
    (Some zero_chain) (Some "Root-CA00000003-XS00000099"%string) = (false, Some zero_chain).
Proof. vm_compute. repeat split; reflexivity. Qed.

(** A failed call on a slot that held a valid certificate: the slot is
    not what it was. *)
Example failed_lookup_changes_dst :
  certRetrieveCertificateByName nx_headers malformed_platform
    (Some sample_stored) (Some "CA00000003"%string)
  = (false, Some (mkCertificate CertType_Invalid 0x180
                    (store_prefix (data sample_stored) short_rsa4096_cert))) /\
  CertType_eqb (type sample_stored) CertType_Invalid = false /\
  nth 3 (data sample_stored) x00 = byte_of_Z 2 /\
  nth 3 (store_prefix (data sample_stored) short_rsa4096_cert) x00 = byte_of_Z 0.
Proof. vm_compute. repeat split; reflexivity. Qed.

End CertTheory.

(** ** usb.c: session state and framing *)

Module UsbTheory.
Import Word WordTheory Usb.

Section WithHeaders.

Variable h : Headers.

Local Abbreviation usbSendCommand := (Usb.usbSendCommand h).
Local Abbreviation usbStartSession := (Usb.usbStartSession h).
Local Abbreviation usbSendFileProperties := (Usb.usbSendFileProperties h).
Local Abbreviation usbSendFileData := (Usb.usbSendFileData h).
Local Abbreviation usbDetectionThread_turn := (Usb.usbDetectionThread_turn h).
Local Abbreviation usbDetectionThreadFunc := (Usb.usbDetectionThreadFunc h).

(** *** What the transfer primitive leaves alone *)

Lemma same_session_refl (s : State) : same_session s s.
Proof. repeat split. Qed.

Lemma same_session_trans (s1 s2 s3 : State) :
  same_session s1 s2 -> same_session s2 s3 -> same_session s1 s3.
Proof.
  intros [A1 [A2 [A3 A4]]] [B1 [B2 [B3 B4]]].
  repeat split; congruence.
Qed.

(** Take a monadic term apart: unfold the combinators and split on
    every test and every intermediate result. *)
Ltac mbreak :=
  repeat (cbv beta iota zeta delta [bind ret get modify] in *;
          match goal with
          | |- context [match ?x with _ => _ end] =>
            lazymatch x with
            | context [match _ with _ => _ end] => fail
            | _ => destruct x eqn:?
            end
          end).

Lemma usbTransferData_frame (buf : option Buffer) (size : Z) (e : Direction) (s : State) :
  same_session s (snd (usbTransferData buf size e s)) /\
  io_trace (snd (usbTransferData buf size e s)) = io_trace s /\
  g_usbTransferBuffer (snd (usbTransferData buf size e s)) = g_usbTransferBuffer s.
Proof.
  unfold usbTransferData, usbIsHostAvailable, next_urb, same_session.
  mbreak; cbn; repeat split; solve [reflexivity | assumption | discriminate].
Qed.

Lemma usbTransferData_buffer (buf : option Buffer) (size : Z) (e : Direction) (s : State) :
  buf = None <-> snd (fst (usbTransferData buf size e s)) = None.
Proof.
  unfold usbTransferData, usbIsHostAvailable, next_urb.
  mbreak; cbn; split; intro; solve [reflexivity | assumption | discriminate].
Qed.

Lemma usbWrite_spec (buf : option Buffer) (size : Z) (s s' : State) (ok : bool) :
  usbWrite buf size s = (ok, s') ->
  same_session s s' /\
  io_trace s' = (io_trace s ++ [mkIo In_endpoint size ok])%list /\
  g_usbTransferBuffer s' = g_usbTransferBuffer s.
Proof.
  unfold usbWrite, log_io. intro H.
  pose proof (usbTransferData_frame buf size In_endpoint s) as [[F1 [F2 [F3 F4]]] [F5 F6]].
  unfold bind, modify, ret in H.
  destruct (usbTransferData buf size In_endpoint s) as [[ok' b] s1].
  cbn [snd] in *.
  destruct ok'; inversion H; subst; unfold same_session; cbn;
    (repeat split; [exact F1 | exact F2 | exact F3 | | rewrite F5; reflexivity | exact F6]);
    unfold comms_ready in *; cbn; exact F4.
Qed.

Lemma usbRead_transfer_buffer_spec (size : Z) (s s' : State) (ok : bool) :
  usbRead_transfer_buffer size s = (ok, s') ->
  same_session s s' /\
  io_trace s' = (io_trace s ++ [mkIo Out_endpoint size ok])%list.
Proof.
  unfold usbRead_transfer_buffer, usbRead, log_io. intro H.
  pose proof (usbTransferData_frame (g_usbTransferBuffer s) size Out_endpoint s)
    as [[F1 [F2 [F3 F4]]] [F5 F6]].
  pose proof (usbTransferData_buffer (g_usbTransferBuffer s) size Out_endpoint s) as Hb.
  unfold bind, modify, ret, get in H.
  destruct (usbTransferData (g_usbTransferBuffer s) size Out_endpoint s) as [[ok' b] s1].
  cbn [snd fst] in *. inversion H; subst. clear H.
  assert (Hs : match b with Some _ => true | None => false end =
               match g_usbTransferBuffer s1 with Some _ => true | None => false end).
  { rewrite F6. destruct Hb as [Hb1 Hb2].
    destruct b as [b |], (g_usbTransferBuffer s) as [b0 |]; try reflexivity.
    - discriminate (Hb1 eq_refl).
    - discriminate (Hb2 eq_refl). }
  unfold same_session. cbn.
  repeat split; [exact F1 | exact F2 | exact F3 | | rewrite F5; reflexivity].
  unfold comms_ready in *. cbn. rewrite Hs. exact F4.
Qed.

Lemma update_buffer_spec (f : Buffer -> Buffer) (s : State) :
  same_session s (snd (update_buffer f s)) /\
  io_trace (snd (update_buffer f s)) = io_trace s.
Proof.
  unfold update_buffer, modify, same_session, comms_ready. cbn.
  destruct (g_usbTransferBuffer s); repeat split.
Qed.

Lemma usbPrepareCommandHeader_spec (cmd size : Z) (s : State) :
  same_session s (snd (usbPrepareCommandHeader cmd size s)) /\
  io_trace (snd (usbPrepareCommandHeader cmd size s)) = io_trace s.
Proof.
  unfold usbPrepareCommandHeader. destruct (cmd >? UsbCommandType_EndSession).
  - split; [apply same_session_refl | reflexivity].
  - apply update_buffer_spec.
Qed.

(** With a transfer buffer the load of the command code is defined and
    the call goes on to the exchange; without one it faults. *)
Lemma usbSendCommand_with_buffer (cmd_size : Z) (s : State) (b : Buffer) :
  g_usbTransferBuffer s = Some b ->
  usbSendCommand cmd_size s = Usb.usbSendCommand_exchange h cmd_size s.
Proof. intro Hb. unfold Usb.usbSendCommand, bind, get. rewrite Hb. reflexivity. Qed.

Lemma usbSendCommand_without_buffer (cmd_size : Z) (s : State) :
  g_usbTransferBuffer s = None -> usbSendCommand cmd_size s = (no_status, s).
Proof. intro Hb. unfold Usb.usbSendCommand, bind, get. rewrite Hb. reflexivity. Qed.

(** A write that succeeds was given a block. *)
Lemma usbWrite_block (buf : option Buffer) (size : Z) (s s' : State) :
  usbWrite buf size s = (true, s') -> exists b, buf = Some b.
Proof.
  destruct buf as [b |]; [intros _; exists b; reflexivity |].
  unfold usbWrite, usbTransferData, log_io, bind, get, modify, ret. discriminate.
Qed.

(** Sending a command leaves the session triple alone. *)
Lemma usbSendCommand_frame (cmd_size : Z) (s s' : State) (status : Z) :
  usbSendCommand cmd_size s = (status, s') -> same_session s s'.
Proof.
  intro H. destruct (g_usbTransferBuffer s) as [b |] eqn:Hbuf.
  2:{ rewrite (usbSendCommand_without_buffer cmd_size s Hbuf) in H.
      inversion H; subst. apply same_session_refl. }
  rewrite (usbSendCommand_with_buffer cmd_size s b Hbuf) in H.
  unfold Usb.usbSendCommand_exchange in H.
  destruct ((cmd_size <? sizeof_UsbCommandHeader) || (cmd_size >? USB_TRANSFER_BUFFER_SIZE h)).
  { inversion H; subst. apply same_session_refl. }
  unfold bind, get, ret in H.
  destruct (usbWrite (g_usbTransferBuffer s) cmd_size s) as [written s1] eqn:Ew.
  apply usbWrite_spec in Ew. destruct Ew as [Fw _].
  destruct written; cbn [negb] in H; [| inversion H; subst; exact Fw].
  destruct (usbRead_transfer_buffer sizeof_UsbStatus s1) as [read s2] eqn:Er.
  apply usbRead_transfer_buffer_spec in Er. destruct Er as [Fr _].
  assert (F : same_session s s2) by (eapply same_session_trans; eassumption).
  destruct read; cbn [negb] in H; [| inversion H; subst; exact F].
  destruct (g_usbTransferBuffer s2); [| inversion H; subst; exact F].
  destruct (negb _); inversion H; subst; exact F.
Qed.

Lemma usbStartSession_frame (s s' : State) (started : bool) :
  usbStartSession s = (started, s') -> same_session s s'.
Proof.
  unfold usbStartSession. unfold bind, get, ret. intro H.
  destruct (negb (comms_ready s)); [inversion H; subst; apply same_session_refl |].
  pose proof (usbPrepareCommandHeader_spec UsbCommandType_StartSession
                sizeof_UsbCommandStartSession s) as [F1 _].
  destruct (usbPrepareCommandHeader _ _ s) as [[] s1]. cbn [snd] in F1.
  match type of H with
  | context [update_buffer ?f s1] =>
    pose proof (update_buffer_spec f s1) as [F2 _];
    destruct (update_buffer f s1) as [[] s2]
  end.
  cbn [snd] in F2.
  destruct (usbSendCommand _ s2) as [status s3] eqn:Ec.
  apply usbSendCommand_frame in Ec. inversion H; subst.
  eapply same_session_trans; [| exact Ec].
  eapply same_session_trans; eassumption.
Qed.

Lemma usbEndSession_frame (s : State) : same_session s (snd (usbEndSession s)).
Proof.
  unfold usbEndSession. unfold bind, get, ret.
  destruct (negb (comms_ready s) || negb (g_usbHostAvailable s)
            || negb (g_usbSessionStarted s)); [apply same_session_refl |].
  pose proof (usbPrepareCommandHeader_spec UsbCommandType_EndSession 0 s) as [F1 _].
  destruct (usbPrepareCommandHeader _ _ s) as [[] s1]. cbn [snd] in F1.
  destruct (usbWrite (g_usbTransferBuffer s1) sizeof_UsbCommandHeader s1) as [w s2] eqn:Ew.
  apply usbWrite_spec in Ew. destruct Ew as [Fw _]. cbn [snd].
  eapply same_session_trans; eassumption.
Qed.

(** *** Sending file data *)

Lemma usbSendFileData_end_spec (r : bool) (s : State) :
  usbSendFileData_end r s = (r, if r then s else set_remaining 0 s).
Proof. destruct r; reflexivity. Qed.

(** Every way through [usbSendFileData]: the host and session flags are
    left alone; a false result leaves nothing to transfer; a true result
    means the checks passed, the chunk was written, the remaining size
    went down by the chunk, and the status frame was read if and only if
    nothing remains. *)
Lemma usbSendFileData_cases (data : option Buffer) (n : Z) (s s' : State) (r : bool) :
  usbSendFileData data n s = (r, s') ->
  g_usbHostAvailable s' = g_usbHostAvailable s /\
  g_usbSessionStarted s' = g_usbSessionStarted s /\
  (r = false -> g_usbTransferRemainingSize s' = 0) /\
  (r = true ->
   g_usbHostAvailable s = true /\ g_usbSessionStarted s = true /\
   n <> 0 /\ n <= USB_TRANSFER_BUFFER_SIZE h /\ n <= g_usbTransferRemainingSize s /\
   g_usbTransferRemainingSize s' = u64 (g_usbTransferRemainingSize s - n) /\
   io_trace s' =
   (io_trace s ++
    mkIo In_endpoint n true ::
    (if g_usbTransferRemainingSize s' =? 0
     then [mkIo Out_endpoint sizeof_UsbStatus true] else []))%list).
Proof.
  unfold usbSendFileData. unfold bind at 1 2 3 4. unfold get. intro H.
  destruct data as [d |].
  2:{ rewrite usbSendFileData_end_spec in H. inversion H; subst. cbn.
      repeat split; intros; solve [reflexivity | discriminate | congruence]. }
  destruct (negb (comms_ready s) || negb (g_usbHostAvailable s)
            || negb (g_usbSessionStarted s) || (g_usbTransferRemainingSize s =? 0)
            || (n =? 0) || (n >? USB_TRANSFER_BUFFER_SIZE h)
            || (n >? g_usbTransferRemainingSize s)) eqn:Hg.
  { rewrite usbSendFileData_end_spec in H. inversion H; subst. cbn.
    repeat split; intros; solve [reflexivity | discriminate | congruence]. }
  repeat (apply orb_false_elim in Hg; destruct Hg as [Hg ?]).
  apply negb_false_iff in Hg.
  repeat match goal with
         | Hx : negb _ = false |- _ => apply negb_false_iff in Hx
         | Hx : (_ =? _) = false |- _ => apply Z.eqb_neq in Hx
         | Hx : (_ >? _) = false |- _ => rewrite Z.gtb_ltb in Hx; apply Z.ltb_ge in Hx
         end.
  unfold bind at 1 in H.
  match type of H with
  | context [(if ?c then ?a else ?b) s] =>
    assert (Hpre : same_session s (snd ((if c then a else b) s)) /\
                   io_trace (snd ((if c then a else b) s)) = io_trace s);
    [ destruct c;
      [ split; [apply same_session_refl | reflexivity]
      | unfold bind, get;
        match goal with
        | |- context [update_buffer ?f s] =>
          pose proof (update_buffer_spec f s) as Hu;
          destruct (update_buffer f s) as [[] su]; exact Hu
        end ]
    | destruct ((if c then a else b) s) as [buf s0] ]
  end.
  cbn [snd] in Hpre. destruct Hpre as [[P1 [P2 [P3 P4]]] P5].
  unfold bind at 1 in H.
  destruct (usbWrite buf n s0) as [written s1] eqn:Ew.
  apply usbWrite_spec in Ew. destruct Ew as [[W1 [W2 [W3 W4]]] [W5 _]].
  destruct written; cbn [negb] in H.
  2:{ rewrite usbSendFileData_end_spec in H. inversion H; subst. cbn.
      repeat split; intros; try solve [reflexivity | discriminate | congruence]. }
  unfold bind at 1 in H. unfold modify at 1 in H. unfold bind at 1 in H. unfold get in H.
  cbn [g_usbTransferRemainingSize set_remaining] in H.
  set (left := u64 (g_usbTransferRemainingSize s1 - n)) in *.
  assert (Hleft : left = u64 (g_usbTransferRemainingSize s - n))
    by (unfold left; congruence).
  destruct (left =? 0) eqn:Hz.
  - unfold bind at 1 in H.
    destruct (usbRead_transfer_buffer sizeof_UsbStatus (set_remaining left s1))
      as [read s2] eqn:Er.
    apply usbRead_transfer_buffer_spec in Er. destruct Er as [[R1 [R2 [R3 R4]]] R5].
    cbn in R1, R2, R3, R5.
    assert (Hfalse : forall s'', (false, set_remaining 0 s2) = (r, s'') ->
      g_usbHostAvailable s'' = g_usbHostAvailable s /\
      g_usbSessionStarted s'' = g_usbSessionStarted s /\
      (r = false -> g_usbTransferRemainingSize s'' = 0) /\
      (r = true -> g_usbHostAvailable s = true /\ g_usbSessionStarted s = true /\
         n <> 0 /\ n <= USB_TRANSFER_BUFFER_SIZE h /\ n <= g_usbTransferRemainingSize s /\
         g_usbTransferRemainingSize s'' = u64 (g_usbTransferRemainingSize s - n) /\
         io_trace s'' =
         (io_trace s ++ mkIo In_endpoint n true ::
          (if g_usbTransferRemainingSize s'' =? 0
           then [mkIo Out_endpoint sizeof_UsbStatus true] else []))%list)).
    { intros s'' Hx. inversion Hx; subst. cbn. repeat split; intros; try solve [reflexivity | discriminate | congruence]. }
    destruct read; cbn [negb] in H.
    2:{ rewrite usbSendFileData_end_spec in H. exact (Hfalse _ H). }
    unfold bind at 1 in H. unfold get in H.
    destruct (g_usbTransferBuffer s2) as [cmd_status |].
    2:{ rewrite usbSendFileData_end_spec in H. exact (Hfalse _ H). }
    destruct (negb (UsbStatus_magic cmd_status =? bswap32 USB_CMD_HEADER_MAGIC)).
    { rewrite usbSendFileData_end_spec in H. exact (Hfalse _ H). }
    rewrite usbSendFileData_end_spec in H.
    destruct (UsbStatus_status cmd_status =? UsbStatusType_Success).
    2:{ exact (Hfalse _ H). }
    inversion H; subst.
    repeat split; intros; try solve [reflexivity | discriminate | congruence].
    rewrite R3, Hz, R5. cbn. rewrite W5, P5, <- app_assoc. reflexivity.
  - rewrite usbSendFileData_end_spec in H. inversion H; subst.
    cbn. repeat split; intros; try solve [reflexivity | discriminate | congruence].
    fold left. rewrite Hz, W5, P5. reflexivity.
Qed.

(** *** Sending a command *)

(** The magic check of the code, on the word the target loads, is the
    check of the wire format: the first four bytes of the frame, read
    big-endian, are "NXDT". *)
Lemma magic_check_wire (b : Buffer) :
  (UsbStatus_magic b =? bswap32 USB_CMD_HEADER_MAGIC) = true <->
  wire_magic (window b 0 (Z.to_nat sizeof_UsbStatus)) = USB_CMD_HEADER_MAGIC.
Proof.
  unfold UsbStatus_magic, wire_magic. rewrite Z.eqb_eq.
  set (w := window b 0 (Z.to_nat sizeof_UsbStatus)). split; intro H.
  - rewrite <- bswap32_memcpy_u32, H. reflexivity.
  - rewrite <- bswap32_be32_at, H. reflexivity.
Qed.

Lemma usbSendCommand_wrong_magic (cmd_size : Z) (s s1 s2 : State) (reply : Buffer) :
  sizeof_UsbCommandHeader <= cmd_size <= USB_TRANSFER_BUFFER_SIZE h ->
  usbWrite (g_usbTransferBuffer s) cmd_size s = (true, s1) ->
  usbRead_transfer_buffer sizeof_UsbStatus s1 = (true, s2) ->
  g_usbTransferBuffer s2 = Some reply ->
  wire_magic (window reply 0 (Z.to_nat sizeof_UsbStatus)) <> USB_CMD_HEADER_MAGIC ->
  usbSendCommand cmd_size s = (UsbStatusType_InvalidMagicWord, s2).
Proof.
  intros [Hlo Hhi] Hw Hr Hb Hm.
  destruct (usbWrite_block _ _ _ _ Hw) as [b0 Hb0].
  rewrite (usbSendCommand_with_buffer cmd_size s b0 Hb0).
  unfold Usb.usbSendCommand_exchange.
  replace (cmd_size <? sizeof_UsbCommandHeader) with false by (symmetry; apply Z.ltb_ge; lia).
  replace (cmd_size >? USB_TRANSFER_BUFFER_SIZE h) with false
    by (symmetry; rewrite Z.gtb_ltb; apply Z.ltb_ge; lia).
  cbn [orb]. unfold bind, get, ret. rewrite Hw. cbn [negb]. rewrite Hr. cbn [negb].
  rewrite Hb.
  destruct (UsbStatus_magic reply =? bswap32 USB_CMD_HEADER_MAGIC) eqn:E; [| reflexivity].
  apply magic_check_wire in E. contradiction.
Qed.

Lemma usbSendFileProperties_prepare_frame (file_size : Z) (filename : option string)
  (s : State) :
  same_session s (snd (usbSendFileProperties_prepare file_size filename s)).
Proof.
  unfold usbSendFileProperties_prepare. unfold bind.
  pose proof (usbPrepareCommandHeader_spec UsbCommandType_SendFileProperties
                (u32 sizeof_UsbCommandSendFileProperties) s) as [F1 _].
  destruct (usbPrepareCommandHeader _ _ s) as [[] s1]. cbn [snd] in F1.
  match goal with
  | |- context [update_buffer ?f s1] => pose proof (update_buffer_spec f s1) as [F2 _]
  end.
  eapply same_session_trans; eassumption.
Qed.

(** [usbSendFileProperties] past its parameter check, told over the
    status that [usbSendCommand] returns. *)
Lemma usbSendFileProperties_status (file_size : Z) (filename : option string)
  (s s1 : State) (status : Z) :
  usbSendFileProperties_refused filename s = false ->
  usbSendCommand SendFileProperties_cmd_size
    (snd (usbSendFileProperties_prepare file_size filename s)) = (status, s1) ->
  usbSendFileProperties file_size filename s =
  if status =? UsbStatusType_Success then (true, set_remaining file_size s1)
  else (false, s1).
Proof.
  intros Hg Hc. unfold usbSendFileProperties. unfold bind at 1. unfold get at 1.
  rewrite Hg. unfold bind at 1.
  destruct (usbSendFileProperties_prepare file_size filename s) as [[] s0].
  cbn [snd] in Hc. unfold bind at 1. rewrite Hc.
  destruct (status =? UsbStatusType_Success); reflexivity.
Qed.

(** Every way through [usbSendFileProperties]. *)
Lemma usbSendFileProperties_cases (file_size : Z) (filename : option string)
  (s s' : State) (r : bool) :
  usbSendFileProperties file_size filename s = (r, s') ->
  g_usbHostAvailable s' = g_usbHostAvailable s /\
  g_usbSessionStarted s' = g_usbSessionStarted s /\
  (r = false -> g_usbTransferRemainingSize s' = g_usbTransferRemainingSize s) /\
  (r = true -> g_usbHostAvailable s = true /\ g_usbSessionStarted s = true /\
               g_usbTransferRemainingSize s' = file_size).
Proof.
  intro H.
  destruct (usbSendFileProperties_refused filename s) eqn:Hg.
  { unfold usbSendFileProperties in H. unfold bind at 1 in H. unfold get at 1 in H.
    rewrite Hg in H. inversion H; subst.
    repeat split; intros; solve [reflexivity | discriminate]. }
  pose proof (usbSendFileProperties_prepare_frame file_size filename s) as Fp.
  destruct (usbSendCommand SendFileProperties_cmd_size
              (snd (usbSendFileProperties_prepare file_size filename s)))
    as [status s1] eqn:Ec.
  rewrite (usbSendFileProperties_status _ _ _ _ _ Hg Ec) in H.
  apply usbSendCommand_frame in Ec.
  destruct (same_session_trans _ _ _ Fp Ec) as [F1 [F2 [F3 _]]].
  unfold usbSendFileProperties_refused in Hg.
  repeat (apply orb_false_elim in Hg; destruct Hg as [Hg ?]).
  repeat match goal with
         | Hx : negb _ = false |- _ => apply negb_false_iff in Hx
         end.
  destruct (status =? UsbStatusType_Success); inversion H; subst; cbn;
    repeat split; intros; solve [assumption | discriminate | reflexivity].
Qed.

(** *** The detection thread *)

Lemma usbDetectionThread_exit_spec (s : State) :
  g_usbHostAvailable (snd (usbDetectionThread_exit s)) = false /\
  g_usbSessionStarted (snd (usbDetectionThread_exit s)) = false /\
  g_usbTransferRemainingSize (snd (usbDetectionThread_exit s)) = 0.
Proof.
  unfold usbDetectionThread_exit. unfold bind, get, modify.
  destruct (g_usbHostAvailable s && g_usbSessionStarted s).
  - destruct (usbEndSession s) as [[] s1]. cbn. repeat split.
  - cbn. repeat split.
Qed.

(** After a turn of the loop either nothing happened (the wait failed)
    or nothing remains to transfer. *)
Lemma usbDetectionThread_turn_spec (wake : bool * Z) (s : State) :
  snd (usbDetectionThread_turn wake s) = s \/
  g_usbTransferRemainingSize (snd (usbDetectionThread_turn wake s)) = 0.
Proof.
  unfold usbDetectionThread_turn. destruct wake as [rc_ok idx].
  destruct rc_ok; cbn [negb]; [| left; reflexivity]. right.
  destruct (idx =? 2).
  { unfold bind, ret. pose proof (usbDetectionThread_exit_spec s) as [_ [_ Hx]].
    destruct (usbDetectionThread_exit s) as [[] s1]. exact Hx. }
  unfold bind at 1. destruct (usbIsHostAvailable s) as [available s0].
  unfold bind at 1 2 3. unfold modify at 1 2 3.
  destruct available; [| reflexivity].
  unfold bind at 1.
  match goal with
  | |- context [usbStartSession ?st] =>
    destruct (usbStartSession st) as [started s1] eqn:Es;
    apply usbStartSession_frame in Es; destruct Es as [_ [_ [E3 _]]]; cbn in E3
  end.
  unfold bind at 1 2. unfold modify at 1. unfold get.
  cbn [g_usbDetectionThreadExitFlag set_session].
  destruct (negb started && g_usbDetectionThreadExitFlag s1).
  - unfold bind, ret.
    pose proof (usbDetectionThread_exit_spec (set_session started s1)) as [_ [_ Hx]].
    destruct (usbDetectionThread_exit (set_session started s1)) as [[] s2]. exact Hx.
  - cbn. exact E3.
Qed.

End WithHeaders.

Lemma step_preserves_invariant (h : Headers) (s s' : State) :
  step h s s' -> session_invariant s -> session_invariant s'.
Proof.
  intros Hstep Hinv. destruct Hstep as [s states answers file_size filename
                                       | s states answers data data_size
                                       | s states answers wake].
  - destruct (usbSendFileProperties h file_size filename (with_platform states answers s))
      as [r s'] eqn:E.
    apply usbSendFileProperties_cases in E. destruct E as [E1 [E2 [E3 E4]]].
    cbn [snd]. cbn in E1, E2, E3, E4. unfold session_invariant in *.
    destruct r.
    + destruct (E4 eq_refl) as [Hh [Hs _]]. intros _. rewrite E1, E2. split; assumption.
    + rewrite (E3 eq_refl), E1, E2. exact Hinv.
  - destruct (usbSendFileData h data data_size (with_platform states answers s))
      as [r s'] eqn:E.
    apply usbSendFileData_cases in E. destruct E as [E1 [E2 [E3 E4]]].
    cbn [snd]. cbn in E1, E2, E3, E4. unfold session_invariant in *.
    destruct r.
    + destruct (E4 eq_refl) as [Hh [Hs _]]. intros _. rewrite E1, E2. split; assumption.
    + rewrite (E3 eq_refl). lia.
  - destruct (usbDetectionThread_turn_spec h wake (with_platform states answers s))
      as [E | E].
    + rewrite E. unfold session_invariant in *. cbn. exact Hinv.
    + unfold session_invariant. rewrite E. lia.
Qed.

Example session_state_triple :
  (g_usbHostAvailable session_state, g_usbSessionStarted session_state,
   g_usbTransferRemainingSize session_state) = (true, true, 0).
Proof. vm_compute. reflexivity. Qed.

Example file_state_triple :
  (g_usbHostAvailable file_state, g_usbSessionStarted file_state,
   g_usbTransferRemainingSize file_state) = (true, true, 0x2000).
Proof. vm_compute. reflexivity. Qed.

(** Two chunks of 0x1000 bytes: the first leaves 0x1000, the second
    leaves nothing and reads the status frame. *)
Example two_chunks :
  let s1 := snd (usbSendFileData nx_usb_headers (Some (zero_buffer 0x20000)) 0x1000
                   (with_platform [(true, 5)] [urb_done 0x1000 []] file_state)) in
  let r2 := usbSendFileData nx_usb_headers (Some (zero_buffer 0x20000)) 0x1000
              (with_platform [(true, 5); (true, 5)]
                 [urb_done 0x1000 []; urb_done 16 ack] s1) in
  g_usbTransferRemainingSize s1 = 0x1000 /\
  fst r2 = true /\ g_usbTransferRemainingSize (snd r2) = 0 /\
  skipn 4 (io_trace (snd r2)) =
  [mkIo In_endpoint 0x1000 true; mkIo In_endpoint 0x1000 true; mkIo Out_endpoint 16 true].
Proof. vm_compute. repeat split; reflexivity. Qed.

(** C2: a call of [usbSendFileData] that returns true, with a chunk
    size 0 < n <= min(remaining, USB_TRANSFER_BUFFER_SIZE) while a
    session is active, lowers the remaining size by exactly n (so it
    does not grow), and the calls it makes are the write of the chunk
    followed by the read of one 16-byte status frame exactly when
    nothing remains, and by nothing otherwise. *)
Theorem usbSendFileData_decrements (h : Headers) (data : option Buffer) (n : Z) (s : State) :
  g_usbHostAvailable s = true -> g_usbSessionStarted s = true ->
  0 < n <= Z.min (g_usbTransferRemainingSize s) (USB_TRANSFER_BUFFER_SIZE h) ->
  g_usbTransferRemainingSize s < 2 ^ 64 ->
  fst (usbSendFileData h data n s) = true ->
  let s' := snd (usbSendFileData h data n s) in
  g_usbTransferRemainingSize s' = g_usbTransferRemainingSize s - n /\
  g_usbTransferRemainingSize s' <= g_usbTransferRemainingSize s /\
  io_trace s' =
  (io_trace s ++
   mkIo In_endpoint n true ::
   (if g_usbTransferRemainingSize s' =? 0
    then [mkIo Out_endpoint 16 true] else []))%list.
Proof.
  intros _ _ Hn Hr Hok s'.
  destruct (usbSendFileData h data n s) as [r s1] eqn:E.
  cbn [fst] in Hok. subst r. subst s'. cbn [snd].
  apply usbSendFileData_cases in E.
  destruct E as [_ [_ [_ E]]]. destruct (E eq_refl) as [_ [_ [_ [_ [_ [Hd Ht]]]]]].
  rewrite u64_small in Hd by lia.
  split; [exact Hd |]. split; [lia |]. exact Ht.
Qed.

Lemma usbSendFileData_decrements_witness :
  g_usbHostAvailable file_state = true /\ g_usbSessionStarted file_state = true /\
  0 < 0x1000 <= Z.min (g_usbTransferRemainingSize file_state)
                  (USB_TRANSFER_BUFFER_SIZE nx_usb_headers) /\
  g_usbTransferRemainingSize file_state < 2 ^ 64 /\
  fst (usbSendFileData nx_usb_headers (Some (zero_buffer 0x20000)) 0x1000
         (with_platform [(true, 5)] [urb_done 0x1000 []] file_state)) = true /\
  g_usbTransferRemainingSize
    (snd (usbSendFileData nx_usb_headers (Some (zero_buffer 0x20000)) 0x1000
            (with_platform [(true, 5)] [urb_done 0x1000 []] file_state)))
  = 0x2000 - 0x1000.
Proof.
  assert (Hh : g_usbHostAvailable file_state = true) by (vm_compute; reflexivity).
  assert (Hs : g_usbSessionStarted file_state = true) by (vm_compute; reflexivity).
  assert (Hr : g_usbTransferRemainingSize file_state = 0x2000) by (vm_compute; reflexivity).
  assert (Hn : 0 < 0x1000 <= Z.min (g_usbTransferRemainingSize file_state)
                               (USB_TRANSFER_BUFFER_SIZE nx_usb_headers))
    by (rewrite Hr; simpl; lia).
  assert (Hb : g_usbTransferRemainingSize file_state < 2 ^ 64) by (rewrite Hr; lia).
  assert (Hok : fst (usbSendFileData nx_usb_headers (Some (zero_buffer 0x20000)) 0x1000
                       (with_platform [(true, 5)] [urb_done 0x1000 []] file_state)) = true)
    by (vm_compute; reflexivity).
  repeat (split; [assumption |]).
  rewrite <- Hr.
  exact (proj1 (usbSendFileData_decrements nx_usb_headers (Some (zero_buffer 0x20000)) 0x1000
                  (with_platform [(true, 5)] [urb_done 0x1000 []] file_state)
                  Hh Hs Hn Hb Hok)).
Defined.

(** C5: in every state reachable from the boot state by calls of
    [usbSendFileProperties] and [usbSendFileData] and turns of the
    detection loop, in any order and against any platform, a positive
    remaining size implies that the session is started and the host is
    available. *)
Theorem reachable_session_invariant (h : Headers) (s : State) :
  reachable h s -> session_invariant s.
Proof.
  induction 1 as [s [_ [_ Hb]] | s s' _ IH Hstep].
  - unfold session_invariant. rewrite Hb. lia.
  - exact (step_preserves_invariant h s s' Hstep IH).
Qed.

Lemma file_state_reachable : reachable nx_usb_headers file_state.
Proof.
  apply (reachable_step nx_usb_headers session_state).
  - apply (reachable_step nx_usb_headers initialized_state).
    + apply reachable_boot. repeat split.
    + exact (step_detection nx_usb_headers initialized_state
               [(true, 5); (true, 5); (true, 5)] [urb_done 32 []; urb_done 16 ack] (true, 0)).
  - exact (step_send_file_properties nx_usb_headers session_state
             [(true, 5); (true, 5)] [urb_done 0x330 []; urb_done 16 ack]
             0x2000 (Some "dump.bin"%string)).
Qed.

Lemma reachable_session_invariant_witness :
  reachable nx_usb_headers file_state /\
  g_usbTransferRemainingSize file_state = 0x2000 /\
  session_invariant file_state.
Proof.
  split; [exact file_state_reachable |].
  split; [vm_compute; reflexivity |].
  exact (reachable_session_invariant nx_usb_headers file_state file_state_reachable).
Defined.

(** C7: when the command was written and a 16-byte reply was read whose
    magic field, read big-endian, is not "NXDT" (0x4E584454),
    [usbSendCommand] yields [UsbStatusType_InvalidMagicWord]; and when
    [usbSendFileProperties], past its parameter check, gets any status
    other than [UsbStatusType_Success] from [usbSendCommand], it returns
    false and the remaining size is what it was before the call. *)
Theorem usbSendCommand_invalid_magic (h : Headers) :
  (forall (cmd_size : Z) (s s1 s2 : State) (reply : Buffer),
     sizeof_UsbCommandHeader <= cmd_size <= USB_TRANSFER_BUFFER_SIZE h ->
     usbWrite (g_usbTransferBuffer s) cmd_size s = (true, s1) ->
     usbRead_transfer_buffer sizeof_UsbStatus s1 = (true, s2) ->
     g_usbTransferBuffer s2 = Some reply ->
     wire_magic (window reply 0 16) <> USB_CMD_HEADER_MAGIC ->
     usbSendCommand h cmd_size s = (UsbStatusType_InvalidMagicWord, s2)) /\
  (forall (file_size : Z) (filename : option string) (s s1 : State) (status : Z),
     usbSendFileProperties_refused filename s = false ->
     usbSendCommand h SendFileProperties_cmd_size
       (snd (usbSendFileProperties_prepare file_size filename s)) = (status, s1) ->
     status <> UsbStatusType_Success ->
     usbSendFileProperties h file_size filename s = (false, s1) /\
     g_usbTransferRemainingSize s1 = g_usbTransferRemainingSize s).
Proof.
  split.
  - intros cmd_size s s1 s2 reply. exact (usbSendCommand_wrong_magic h cmd_size s s1 s2 reply).
  - intros file_size filename s s1 status Hg Hc Hs.
    rewrite (usbSendFileProperties_status h _ _ _ _ _ Hg Hc).
    apply Z.eqb_neq in Hs. rewrite Hs. split; [reflexivity |].
    apply usbSendCommand_frame in Hc.
    destruct (same_session_trans _ _ _
                (usbSendFileProperties_prepare_frame file_size filename s) Hc)
      as [_ [_ [F3 _]]].
    exact F3.
Qed.

Lemma bad_command_written :
  fst (usbWrite (g_usbTransferBuffer bad_prepared) SendFileProperties_cmd_size bad_prepared)
  = true.
Proof. vm_compute. reflexivity. Qed.

Lemma bad_reply_read :
  fst (usbRead_transfer_buffer sizeof_UsbStatus bad_written) = true.
Proof. vm_compute. reflexivity. Qed.

Lemma bad_reply_magic :
  option_map (fun reply => wire_magic (window reply 0 16)) (g_usbTransferBuffer bad_read)
  = Some 0x4E584455.
Proof. vm_compute. reflexivity. Qed.

Lemma bad_host_not_refused :
  usbSendFileProperties_refused (Some "dump.bin"%string) (bad_host session_state) = false.
Proof. vm_compute. reflexivity. Qed.

Lemma usbSendCommand_invalid_magic_witness :
  usbSendCommand nx_usb_headers SendFileProperties_cmd_size bad_prepared
  = (UsbStatusType_InvalidMagicWord, bad_read) /\
  usbSendFileProperties nx_usb_headers 0x2000 (Some "dump.bin"%string)
    (bad_host session_state) = (false, bad_read) /\
  g_usbTransferRemainingSize bad_read = g_usbTransferRemainingSize (bad_host session_state).
Proof.
  pose proof bad_reply_magic as Hm.
  destruct (g_usbTransferBuffer bad_read) as [reply |] eqn:Hb; [| discriminate Hm].
  assert (Hne : wire_magic (window reply 0 16) <> USB_CMD_HEADER_MAGIC).
  { cbn [option_map] in Hm. injection Hm as Hm. rewrite Hm. discriminate. }
  assert (Hw : usbWrite (g_usbTransferBuffer bad_prepared) SendFileProperties_cmd_size
                 bad_prepared = (true, bad_written)).
  { rewrite <- bad_command_written. unfold bad_written. apply surjective_pairing. }
  assert (Hr : usbRead_transfer_buffer sizeof_UsbStatus bad_written = (true, bad_read)).
  { rewrite <- bad_reply_read. unfold bad_read. apply surjective_pairing. }
  assert (Hc : usbSendCommand nx_usb_headers SendFileProperties_cmd_size bad_prepared
               = (UsbStatusType_InvalidMagicWord, bad_read)).
  { apply (proj1 (usbSendCommand_invalid_magic nx_usb_headers)
             SendFileProperties_cmd_size bad_prepared bad_written bad_read reply).
    - split; discriminate.
    - exact Hw.
    - exact Hr.
    - exact Hb.
    - exact Hne. }
  split; [exact Hc |].
  exact (proj2 (usbSendCommand_invalid_magic nx_usb_headers) 0x2000
           (Some "dump.bin"%string) (bad_host session_state) bad_read
           UsbStatusType_InvalidMagicWord bad_host_not_refused Hc ltac:(discriminate)).
Defined.

(** C9: after every call of [usbSendFileData] that returns false,
    whatever made it fail, the remaining size is 0. *)
Theorem usbSendFileData_failure_resets (h : Headers) (data : option Buffer) (n : Z)
  (s : State) :
  fst (usbSendFileData h data n s) = false ->
  g_usbTransferRemainingSize (snd (usbSendFileData h data n s)) = 0.
Proof.
  intro Hf. destruct (usbSendFileData h data n s) as [r s'] eqn:E.
  cbn [fst snd] in *. subst r.
  apply usbSendFileData_cases in E. destruct E as [_ [_ [E _]]]. exact (E eq_refl).
Qed.

Lemma usbSendFileData_failure_resets_witness :
  g_usbTransferRemainingSize streaming_state = 0x2000 /\
  fst (usbSendFileData nx_usb_headers None 0x1000 streaming_state) = false /\
  fst (usbSendFileData nx_usb_headers (Some (zero_buffer 0x20000)) 0 streaming_state) = false /\
  fst (usbSendFileData nx_usb_headers (Some (zero_buffer 0x20000)) 0x2001 streaming_state)
  = false /\
  g_usbTransferRemainingSize
    (snd (usbSendFileData nx_usb_headers None 0x1000 streaming_state)) = 0 /\
  g_usbTransferRemainingSize
    (snd (usbSendFileData nx_usb_headers (Some (zero_buffer 0x20000)) 0 streaming_state)) = 0 /\
  g_usbTransferRemainingSize
    (snd (usbSendFileData nx_usb_headers (Some (zero_buffer 0x20000)) 0x2001
            streaming_state)) = 0.
Proof.
  split; [reflexivity |].
  split; [reflexivity |]. split; [reflexivity |]. split; [reflexivity |].
  split; [| split].
  - exact (usbSendFileData_failure_resets nx_usb_headers None 0x1000 streaming_state eq_refl).
  - exact (usbSendFileData_failure_resets nx_usb_headers (Some (zero_buffer 0x20000)) 0
             streaming_state eq_refl).
  - exact (usbSendFileData_failure_resets nx_usb_headers (Some (zero_buffer 0x20000)) 0x2001
             streaming_state eq_refl).
Defined.

End UsbTheory.

(** ** cert.c: further laws *)

Module CertLaws.
Import Word WordTheory Cert CertTheory.

(** *** Type recovery *)

Lemma end_offset_sizeof (h : Headers) (data : list byte) :
  end_offset h data =
  sizeof_certificate h
    (cert_type_of h (be32_at data 0) (be32_at data (pub_key_type_offset h data))).
Proof.
  unfold end_offset, pub_key_type_offset, signature_block_size, public_key_block_size,
    cert_type_of, CERT_TYPE, layout_size.
  destruct (_ || _); [| destruct (_ || _)];
    (destruct (_ =? CertPubKeyType_Rsa4096 h);
     [| destruct (_ =? CertPubKeyType_Rsa2048 h)]); reflexivity.
Qed.

(** X1: a buffer that is given a valid type has exactly the size of the
    certificate struct of that type. *)
Theorem certGetCertificateType_size_of_type (h : Headers) (data : list byte) (S : Z) :
  headers_wf h ->
  CERT_MIN_SIZE h <= S <= CERT_MAX_SIZE h ->
  fst (certGetCertificateType h (Some data) S) <> CertType_Invalid ->
  S = sizeof_certificate h (fst (certGetCertificateType h (Some data) S)).
Proof.
  intros Hwf HS Hv.
  pose proof (certGetCertificateType_valid_layout h data S Hwf HS Hv) as Hb.
  rewrite (certGetCertificateType_layout h data S Hwf HS), Hb.
  apply andb_prop in Hb. destruct Hb as [_ He]. apply Z.eqb_eq in He.
  rewrite <- end_offset_sizeof. symmetry. exact He.
Qed.

Lemma certGetCertificateType_size_of_type_witness :
  headers_wf nx_headers /\
  CERT_MIN_SIZE nx_headers <= 0x400 <= CERT_MAX_SIZE nx_headers /\
  fst (certGetCertificateType nx_headers (Some sample_rsa_cert) 0x400)
  = CertType_SigRsa4096_PubKeyRsa2048 /\
  0x400 = sizeof_certificate nx_headers
            (fst (certGetCertificateType nx_headers (Some sample_rsa_cert) 0x400)).
Proof.
  assert (Ht : fst (certGetCertificateType nx_headers (Some sample_rsa_cert) 0x400)
               = CertType_SigRsa4096_PubKeyRsa2048) by (vm_compute; reflexivity).
  split; [exact nx_headers_wf |]. split; [simpl; lia |]. split; [exact Ht |].
  apply (certGetCertificateType_size_of_type nx_headers sample_rsa_cert 0x400).
  - exact nx_headers_wf.
  - simpl; lia.
  - rewrite Ht. discriminate.
Defined.

(** *** Lookup by name *)

Lemma load_u8_app (got tail : list byte) (i : Z) :
  0 <= i < Z.of_nat (List.length got) ->
  load_u8 (got ++ tail) i = load_u8 got i.
Proof.
  intros [H0 H1]. unfold load_u8.
  replace (i <? 0) with false by (symmetry; apply Z.ltb_ge; lia).
  rewrite app_nth1 by lia. reflexivity.
Qed.

Lemma be32_at_app (got tail : list byte) (off : Z) :
  0 <= off -> off + 4 <= Z.of_nat (List.length got) ->
  be32_at (got ++ tail) off = be32_at got off.
Proof.
  intros H0 H1. unfold be32_at. rewrite !load_u8_app by lia. reflexivity.
Qed.

(** Where the layout ends at [S], both fields lie inside [S]. *)
Lemma valid_layout_in_bounds (h : Headers) (data : list byte) (S : Z) :
  headers_wf h -> end_offset h data = S ->
  4 <= S /\ 0 <= pub_key_type_offset h data /\ pub_key_type_offset h data + 4 <= S.
Proof.
  intros Hwf He.
  pose proof (signature_block_size_range h (be32_at data 0) Hwf) as Hs.
  pose proof (public_key_block_size_range h
                (be32_at data (pub_key_type_offset h data)) Hwf) as Hp.
  unfold end_offset in He. unfold pub_key_type_offset in *.
  set (bs := signature_block_size h (be32_at data 0)) in *.
  set (bp := public_key_block_size h _) in *.
  unfold MEMBER_SIZE_issuer, MEMBER_SIZE_pub_key_type, MEMBER_SIZE_name,
    MEMBER_SIZE_cert_id in *.
  lia.
Qed.

(** The type of a buffer of [S] bytes does not depend on what follows
    the buffer in memory, as soon as it is valid for one continuation. *)
Lemma certGetCertificateType_continuation (h : Headers) (got t1 t2 : list byte) (S : Z) :
  headers_wf h ->
  CERT_MIN_SIZE h <= S <= CERT_MAX_SIZE h ->
  Z.of_nat (List.length got) = S ->
  fst (certGetCertificateType h (Some (got ++ t1)) S) <> CertType_Invalid ->
  fst (certGetCertificateType h (Some (got ++ t2)) S)
  = fst (certGetCertificateType h (Some (got ++ t1)) S).
Proof.
  intros Hwf HS Hlen Hv.
  pose proof (certGetCertificateType_valid_layout h (got ++ t1) S Hwf HS Hv) as Hb.
  rewrite (certGetCertificateType_layout h (got ++ t1) S Hwf HS).
  rewrite (certGetCertificateType_layout h (got ++ t2) S Hwf HS).
  assert (He : end_offset h (got ++ t1) = S).
  { apply andb_prop in Hb. destruct Hb as [_ He]. apply Z.eqb_eq in He. exact He. }
  destruct (valid_layout_in_bounds h (got ++ t1) S Hwf He) as [H4 [Ho0 Ho4]].
  assert (Hsig : be32_at (got ++ t2) 0 = be32_at (got ++ t1) 0)
    by (rewrite !be32_at_app by lia; reflexivity).
  assert (Hoff : pub_key_type_offset h (got ++ t2) = pub_key_type_offset h (got ++ t1))
    by (unfold pub_key_type_offset; rewrite Hsig; reflexivity).
  assert (Hpk : be32_at (got ++ t2) (pub_key_type_offset h (got ++ t2))
                = be32_at (got ++ t1) (pub_key_type_offset h (got ++ t1)))
    by (rewrite Hoff, !be32_at_app by lia; reflexivity).
  assert (Hend : end_offset h (got ++ t2) = end_offset h (got ++ t1))
    by (unfold end_offset; rewrite Hpk, Hoff; reflexivity).
  rewrite Hsig, Hpk, Hend. reflexivity.
Qed.

Lemma certGetCertificateType_continuation_eq (h : Headers) (got t1 t2 : list byte) (S : Z) :
  headers_wf h ->
  CERT_MIN_SIZE h <= S <= CERT_MAX_SIZE h ->
  Z.of_nat (List.length got) = S ->
  fst (certGetCertificateType h (Some (got ++ t2)) S)
  = fst (certGetCertificateType h (Some (got ++ t1)) S).
Proof.
  intros Hwf HS Hlen.
  destruct (CertType_eqb (fst (certGetCertificateType h (Some (got ++ t1)) S))
              CertType_Invalid) eqn:E1.
  - destruct (CertType_eqb (fst (certGetCertificateType h (Some (got ++ t2)) S))
                CertType_Invalid) eqn:E2.
    + apply CertType_eqb_eq in E1, E2. congruence.
    + symmetry. apply certGetCertificateType_continuation; try assumption.
      intro Hc. apply CertType_eqb_eq in Hc. congruence.
  - apply certGetCertificateType_continuation; try assumption.
    intro Hc. apply CertType_eqb_eq in Hc. congruence.
Qed.

(** *** What a failed lookup leaves behind *)

(** C10: once the save container is open, the entry is found and its
    size is inside the window, the call writes into [dst] before it
    validates anything.  When the read delivers another number of bytes
    than the size of the file, or when the bytes of the file have no
    valid type, the call returns false with [dst] written: its size is
    the size of the file, its data array begins with the bytes read and
    goes on as it did before; the tag is as it was after a short read
    and invalid after a failed type check. *)
Theorem certRetrieveCertificateByName_writes_before_validation
  (h : Headers) (p : Platform) (d : Certificate) (name : string) (f : SaveFile) :
  headers_wf h ->
  (String.length name =? 0)%nat = false ->
  save_open_savefile p CERT_SAVEFILE_PATH = true ->
  save_get_fat_storage_from_file_entry_by_path p
    (truncate (SAVE_FS_LIST_MAX_NAME_LENGTH h) (CERT_SAVEFILE_STORAGE_BASE_PATH ++ name))
  = Some f ->
  CERT_MIN_SIZE h <= file_size f <= CERT_MAX_SIZE h ->
  let got := file_read f (file_size f) in
  Z.of_nat (List.length got) <> file_size f \/
  fst (certGetCertificateType h (Some got) (file_size f)) = CertType_Invalid ->
  exists d',
    certRetrieveCertificateByName h p (Some d) (Some name) = (false, Some d') /\
    size d' = file_size f /\
    firstn (List.length got) (data d') = got /\
    skipn (List.length got) (data d') = skipn (List.length got) (data d) /\
    type d' = (if Z.of_nat (List.length got) =? file_size f
               then CertType_Invalid else type d).
Proof.
  intros Hwf Hn Ho Hf [Hlo Hhi] got Hfail.
  assert (Hfirst : forall tail : list byte, firstn (List.length got) (got ++ tail) = got)
    by (intro tail; apply firstn_app_exact; reflexivity).
  assert (Hskip : forall tail : list byte, skipn (List.length got) (got ++ tail) = tail)
    by (intro tail; rewrite skipn_app, skipn_all, Nat.sub_diag; reflexivity).
  unfold certRetrieveCertificateByName. rewrite Hn, Ho, Hf. cbn [negb].
  replace (file_size f <? CERT_MIN_SIZE h) with false by (symmetry; apply Z.ltb_ge; lia).
  replace (file_size f >? CERT_MAX_SIZE h) with false
    by (symmetry; rewrite Z.gtb_ltb; apply Z.ltb_ge; lia).
  cbn [orb size data type]. fold got. unfold store_prefix.
  destruct (Z.of_nat (List.length got) =? file_size f) eqn:Eb; cbn [negb].
  - apply Z.eqb_eq in Eb. destruct Hfail as [Hne | Ht]; [contradiction |].
    pose proof (certGetCertificateType_continuation_eq h got []
                  (skipn (List.length got) (data d)) (file_size f) Hwf (conj Hlo Hhi) Eb)
      as Hcont.
    rewrite app_nil_r, Ht in Hcont. rewrite Hcont. cbn [CertType_eqb].
    eexists. split; [reflexivity |]. cbn [size data type].
    repeat split; [apply Hfirst | apply Hskip].
  - eexists. split; [reflexivity |]. cbn [size data type].
    repeat split; [apply Hfirst | apply Hskip].
Qed.

Lemma certRetrieveCertificateByName_writes_before_validation_witness :
  (exists d',
     certRetrieveCertificateByName nx_headers short_read_platform
       (Some sample_stored) (Some "CA00000003"%string) = (false, Some d') /\
     size d' = 0x180 /\
     firstn 4 (data d') = bytes [0; 1; 0; 2] /\
     skipn 4 (data d') = skipn 4 (data sample_stored) /\
     type d' = type sample_stored) /\
  (exists d',
     certRetrieveCertificateByName nx_headers malformed_platform
       (Some sample_stored) (Some "CA00000003"%string) = (false, Some d') /\
     size d' = 0x180 /\
     firstn 0x180 (data d') = short_rsa4096_cert /\
     skipn 0x180 (data d') = skipn 0x180 (data sample_stored) /\
     type d' = CertType_Invalid).
Proof.
  split.
  - refine (certRetrieveCertificateByName_writes_before_validation
              nx_headers short_read_platform sample_stored
              "CA00000003" (mkSaveFile 0x180 (fun _ => bytes [0; 1; 0; 2]))
              nx_headers_wf eq_refl eq_refl eq_refl _ _).
    + simpl; lia.
    + left. vm_compute. discriminate.
  - refine (certRetrieveCertificateByName_writes_before_validation
              nx_headers malformed_platform sample_stored
              "CA00000003" (file_of short_rsa4096_cert)
              nx_headers_wf eq_refl eq_refl eq_refl _ _).
    + simpl; lia.
    + right. vm_compute. reflexivity.
Defined.

(** X2: what a lookup returns does not depend on what the slot held
    before: two slots give the same flag and, on success, certificates
    with the same type, the same size and the same bytes. *)
Theorem certRetrieveCertificateByName_ignores_old_content (h : Headers) (p : Platform)
  (d1 d2 : Certificate) (name : option string) :
  headers_wf h ->
  fst (certRetrieveCertificateByName h p (Some d1) name)
  = fst (certRetrieveCertificateByName h p (Some d2) name) /\
  (fst (certRetrieveCertificateByName h p (Some d1) name) = true ->
   exists c1 c2,
     snd (certRetrieveCertificateByName h p (Some d1) name) = Some c1 /\
     snd (certRetrieveCertificateByName h p (Some d2) name) = Some c2 /\
     type c1 = type c2 /\ size c1 = size c2 /\ cert_bytes c1 = cert_bytes c2).
Proof.
  intro Hwf. unfold certRetrieveCertificateByName.
  destruct name as [name |]; [| split; [reflexivity | discriminate]].
  destruct (String.length name =? 0)%nat; [split; [reflexivity | discriminate] |].
  destruct (negb (save_open_savefile p CERT_SAVEFILE_PATH));
    [split; [reflexivity | discriminate] |].
  destruct (save_get_fat_storage_from_file_entry_by_path p _) as [f |];
    [| split; [reflexivity | discriminate]].
  destruct ((file_size f <? CERT_MIN_SIZE h) || (file_size f >? CERT_MAX_SIZE h)) eqn:Er;
    [split; [reflexivity | discriminate] |].
  apply orb_false_elim in Er. destruct Er as [Hlo Hhi].
  apply Z.ltb_ge in Hlo. rewrite Z.gtb_ltb in Hhi. apply Z.ltb_ge in Hhi.
  cbn [size data type].
  destruct (Z.of_nat (List.length (file_read f (file_size f))) =? file_size f) eqn:Eb;
    cbn [negb]; [| split; [reflexivity | discriminate]].
  apply Z.eqb_eq in Eb.
  unfold store_prefix.
  rewrite (certGetCertificateType_continuation_eq h (file_read f (file_size f))
             (skipn (List.length (file_read f (file_size f))) (data d1))
             (skipn (List.length (file_read f (file_size f))) (data d2))
             (file_size f) Hwf (conj Hlo Hhi) Eb).
  remember (fst (certGetCertificateType h _ (file_size f))) as t eqn:Ht. clear Ht.
  destruct (CertType_eqb t CertType_Invalid); cbn [fst snd];
    [split; [reflexivity | discriminate] |].
  split; [reflexivity |]. intros _.
  eexists. eexists. split; [reflexivity |]. split; [reflexivity |].
  cbn [type size]. split; [reflexivity |]. split; [reflexivity |].
  assert (Hn : Z.to_nat (file_size f) = List.length (file_read f (file_size f))) by lia.
  unfold cert_bytes. cbn [size data].
  rewrite Hn, !firstn_app_exact by reflexivity. reflexivity.
Qed.

Lemma certRetrieveCertificateByName_ignores_old_content_witness :
  headers_wf nx_headers /\
  certRetrieveCertificateByName nx_headers mixed_platform
    (Some (zero_Certificate nx_headers)) (Some "CA00000003"%string)
  <> certRetrieveCertificateByName nx_headers mixed_platform
       (Some stale_Certificate) (Some "CA00000003"%string) /\
  fst (certRetrieveCertificateByName nx_headers mixed_platform
         (Some (zero_Certificate nx_headers)) (Some "CA00000003"%string)) = true /\
  fst (certRetrieveCertificateByName nx_headers mixed_platform
         (Some (zero_Certificate nx_headers)) (Some "CA00000003"%string))
  = fst (certRetrieveCertificateByName nx_headers mixed_platform
           (Some stale_Certificate) (Some "CA00000003"%string)).
Proof.
  split; [exact nx_headers_wf |].
  split; [vm_compute; discriminate |].
  split; [vm_compute; reflexivity |].
  exact (proj1 (certRetrieveCertificateByName_ignores_old_content nx_headers mixed_platform
                  (zero_Certificate nx_headers) stale_Certificate
                  (Some "CA00000003"%string) nx_headers_wf)).
Defined.

(** The size of a certificate that a lookup returns is the size of the
    struct of its type. *)
Lemma retrieved_sizeof (h : Headers) (p : Platform) (d c : Certificate) (name : string) :
  headers_wf h ->
  certRetrieveCertificateByName h p (Some d) (Some name) = (true, Some c) ->
  size c = sizeof_certificate h (type c).
Proof.
  intros Hwf H. unfold certRetrieveCertificateByName in H.
  destruct (String.length name =? 0)%nat; [discriminate |].
  destruct (negb (save_open_savefile p CERT_SAVEFILE_PATH)); [discriminate |].
  destruct (save_get_fat_storage_from_file_entry_by_path p _) as [f |]; [| discriminate].
  destruct ((file_size f <? CERT_MIN_SIZE h) || (file_size f >? CERT_MAX_SIZE h)) eqn:Er;
    [discriminate |].
  apply orb_false_elim in Er. destruct Er as [Hlo Hhi].
  apply Z.ltb_ge in Hlo. rewrite Z.gtb_ltb in Hhi. apply Z.ltb_ge in Hhi.
  cbn [size data type] in H.
  destruct (negb _); [discriminate |].
  set (buf := store_prefix (data d) (file_read f (file_size f))) in *.
  pose proof (certGetCertificateType_valid_layout h buf (file_size f) Hwf (conj Hlo Hhi))
    as Hvalid.
  pose proof (certGetCertificateType_layout h buf (file_size f) Hwf (conj Hlo Hhi)) as Hl.
  remember (fst (certGetCertificateType h (Some buf) (file_size f))) as t eqn:Ht.
  clear Ht.
  destruct (CertType_eqb t CertType_Invalid) eqn:Et; [discriminate |].
  assert (Hv : t <> CertType_Invalid)
    by (intro Hc; rewrite Hc in Et; discriminate).
  inversion H; subst c. clear H. cbn [size type].
  specialize (Hvalid Hv). rewrite Hvalid in Hl.
  apply andb_prop in Hvalid. destruct Hvalid as [_ He]. apply Z.eqb_eq in He.
  rewrite Hl, <- end_offset_sizeof. symmetry. exact He.
Qed.

(** X3: a certificate that a lookup returns is the file: its size is
    the size of the entry, its bytes are the bytes read, its type is the
    type of those bytes alone, and its size is the size of the struct of
    that type. *)
Theorem certRetrieveCertificateByName_certificate (h : Headers) (p : Platform)
  (d c : Certificate) (name : string) :
  headers_wf h ->
  certRetrieveCertificateByName h p (Some d) (Some name) = (true, Some c) ->
  exists f,
    save_get_fat_storage_from_file_entry_by_path p
      (truncate (SAVE_FS_LIST_MAX_NAME_LENGTH h) (CERT_SAVEFILE_STORAGE_BASE_PATH ++ name))
    = Some f /\
    size c = file_size f /\
    cert_bytes c = file_read f (file_size f) /\
    type c = fst (certGetCertificateType h (Some (cert_bytes c)) (size c)) /\
    type c <> CertType_Invalid /\
    size c = sizeof_certificate h (type c).
Proof.
  intros Hwf H. pose proof (retrieved_sizeof h p d c name Hwf H) as Hsize.
  unfold certRetrieveCertificateByName in H.
  destruct (String.length name =? 0)%nat; [discriminate |].
  destruct (negb (save_open_savefile p CERT_SAVEFILE_PATH)); [discriminate |].
  destruct (save_get_fat_storage_from_file_entry_by_path p _) as [f |]; [| discriminate].
  destruct ((file_size f <? CERT_MIN_SIZE h) || (file_size f >? CERT_MAX_SIZE h)) eqn:Er;
    [discriminate |].
  apply orb_false_elim in Er. destruct Er as [Hlo Hhi].
  apply Z.ltb_ge in Hlo. rewrite Z.gtb_ltb in Hhi. apply Z.ltb_ge in Hhi.
  cbn [size data type] in H.
  destruct (Z.of_nat (List.length (file_read f (file_size f))) =? file_size f) eqn:Eb;
    cbn [negb] in H; [| discriminate].
  apply Z.eqb_eq in Eb.
  set (got := file_read f (file_size f)) in *.
  pose proof (certGetCertificateType_continuation_eq h got
                (skipn (List.length got) (data d)) [] (file_size f) Hwf (conj Hlo Hhi) Eb)
    as Hcont.
  rewrite app_nil_r in Hcont.
  unfold store_prefix in *.
  remember (fst (certGetCertificateType h (Some (got ++ _)) (file_size f))) as t eqn:Ht.
  clear Ht.
  destruct (CertType_eqb t CertType_Invalid) eqn:Et; [discriminate |].
  assert (Hv : t <> CertType_Invalid)
    by (intro Hc; rewrite Hc in Et; discriminate).
  inversion H; subst c. clear H. cbn [size type] in Hsize.
  exists f. split; [reflexivity |]. cbn [size type].
  assert (Hbytes : cert_bytes (mkCertificate t (file_size f)
                     (got ++ skipn (List.length got) (data d))) = got).
  { assert (Hn : Z.to_nat (file_size f) = List.length got) by lia.
    unfold cert_bytes. cbn [size data].
    rewrite Hn. apply firstn_app_exact. reflexivity. }
  rewrite Hbytes.
  repeat split; try assumption.
  symmetry. exact Hcont.
Qed.

Lemma rsa_stored_retrieved :
  certRetrieveCertificateByName nx_headers mixed_platform
    (Some stale_Certificate) (Some "CA00000003"%string) = (true, Some rsa_stored).
Proof. vm_compute. reflexivity. Qed.

Lemma certRetrieveCertificateByName_certificate_witness :
  headers_wf nx_headers /\
  certRetrieveCertificateByName nx_headers mixed_platform
    (Some stale_Certificate) (Some "CA00000003"%string) = (true, Some rsa_stored) /\
  exists f,
    save_get_fat_storage_from_file_entry_by_path mixed_platform
      (truncate (SAVE_FS_LIST_MAX_NAME_LENGTH nx_headers)
         (CERT_SAVEFILE_STORAGE_BASE_PATH ++ "CA00000003"))
    = Some f /\
    size rsa_stored = file_size f /\
    cert_bytes rsa_stored = file_read f (file_size f) /\
    type rsa_stored
    = fst (certGetCertificateType nx_headers (Some (cert_bytes rsa_stored)) (size rsa_stored)) /\
    type rsa_stored <> CertType_Invalid /\
    size rsa_stored = sizeof_certificate nx_headers (type rsa_stored).
Proof.
  split; [exact nx_headers_wf |]. split; [exact rsa_stored_retrieved |].
  exact (certRetrieveCertificateByName_certificate nx_headers mixed_platform
           stale_Certificate rsa_stored "CA00000003" nx_headers_wf rsa_stored_retrieved).
Defined.

(** *** The tokeniser *)

Lemma pieces_delim_free (delim : ascii) (s : string) :
  Forall (fun piece => delim_free delim piece = true) (pieces delim s).
Proof.
  induction s as [| c rest IH]; simpl.
  - repeat constructor.
  - destruct (Ascii.eqb c delim) eqn:E.
    + constructor; [reflexivity | exact IH].
    + destruct (pieces delim rest) as [| piece more].
      * repeat constructor. simpl. rewrite E. reflexivity.
      * inversion IH; subst. constructor; [| assumption].
        simpl. rewrite E. assumption.
Qed.

(** The characters of a string are those of its pieces and one
    delimiter between two pieces. *)
Lemma pieces_measure (delim : ascii) (s : string) :
  (fold_right (fun piece acc => String.length piece + acc) 0 (pieces delim s)
   + List.length (pieces delim s) = Datatypes.S (String.length s))%nat.
Proof.
  induction s as [| c rest IH]; simpl; [reflexivity |].
  destruct (Ascii.eqb c delim); simpl; [lia |].
  destruct (pieces delim rest) as [| piece more]; simpl in *; lia.
Qed.

Lemma tokens_measure (delim : ascii) (l : list string) :
  (2 * List.length (filter nonempty l)
   <= fold_right (fun piece acc => String.length piece + acc) 0 l + List.length l)%nat.
Proof.
  induction l as [| piece more IH]; simpl; [lia |].
  unfold nonempty at 1. destruct piece as [| c piece]; simpl; lia.
Qed.

Lemma tokens_In_length (l : list string) (tok : string) :
  In tok (filter nonempty l) ->
  (1 <= String.length tok
   <= fold_right (fun piece acc => String.length piece + acc) 0 l)%nat.
Proof.
  induction l as [| piece more IH]; simpl; [contradiction |].
  destruct (nonempty piece) eqn:E.
  - intros [-> | Hin].
    + unfold nonempty in E. destruct tok; [discriminate | simpl; lia].
    + specialize (IH Hin). lia.
  - intro Hin. specialize (IH Hin). lia.
Qed.

(** Half of the characters, rounded up, bounds the number of tokens. *)
Lemma tokens_count (delim : ascii) (s : string) :
  (2 * List.length (tokens delim s) <= Datatypes.S (String.length s))%nat.
Proof.
  unfold tokens. rewrite <- (pieces_measure delim s). apply (tokens_measure delim).
Qed.

(** A token is not empty, holds no delimiter and is no longer than the
    text it comes from. *)
Lemma tokens_wellformed (delim : ascii) (s tok : string) :
  In tok (tokens delim s) ->
  (1 <= String.length tok <= String.length s)%nat /\ delim_free delim tok = true.
Proof.
  intro Hin. split.
  - pose proof (tokens_In_length _ _ Hin) as Hl.
    pose proof (pieces_measure delim s) as Hm.
    assert (1 <= List.length (pieces delim s))%nat
      by (destruct s; simpl; [lia |];
          destruct (Ascii.eqb _ _); simpl; [lia |];
          destruct (pieces delim s); simpl; lia).
    lia.
  - unfold tokens in Hin. apply filter_In in Hin. destruct Hin as [Hin _].
    pose proof (pieces_delim_free delim s) as HF.
    rewrite Forall_forall in HF. exact (HF tok Hin).
Qed.

(** X4: for an issuer that passed the "Root-" check,
    [certGetCertificateCountInSignatureIssuer] returns the number of
    tokens of the 63-character copy, which is never more than 32. *)
Theorem certGetCertificateCountInSignatureIssuer_bound (p : Platform) (issuer : string) :
  prefix "Root-" issuer = true ->
  certGetCertificateCountInSignatureIssuer p (Some issuer)
  = Z.of_nat (List.length (tokens "-" (issuer_copy_of p issuer))) /\
  0 <= certGetCertificateCountInSignatureIssuer p (Some issuer) <= 32.
Proof.
  intro Hp. pose proof (prefix_nonempty issuer Hp) as Hn.
  rewrite (count_of_copy p issuer Hn). split; [reflexivity |].
  pose proof (tokens_count "-" (issuer_copy_of p issuer)) as Hc.
  pose proof (truncate_length (format_noargs p (skip_parent issuer))) as Hl.
  fold (issuer_copy_of p issuer) in Hl. lia.
Qed.

Lemma certGetCertificateCountInSignatureIssuer_bound_witness :
  prefix "Root-" mixed_issuer = true /\
  certGetCertificateCountInSignatureIssuer mixed_platform (Some mixed_issuer) = 2.
Proof.
  split; [reflexivity |].
  destruct (certGetCertificateCountInSignatureIssuer_bound mixed_platform mixed_issuer
              eq_refl) as [Hc _].
  rewrite Hc. reflexivity.
Defined.

(** *** Chains *)

Lemma retrieved_some (h : Headers) (p : Platform) (d : Certificate) (name : string) :
  fst (certRetrieveCertificateByName h p (Some d) (Some name)) = true ->
  exists c, certRetrieveCertificateByName h p (Some d) (Some name) = (true, Some c).
Proof.
  unfold certRetrieveCertificateByName.
  destruct (String.length name =? 0)%nat; [discriminate |].
  destruct (negb (save_open_savefile p CERT_SAVEFILE_PATH)); [discriminate |].
  destruct (save_get_fat_storage_from_file_entry_by_path p _) as [f |]; [| discriminate].
  destruct ((file_size f <? CERT_MIN_SIZE h) || (file_size f >? CERT_MAX_SIZE h));
    [discriminate |].
  cbv zeta. cbn [size data type].
  destruct (negb _); [discriminate |].
  destruct (CertType_eqb _ _); [discriminate |].
  intros _. eexists. reflexivity.
Qed.

Lemma chain_accepts (h : Headers) (p : Platform) (d : CertificateChain)
  (issuer : string) :
  fst (certRetrieveCertificateChainBySignatureIssuer h p (Some d) (Some issuer)) = true ->
  prefix "Root-" issuer = true.
Proof.
  unfold certRetrieveCertificateChainBySignatureIssuer.
  destruct (prefix "Root-" issuer); [reflexivity |].
  rewrite orb_true_r. discriminate.
Qed.

Lemma tokens_copy_bound (p : Platform) (issuer : string) :
  (List.length (tokens "-" (issuer_copy_of p issuer)) <= 32)%nat.
Proof.
  pose proof (tokens_count "-" (issuer_copy_of p issuer)) as Hc.
  pose proof (truncate_length (format_noargs p (skip_parent issuer))) as Hl.
  fold (issuer_copy_of p issuer) in Hl. lia.
Qed.

(** X5: the chain of a successful call has between 1 and 32
    certificates, as many as its count says and as the count function
    finds in the issuer; each has a valid type, a size in the accepted
    range that is the size of the struct of its type, and a full data
    array. *)
Theorem certRetrieveCertificateChainBySignatureIssuer_invariant (h : Headers)
  (p : Platform) (d d' : CertificateChain) (issuer : string) :
  headers_wf h ->
  certRetrieveCertificateChainBySignatureIssuer h p (Some d) (Some issuer) = (true, Some d') ->
  exists cs,
    certs d' = Some cs /\
    count d' = Z.of_nat (List.length cs) /\
    count d' = certGetCertificateCountInSignatureIssuer p (Some issuer) /\
    (1 <= List.length cs <= 32)%nat /\
    Forall (fun c => type c <> CertType_Invalid /\
                     CERT_MIN_SIZE h <= size c <= CERT_MAX_SIZE h /\
                     size c = sizeof_certificate h (type c) /\
                     List.length (data c) = Z.to_nat (CERT_MAX_SIZE h)) cs.
Proof.
  intros Hwf H.
  assert (Hp : prefix "Root-" issuer = true)
    by (apply (chain_accepts h p d); rewrite H; reflexivity).
  destruct (chain_success h p d d' issuer H) as [Hne [cs [Hd HF]]].
  pose proof (Forall2_length HF) as Hlen.
  pose proof (tokens_copy_bound p issuer) as Hb.
  exists cs. subst d'. cbn [count certs].
  split; [reflexivity |]. split; [reflexivity |].
  split; [rewrite (count_of_copy p issuer (prefix_nonempty issuer Hp)), Hlen; reflexivity |].
  split.
  - rewrite <- Hlen. destruct (tokens "-" (issuer_copy_of p issuer));
      [congruence | simpl in *; lia].
  - clear H Hne Hlen Hb.
    induction HF as [| tok c toks cs Hr HF IH]; [constructor |].
    constructor; [| exact IH].
    destruct (retrieves_cert_ok h p tok c Hr) as [Hsz [Hl Hv]].
    pose proof (retrieved_sizeof h p (zero_Certificate h) c tok Hwf Hr) as Hs.
    repeat split; try assumption; lia.
Qed.

Lemma mixed_chain_retrieved :
  certRetrieveCertificateChainBySignatureIssuer nx_headers mixed_platform
    (Some zero_chain) (Some mixed_issuer) = (true, Some mixed_chain).
Proof. vm_compute. reflexivity. Qed.

Lemma certRetrieveCertificateChainBySignatureIssuer_invariant_witness :
  headers_wf nx_headers /\
  certRetrieveCertificateChainBySignatureIssuer nx_headers mixed_platform
    (Some zero_chain) (Some mixed_issuer) = (true, Some mixed_chain) /\
  exists cs,
    certs mixed_chain = Some cs /\
    count mixed_chain = Z.of_nat (List.length cs) /\
    count mixed_chain = certGetCertificateCountInSignatureIssuer mixed_platform
                          (Some mixed_issuer) /\
    (1 <= List.length cs <= 32)%nat /\
    Forall (fun c => type c <> CertType_Invalid /\
                     CERT_MIN_SIZE nx_headers <= size c <= CERT_MAX_SIZE nx_headers /\
                     size c = sizeof_certificate nx_headers (type c) /\
                     List.length (data c) = Z.to_nat (CERT_MAX_SIZE nx_headers)) cs.
Proof.
  split; [exact nx_headers_wf |]. split; [exact mixed_chain_retrieved |].
  exact (certRetrieveCertificateChainBySignatureIssuer_invariant nx_headers mixed_platform
           zero_chain mixed_chain mixed_issuer nx_headers_wf mixed_chain_retrieved).
Defined.

Lemma Forall_retrieved (h : Headers) (p : Platform) (toks : list string) :
  (forall tok, In tok toks ->
     fst (certRetrieveCertificateByName h p (Some (zero_Certificate h)) (Some tok)) = true) ->
  exists cs, Forall2 (retrieves h p) toks cs.
Proof.
  induction toks as [| tok toks IH]; intro H.
  - exists []. constructor.
  - destruct (retrieved_some h p _ tok (H tok (or_introl eq_refl))) as [c Hc].
    destruct IH as [cs Hcs]; [intros t Ht; apply H; right; exact Ht |].
    exists (c :: cs). constructor; assumption.
Qed.

(** X6: a chain call succeeds exactly when the issuer starts with
    "Root-", the copy of the rest has a token, the array for the tokens
    can be allocated and every token names a certificate that a lookup
    into a fresh slot accepts. *)
Theorem certRetrieveCertificateChainBySignatureIssuer_success_iff (h : Headers)
  (p : Platform) (d : CertificateChain) (issuer : string) :
  fst (certRetrieveCertificateChainBySignatureIssuer h p (Some d) (Some issuer)) = true <->
  prefix "Root-" issuer = true /\
  tokens "-" (issuer_copy_of p issuer) <> [] /\
  calloc_succeeds p (Z.of_nat (List.length (tokens "-" (issuer_copy_of p issuer)))) = true /\
  forall tok, In tok (tokens "-" (issuer_copy_of p issuer)) ->
    fst (certRetrieveCertificateByName h p (Some (zero_Certificate h)) (Some tok)) = true.
Proof.
  pose proof (tokens_copy_bound p issuer) as Hb.
  split.
  - intro H. pose proof (chain_accepts h p d issuer H) as Hp.
    split; [exact Hp |].
    destruct (certRetrieveCertificateChainBySignatureIssuer h p (Some d) (Some issuer))
      as [ok r] eqn:E.
    cbn in H. subst ok.
    assert (Hcall := E).
    rewrite chain_of_copy in E
      by (rewrite Hp, (prefix_nonempty issuer Hp); reflexivity).
    cbv zeta in E.
    destruct (Z.of_nat (List.length (tokens "-" (issuer_copy_of p issuer))) =? 0) eqn:E0;
      [discriminate |].
    destruct (calloc_succeeds p _) eqn:Ec; cbn [negb] in E; [| discriminate].
    destruct (retrieve_tokens h p _ 0 _) as [success arr] eqn:Er.
    destruct success; cbn [negb] in E; [| discriminate].
    inversion E; subst r.
    destruct (chain_success h p d _ issuer Hcall) as [Hne [cs [_ HF]]].
    split; [exact Hne |]. split; [reflexivity |].
    intros tok Hin. exact (Forall2_retrieves_In h p _ cs tok HF Hin).
  - intros [Hp [Hne [Hc Hall]]].
    rewrite chain_of_copy by (rewrite Hp, (prefix_nonempty issuer Hp); reflexivity).
    cbv zeta.
    destruct (Forall_retrieved h p _ Hall) as [cs HF].
    set (toks := tokens "-" (issuer_copy_of p issuer)) in *.
    assert (E0 : (Z.of_nat (List.length toks) =? 0) = false)
      by (apply Z.eqb_neq; destruct toks; [congruence | simpl; lia]).
    rewrite E0, Hc. cbn [negb].
    pose proof (retrieve_tokens_complete h p toks cs [] ltac:(simpl; lia) HF) as Hr.
    cbn [List.length app] in Hr. change (Z.of_nat 0) with 0 in Hr.
    rewrite Hr. reflexivity.
Qed.

(** X7: a failed chain call hands out no array of its own: either the
    object behind [dst] is untouched, or only its count was set to 0, or
    its array pointer is NULL. *)
Theorem certRetrieveCertificateChainBySignatureIssuer_failure (h : Headers)
  (p : Platform) (d : CertificateChain) (issuer : string)
  (r : option CertificateChain) :
  certRetrieveCertificateChainBySignatureIssuer h p (Some d) (Some issuer) = (false, r) ->
  exists d', r = Some d' /\
    (d' = d \/ d' = mkCertificateChain 0 (certs d) \/ certs d' = None).
Proof.
  intro H.
  destruct ((String.length issuer =? 0)%nat || negb (prefix "Root-" issuer)) eqn:Ep.
  - unfold certRetrieveCertificateChainBySignatureIssuer in H. rewrite Ep in H.
    inversion H. exists d. split; [reflexivity | left; reflexivity].
  - rewrite (chain_of_copy h p d issuer Ep) in H. cbv zeta in H.
    destruct (_ =? 0).
    + inversion H. eexists. split; [reflexivity | right; left; reflexivity].
    + destruct (negb (calloc_succeeds p _)).
      * inversion H. eexists. split; [reflexivity | right; right; reflexivity].
      * destruct (retrieve_tokens h p _ 0 _) as [success arr].
        destruct success; cbn [negb] in H; [discriminate |].
        inversion H. eexists. split; [reflexivity | right; right; reflexivity].
Qed.

Lemma certRetrieveCertificateChainBySignatureIssuer_failure_witness :
  certRetrieveCertificateChainBySignatureIssuer nx_headers mixed_platform
    (Some mixed_chain) (Some unknown_issuer) = (false, Some zero_chain) /\
  exists d', Some zero_chain = Some d' /\
    (d' = mixed_chain \/ d' = mkCertificateChain 0 (certs mixed_chain) \/ certs d' = None).
Proof.
  assert (H : certRetrieveCertificateChainBySignatureIssuer nx_headers mixed_platform
                (Some mixed_chain) (Some unknown_issuer) = (false, Some zero_chain))
    by (vm_compute; reflexivity).
  split; [exact H |].
  exact (certRetrieveCertificateChainBySignatureIssuer_failure nx_headers mixed_platform
           mixed_chain unknown_issuer (Some zero_chain) H).
Defined.

(** *** Composition *)

Lemma pieces_cons (delim : ascii) (s : string) :
  exists piece more, pieces delim s = piece :: more.
Proof.
  destruct s as [| c rest]; simpl; [eauto |].
  destruct (Ascii.eqb c delim); [eauto |].
  destruct (pieces delim rest); eauto.
Qed.

Lemma pieces_app (delim : ascii) (a b : string) :
  pieces delim (a ++ String delim b) = (pieces delim a ++ pieces delim b)%list.
Proof.
  induction a as [| c a IH]; simpl.
  - rewrite Ascii.eqb_refl. reflexivity.
  - destruct (Ascii.eqb c delim); [rewrite IH; reflexivity |].
    rewrite IH. destruct (pieces_cons delim a) as [piece [more ->]]. reflexivity.
Qed.

(** The tokens of two texts joined by a delimiter are the tokens of the
    first followed by the tokens of the second. *)
Lemma tokens_app (delim : ascii) (a b : string) :
  tokens delim (a ++ String delim b) = (tokens delim a ++ tokens delim b)%list.
Proof. unfold tokens. rewrite pieces_app. apply filter_app. Qed.

Lemma skip_parent_root (rest : string) : skip_parent ("Root-" ++ rest) = rest.
Proof.
  unfold skip_parent. cbn [append String.length Nat.sub substring].
  apply substring_all. lia.
Qed.

Lemma prefix_root (rest : string) : prefix "Root-" ("Root-" ++ rest) = true.
Proof. cbn. destruct rest; reflexivity. Qed.

Lemma no_percent_app (a b : string) :
  no_percent (a ++ b) = no_percent a && no_percent b.
Proof.
  induction a as [| c a IH]; simpl; [reflexivity |].
  rewrite IH. apply andb_assoc.
Qed.

Lemma length_append (a b : string) :
  String.length (a ++ b) = (String.length a + String.length b)%nat.
Proof. induction a as [| c a IH]; simpl; [reflexivity | rewrite IH; reflexivity]. Qed.

Lemma Forall2_retrieves_plain (h : Headers) (p : Platform) (d d' : CertificateChain)
  (rest : string) :
  (String.length rest <= 63)%nat -> no_percent rest = true ->
  certRetrieveCertificateChainBySignatureIssuer h p (Some d) (Some ("Root-" ++ rest)%string)
  = (true, Some d') ->
  exists cs, d' = mkCertificateChain (Z.of_nat (List.length cs)) (Some cs) /\
             Forall2 (retrieves h p) (tokens "-" rest) cs.
Proof.
  intros Hl Hn H.
  destruct (chain_success h p d d' _ H) as [_ [cs [Hd HF]]].
  rewrite issuer_copy_of_plain in HF by (rewrite skip_parent_root; assumption).
  rewrite skip_parent_root in HF. exists cs. split; assumption.
Qed.

(** The certificates of two chains, one after the other, are what the
    tokens of the joined text retrieve. *)
Lemma joined_retrieved (h : Headers) (p : Platform) (da db : CertificateChain)
  (a b : string) (ca cb : list Certificate) :
  (String.length (a ++ "-" ++ b) <= 63)%nat ->
  no_percent (a ++ "-" ++ b) = true ->
  certRetrieveCertificateChainBySignatureIssuer h p (Some da) (Some ("Root-" ++ a)%string)
  = (true, Some (mkCertificateChain (Z.of_nat (List.length ca)) (Some ca))) ->
  certRetrieveCertificateChainBySignatureIssuer h p (Some db) (Some ("Root-" ++ b)%string)
  = (true, Some (mkCertificateChain (Z.of_nat (List.length cb)) (Some cb))) ->
  Forall2 (retrieves h p) (tokens "-" (a ++ "-" ++ b)) (ca ++ cb) /\
  (ca ++ cb)%list <> [].
Proof.
  intros Hl Hn Ha Hb.
  rewrite length_append in Hl. cbn [append String.length] in Hl.
  rewrite no_percent_app in Hn. cbn [append no_percent] in Hn.
  apply andb_prop in Hn. destruct Hn as [Hna Hnb]. cbn in Hnb.
  destruct (Forall2_retrieves_plain h p da _ a ltac:(lia) Hna Ha) as [ca' [Ea HFa]].
  destruct (Forall2_retrieves_plain h p db _ b ltac:(lia) Hnb Hb) as [cb' [Eb HFb]].
  inversion Ea; subst ca'. inversion Eb; subst cb'. clear Ea Eb.
  split; [cbn [append]; rewrite tokens_app; apply Forall2_app; assumption |].
  destruct (chain_success h p da _ _ Ha) as [Hne _].
  rewrite issuer_copy_of_plain in Hne by (rewrite skip_parent_root; first [lia | assumption]).
  rewrite skip_parent_root in Hne.
  destruct HFa; [congruence | discriminate].
Qed.

(** The chain of an issuer whose text after "Root-" is copied as it is:
    the certificates its tokens retrieve. *)
Lemma chain_of_tokens (h : Headers) (p : Platform) (d : CertificateChain)
  (rest : string) (cs : list Certificate) :
  (String.length rest <= 63)%nat ->
  no_percent rest = true ->
  Forall2 (retrieves h p) (tokens "-" rest) cs ->
  cs <> [] ->
  calloc_succeeds p (Z.of_nat (List.length cs)) = true ->
  certRetrieveCertificateChainBySignatureIssuer h p (Some d) (Some ("Root-" ++ rest)%string)
  = (true, Some (mkCertificateChain (Z.of_nat (List.length cs)) (Some cs))).
Proof.
  intros Hl Hn HF Hne Hc.
  assert (Hcopy : issuer_copy_of p ("Root-" ++ rest) = rest)
    by (rewrite issuer_copy_of_plain; rewrite skip_parent_root; solve [reflexivity | assumption]).
  rewrite chain_of_copy by (rewrite prefix_root; reflexivity). cbv zeta. rewrite Hcopy.
  pose proof (Forall2_length HF) as Hlen.
  assert (E0 : (Z.of_nat (List.length cs) =? 0) = false)
    by (apply Z.eqb_neq; destruct cs; [congruence | simpl; lia]).
  pose proof (tokens_length "-" rest) as Ht.
  assert (Hpre : Z.of_nat (List.length (@nil Certificate))
                 + Z.of_nat (List.length (tokens "-" rest)) < 2 ^ 32)
    by (cbn [List.length]; lia).
  pose proof (retrieve_tokens_complete h p _ _ [] Hpre HF) as Hr.
  cbn [List.length app] in Hr. change (Z.of_nat 0) with 0 in Hr.
  rewrite Hr, Hlen, E0, Hc. reflexivity.
Qed.

(** X8: chains compose as issuers do.  If the issuers "Root-a" and
    "Root-b" give the chains [ca] and [cb], the issuer "Root-a-b" gives
    the chain [ca ++ cb], provided the joined text fits the 63-character
    copy, has no '%' and the larger array can be allocated. *)
Theorem certRetrieveCertificateChainBySignatureIssuer_app (h : Headers) (p : Platform)
  (d da db : CertificateChain) (a b : string) (ca cb : list Certificate) :
  (String.length (a ++ "-" ++ b) <= 63)%nat ->
  no_percent (a ++ "-" ++ b) = true ->
  certRetrieveCertificateChainBySignatureIssuer h p (Some da) (Some ("Root-" ++ a)%string)
  = (true, Some (mkCertificateChain (Z.of_nat (List.length ca)) (Some ca))) ->
  certRetrieveCertificateChainBySignatureIssuer h p (Some db) (Some ("Root-" ++ b)%string)
  = (true, Some (mkCertificateChain (Z.of_nat (List.length cb)) (Some cb))) ->
  calloc_succeeds p (Z.of_nat (List.length (ca ++ cb))) = true ->
  certRetrieveCertificateChainBySignatureIssuer h p (Some d)
    (Some ("Root-" ++ a ++ "-" ++ b)%string)
  = (true, Some (mkCertificateChain (Z.of_nat (List.length (ca ++ cb))) (Some (ca ++ cb)%list))).
Proof.
  intros Hl Hn Ha Hb Hc.
  destruct (joined_retrieved h p da db a b ca cb Hl Hn Ha Hb) as [HF Hne].
  exact (chain_of_tokens h p d (a ++ "-" ++ b) (ca ++ cb) Hl Hn HF Hne Hc).
Qed.

Lemma rsa_chain_retrieved :
  certRetrieveCertificateChainBySignatureIssuer nx_headers mixed_platform
    (Some zero_chain) (Some ("Root-" ++ "CA00000003")%string)
  = (true, Some (mkCertificateChain (Z.of_nat (List.length [rsa_fresh])) (Some [rsa_fresh]))).
Proof. vm_compute. reflexivity. Qed.

Lemma sample_chain_retrieved :
  certRetrieveCertificateChainBySignatureIssuer nx_headers mixed_platform
    (Some zero_chain) (Some ("Root-" ++ "XS00000020")%string)
  = (true, Some (mkCertificateChain (Z.of_nat (List.length [sample_stored]))
                   (Some [sample_stored]))).
Proof. vm_compute. reflexivity. Qed.

Lemma certRetrieveCertificateChainBySignatureIssuer_app_witness :
  certRetrieveCertificateChainBySignatureIssuer nx_headers mixed_platform
    (Some zero_chain) (Some ("Root-" ++ "CA00000003" ++ "-" ++ "XS00000020")%string)
  = (true, Some (mkCertificateChain (Z.of_nat (List.length ([rsa_fresh] ++ [sample_stored])))
                   (Some ([rsa_fresh] ++ [sample_stored])%list))).
Proof.
  apply (certRetrieveCertificateChainBySignatureIssuer_app nx_headers mixed_platform
           zero_chain zero_chain zero_chain "CA00000003" "XS00000020").
  - vm_compute. lia.
  - reflexivity.
  - exact rsa_chain_retrieved.
  - exact sample_chain_retrieved.
  - reflexivity.
Defined.

(** *** Serialisation *)

(** X9: serialising a chain into a buffer that is large enough writes
    the certificates back to back at its start and nothing after them:
    the bytes past the total size, and the length of the buffer, are
    kept. *)
Theorem certCopyCertificateChainDataToMemoryBuffer_frame (h : Headers)
  (cs : list Certificate) (dst : list byte) :
  Forall (fits h) cs ->
  cs <> [] ->
  Z.of_nat (List.length cs) < 2 ^ 32 ->
  CERT_MAX_SIZE h < 2 ^ 32 ->
  (Z.to_nat (total_size cs) <= List.length dst)%nat ->
  certCalculateRawCertificateChainSize h
    (Some (mkCertificateChain (Z.of_nat (List.length cs)) (Some cs))) = total_size cs /\
  certCopyCertificateChainDataToMemoryBuffer h dst
    (Some (mkCertificateChain (Z.of_nat (List.length cs)) (Some cs)))
  = (List.concat (map cert_bytes cs) ++ skipn (Z.to_nat (total_size cs)) dst)%list /\
  List.length (certCopyCertificateChainDataToMemoryBuffer h dst
                 (Some (mkCertificateChain (Z.of_nat (List.length cs)) (Some cs))))
  = List.length dst.
Proof.
  intros HF Hne Hn Hmax Hdst.
  pose proof (total_size_bounds h cs HF) as Hts.
  assert (Hcnt : (Z.of_nat (List.length cs) =? 0) = false)
    by (apply Z.eqb_neq; destruct cs; [congruence | simpl; lia]).
  assert (Hlt : total_size cs < 2 ^ 64) by nia.
  destruct (serialise_array h cs x00 HF Hn Hmax Hne) as [Hsize [_ Hlen]].
  assert (Hcopy : certCopyCertificateChainDataToMemoryBuffer h dst
                    (Some (mkCertificateChain (Z.of_nat (List.length cs)) (Some cs)))
                  = (List.concat (map cert_bytes cs)
                     ++ skipn (Z.to_nat (total_size cs)) dst)%list).
  { unfold certCopyCertificateChainDataToMemoryBuffer. cbn [count certs].
    rewrite Hcnt, Nat2Z.id.
    pose proof (copy_loop_concat h cs [] dst 0 HF) as Hc.
    cbn [List.length app] in Hc. change (Z.of_nat 0) with 0 in Hc.
    rewrite Z.add_0_l in Hc. change (Z.to_nat 0) with 0%nat in Hc.
    cbn [firstn app] in Hc. apply Hc; lia. }
  split; [exact Hsize |]. split; [exact Hcopy |].
  rewrite Hcopy, length_app, length_skipn. lia.
Qed.

Lemma mixed_chain_fits : Forall (fits nx_headers) [rsa_fresh; sample_stored].
Proof.
  constructor; [| constructor; [| constructor]];
    (split; [split; vm_compute; discriminate | apply Nat.leb_le; vm_compute; reflexivity]).
Qed.

Lemma certCopyCertificateChainDataToMemoryBuffer_frame_witness :
  certCopyCertificateChainDataToMemoryBuffer nx_headers (repeat xff 0x600)
    (Some mixed_chain)
  = (sample_rsa_cert ++ sample_ecsda240_cert ++ repeat xff 0x80)%list.
Proof.
  destruct (certCopyCertificateChainDataToMemoryBuffer_frame nx_headers
              [rsa_fresh; sample_stored] (repeat xff 0x600) mixed_chain_fits)
    as [_ [Hcopy _]].
  - discriminate.
  - vm_compute. reflexivity.
  - vm_compute. reflexivity.
  - apply Nat.leb_le. vm_compute. reflexivity.
  - unfold mixed_chain. change 2 with (Z.of_nat (List.length [rsa_fresh; sample_stored])).
    rewrite Hcopy. vm_compute. reflexivity.
Defined.

(** X10: when [certGenerateRawCertificateChainBySignatureIssuer] returns
    NULL, whatever the reason, the object behind [out_size] is as it
    was. *)
Theorem certGenerateRawCertificateChainBySignatureIssuer_null (h : Headers)
  (p : Platform) (issuer : option string) (out_size : option Z) :
  fst (certGenerateRawCertificateChainBySignatureIssuer h p issuer out_size) = None ->
  snd (certGenerateRawCertificateChainBySignatureIssuer h p issuer out_size) = out_size.
Proof.
  unfold certGenerateRawCertificateChainBySignatureIssuer.
  destruct issuer as [issuer |]; [| reflexivity].
  destruct out_size as [o |]; [| reflexivity].
  destruct (String.length issuer =? 0)%nat; [reflexivity |].
  destruct (certRetrieveCertificateChainBySignatureIssuer h p _ _) as [ok chain].
  destruct ok; [| reflexivity].
  cbv zeta. destruct (negb (malloc_succeeds p _)); [reflexivity | discriminate].
Qed.

Lemma certGenerateRawCertificateChainBySignatureIssuer_null_witness :
  snd (certGenerateRawCertificateChainBySignatureIssuer nx_headers mixed_platform
         (Some unknown_issuer) (Some 7)) = Some 7.
Proof.
  apply (certGenerateRawCertificateChainBySignatureIssuer_null nx_headers mixed_platform).
  vm_compute. reflexivity.
Defined.

Lemma retrieved_fits (h : Headers) (p : Platform) (toks : list string)
  (cs : list Certificate) :
  headers_wf h -> Forall2 (retrieves h p) toks cs -> Forall (fits h) cs.
Proof.
  intros Hwf HF. induction HF as [| t c toks cs Hr HF IH]; constructor; [| assumption].
  apply cert_ok_fits; [apply Hwf | exact (retrieves_cert_ok h p t c Hr)].
Qed.

Lemma chain_true_some (h : Headers) (p : Platform) (d : CertificateChain)
  (issuer : string) (r : option CertificateChain) :
  certRetrieveCertificateChainBySignatureIssuer h p (Some d) (Some issuer) = (true, r) ->
  exists d', r = Some d'.
Proof.
  intro H.
  assert (Hp : prefix "Root-" issuer = true)
    by (apply (chain_accepts h p d); rewrite H; reflexivity).
  rewrite chain_of_copy in H by (rewrite Hp, (prefix_nonempty issuer Hp); reflexivity).
  cbv zeta in H.
  destruct (_ =? 0); [discriminate |].
  destruct (negb (calloc_succeeds p _)); [discriminate |].
  destruct (retrieve_tokens h p _ 0 _) as [success arr].
  destruct (negb success); [discriminate |].
  inversion H. eexists. reflexivity.
Qed.

(** What a returned buffer tells about the chain behind it. *)
Lemma generated_chain (h : Headers) (p : Platform) (issuer : string)
  (o : Z) (raw : list byte) (out_size : option Z) :
  headers_wf h ->
  certGenerateRawCertificateChainBySignatureIssuer h p (Some issuer) (Some o)
  = (Some raw, out_size) ->
  exists cs,
    certRetrieveCertificateChainBySignatureIssuer h p (Some zero_chain) (Some issuer)
    = (true, Some (mkCertificateChain (Z.of_nat (List.length cs)) (Some cs))) /\
    out_size = Some (total_size cs) /\
    Z.of_nat (List.length raw) = total_size cs /\
    raw = List.concat (map cert_bytes cs).
Proof.
  intros Hwf H. unfold certGenerateRawCertificateChainBySignatureIssuer in H.
  destruct (String.length issuer =? 0)%nat; [discriminate |].
  fold zero_chain in H.
  destruct (certRetrieveCertificateChainBySignatureIssuer h p (Some zero_chain) (Some issuer))
    as [ok chain] eqn:Er.
  destruct ok; [| discriminate].
  destruct (chain_true_some h p zero_chain issuer chain Er) as [d' ->].
  destruct (chain_success h p zero_chain d' issuer Er) as [Hne [cs [Hd HF]]].
  pose proof (tokens_copy_bound p issuer) as Hb.
  pose proof (Forall2_length HF) as Hlen.
  pose proof (retrieved_fits h p _ cs Hwf HF) as Hfits.
  assert (Hcs : cs <> [])
    by (intro Hnil; subst cs; destruct (tokens "-" (issuer_copy_of p issuer));
        [congruence | discriminate]).
  subst d'.
  destruct (serialise_array h cs (malloc_fill p) Hfits ltac:(lia) (wf_max h Hwf) Hcs)
    as [Hsize [Hcopy Hraw]].
  rewrite Hsize in H.
  destruct (negb (malloc_succeeds p (total_size cs))); [discriminate |].
  rewrite Hcopy in H. inversion H; subst.
  exists cs. repeat split; assumption.
Qed.

(** What a chain gives when its serialisation can be allocated. *)
Lemma chain_generated (h : Headers) (p : Platform) (issuer : string) (o : Z)
  (cs : list Certificate) :
  headers_wf h ->
  certRetrieveCertificateChainBySignatureIssuer h p (Some zero_chain) (Some issuer)
  = (true, Some (mkCertificateChain (Z.of_nat (List.length cs)) (Some cs))) ->
  malloc_succeeds p (total_size cs) = true ->
  certGenerateRawCertificateChainBySignatureIssuer h p (Some issuer) (Some o)
  = (Some (List.concat (map cert_bytes cs)), Some (total_size cs)).
Proof.
  intros Hwf Hcall Hm.
  assert (Hp : prefix "Root-" issuer = true)
    by (apply (chain_accepts h p zero_chain); rewrite Hcall; reflexivity).
  destruct (chain_success h p zero_chain _ issuer Hcall) as [Hne [cs' [Hd HF]]].
  inversion Hd as [[Hn Hcs']]. subst cs'. clear Hd Hn.
  pose proof (tokens_copy_bound p issuer) as Hb.
  pose proof (Forall2_length HF) as Hlen.
  pose proof (retrieved_fits h p _ cs Hwf HF) as Hfits.
  assert (Hcs : cs <> [])
    by (intro Hnil; subst cs; destruct (tokens "-" (issuer_copy_of p issuer));
        [congruence | discriminate]).
  destruct (serialise_array h cs (malloc_fill p) Hfits ltac:(lia) (wf_max h Hwf) Hcs)
    as [Hsize [Hcopy Hraw]].
  unfold certGenerateRawCertificateChainBySignatureIssuer.
  rewrite (prefix_nonempty issuer Hp). fold zero_chain. rewrite Hcall.
  cbv zeta. rewrite Hsize, Hm. cbn [negb]. rewrite Hcopy. reflexivity.
Qed.

Lemma total_size_app (ca cb : list Certificate) :
  total_size (ca ++ cb) = total_size ca + total_size cb.
Proof.
  unfold total_size. induction ca as [| c ca IH]; simpl; [reflexivity |].
  rewrite IH. lia.
Qed.

(** X11: raw chains compose as issuers do.  If "Root-a" and "Root-b"
    give the buffers [ra] and [rb], then "Root-a-b" gives [ra ++ rb]
    and stores the sum of the two lengths through [out_size], provided
    the joined text fits the 63-character copy, has no '%' and the
    allocations succeed. *)
Theorem certGenerateRawCertificateChainBySignatureIssuer_app (h : Headers)
  (p : Platform) (a b : string) (oa ob o : Z) (ra rb : list byte)
  (sa sb : option Z) :
  headers_wf h ->
  (String.length (a ++ "-" ++ b) <= 63)%nat ->
  no_percent (a ++ "-" ++ b) = true ->
  certGenerateRawCertificateChainBySignatureIssuer h p (Some ("Root-" ++ a)%string) (Some oa)
  = (Some ra, sa) ->
  certGenerateRawCertificateChainBySignatureIssuer h p (Some ("Root-" ++ b)%string) (Some ob)
  = (Some rb, sb) ->
  (forall n, 1 <= n <= 32 -> calloc_succeeds p n = true) ->
  malloc_succeeds p (Z.of_nat (List.length ra) + Z.of_nat (List.length rb)) = true ->
  certGenerateRawCertificateChainBySignatureIssuer h p
    (Some ("Root-" ++ a ++ "-" ++ b)%string) (Some o)
  = (Some (ra ++ rb)%list, Some (Z.of_nat (List.length ra) + Z.of_nat (List.length rb))).
Proof.
  intros Hwf Hl Hn Ha Hb Hcalloc Hmalloc.
  destruct (generated_chain h p _ oa ra sa Hwf Ha) as [ca [Hca [_ [Hla Hra]]]].
  destruct (generated_chain h p _ ob rb sb Hwf Hb) as [cb [Hcb [_ [Hlb Hrb]]]].
  assert (Hcount : (1 <= List.length (ca ++ cb) <= 32)%nat).
  { assert (Hj : forall d d' x cs, (String.length x <= 63)%nat -> no_percent x = true ->
               certRetrieveCertificateChainBySignatureIssuer h p (Some d)
                 (Some ("Root-" ++ x)%string) = (true, Some d') ->
               d' = mkCertificateChain (Z.of_nat (List.length cs)) (Some cs) ->
               (1 <= List.length cs)%nat /\
               List.length cs = List.length (tokens "-" x)).
    { intros d d' x cs Hx Hnx Hcall Hd.
      destruct (chain_success h p d d' _ Hcall) as [Hne [cs' [Hd' HF]]].
      rewrite issuer_copy_of_plain in Hne, HF by (rewrite skip_parent_root; assumption).
      rewrite skip_parent_root in Hne, HF.
      rewrite Hd in Hd'. inversion Hd'; subst cs'.
      rewrite <- (Forall2_length HF).
      split; [destruct (tokens "-" x); [congruence | simpl; lia] | reflexivity]. }
    assert (Hs : String.length (a ++ "-" ++ b) = (String.length a + S (String.length b))%nat)
      by (rewrite length_append; reflexivity).
    assert (Hnab : no_percent a = true /\ no_percent b = true).
    { rewrite no_percent_app in Hn. apply andb_prop in Hn. destruct Hn as [Hna Hnb].
      split; [exact Hna | exact Hnb]. }
    destruct Hnab as [Hna Hnb].
    destruct (Hj _ _ a ca ltac:(lia) Hna Hca eq_refl) as [H1 Hta].
    destruct (Hj _ _ b cb ltac:(lia) Hnb Hcb eq_refl) as [_ Htb].
    pose proof (tokens_count "-" (a ++ "-" ++ b)) as Hc.
    change (a ++ "-" ++ b)%string with (a ++ String "-" b)%string in Hc.
    rewrite tokens_app, length_app in Hc.
    rewrite length_app.
    change (a ++ "-" ++ b)%string with (a ++ String "-" b)%string in Hs, Hl.
    lia. }
  assert (Hc : calloc_succeeds p (Z.of_nat (List.length (ca ++ cb))) = true)
    by (apply Hcalloc; lia).
  destruct (joined_retrieved h p zero_chain zero_chain a b ca cb Hl Hn Hca Hcb)
    as [HF Hne].
  pose proof (chain_of_tokens h p zero_chain (a ++ "-" ++ b) (ca ++ cb) Hl Hn HF Hne Hc)
    as Hab.
  rewrite (chain_generated h p _ o (ca ++ cb) Hwf Hab).
  - rewrite map_app, concat_app, total_size_app, <- Hra, <- Hrb, Hla, Hlb. reflexivity.
  - rewrite total_size_app, <- Hla, <- Hlb. exact Hmalloc.
Qed.

Lemma rsa_raw_generated :
  certGenerateRawCertificateChainBySignatureIssuer nx_headers mixed_platform
    (Some ("Root-" ++ "CA00000003")%string) (Some 0) = (Some sample_rsa_cert, Some 0x400).
Proof. vm_compute. reflexivity. Qed.

Lemma sample_raw_generated :
  certGenerateRawCertificateChainBySignatureIssuer nx_headers mixed_platform
    (Some ("Root-" ++ "XS00000020")%string) (Some 0)
  = (Some sample_ecsda240_cert, Some 0x180).
Proof. vm_compute. reflexivity. Qed.

Lemma certGenerateRawCertificateChainBySignatureIssuer_app_witness :
  certGenerateRawCertificateChainBySignatureIssuer nx_headers mixed_platform
    (Some ("Root-" ++ "CA00000003" ++ "-" ++ "XS00000020")%string) (Some 0)
  = (Some (sample_rsa_cert ++ sample_ecsda240_cert)%list,
     Some (Z.of_nat (List.length sample_rsa_cert)
           + Z.of_nat (List.length sample_ecsda240_cert))).
Proof.
  apply (certGenerateRawCertificateChainBySignatureIssuer_app nx_headers mixed_platform
           "CA00000003" "XS00000020" 0 0 0 sample_rsa_cert sample_ecsda240_cert
           (Some 0x400) (Some 0x180)).
  - exact nx_headers_wf.
  - vm_compute. lia.
  - reflexivity.
  - exact rsa_raw_generated.
  - exact sample_raw_generated.
  - intros n _. reflexivity.
  - reflexivity.
Defined.

(** *** Long names *)

Lemma substring_base_path (k : nat) (name : string) :
  substring 0 (13 + k) (CERT_SAVEFILE_STORAGE_BASE_PATH ++ name)
  = (CERT_SAVEFILE_STORAGE_BASE_PATH ++ substring 0 k name)%string.
Proof. reflexivity. Qed.

(** X23: the path of a certificate is cut to the size of the path
    buffer.  When the buffer holds the base path, [k] characters of the
    name and the terminator, two names that agree on their first [k]
    characters are looked up under the same path, and the calls for them
    have the same outcome. *)
Theorem certRetrieveCertificateByName_path_cut (h : Headers) (p : Platform)
  (d : Certificate) (k : nat) (name1 name2 : string) :
  Z.to_nat (SAVE_FS_LIST_MAX_NAME_LENGTH h) = (14 + k)%nat ->
  (String.length name1 =? 0)%nat = false ->
  (String.length name2 =? 0)%nat = false ->
  substring 0 k name1 = substring 0 k name2 ->
  certRetrieveCertificateByName h p (Some d) (Some name1)
  = certRetrieveCertificateByName h p (Some d) (Some name2).
Proof.
  intros Hsize Hn1 Hn2 Hk. unfold certRetrieveCertificateByName.
  rewrite Hn1, Hn2. unfold truncate. rewrite Hsize.
  replace (14 + k - 1)%nat with (13 + k)%nat by lia.
  rewrite !substring_base_path, Hk. reflexivity.
Qed.

Lemma long_name_retrieved :
  certRetrieveCertificateByName nx_headers long_platform
    (Some (zero_Certificate nx_headers)) (Some long_name_y) = (true, Some sample_stored).
Proof. vm_compute. reflexivity. Qed.

Lemma certRetrieveCertificateByName_path_cut_witness :
  long_name_x <> long_name_y /\
  certRetrieveCertificateByName nx_headers long_platform
    (Some (zero_Certificate nx_headers)) (Some long_name_x) = (true, Some sample_stored).
Proof.
  split; [vm_compute; discriminate |].
  rewrite (certRetrieveCertificateByName_path_cut nx_headers long_platform
             (zero_Certificate nx_headers) 50 long_name_x long_name_y
             eq_refl eq_refl eq_refl eq_refl).
  exact long_name_retrieved.
Defined.

End CertLaws.

(** ** Laws of the transfer protocol engine *)

Module UsbLaws.
Import Word WordTheory Usb UsbTheory.

(** *** The command header *)

Lemma byte_val_of_Z (z : Z) : byte_val (byte_of_Z z) = z mod 256.
Proof.
  unfold byte_val, byte_of_Z.
  assert (Hr : 0 <= z mod 256 < 256) by (apply Z.mod_pos_bound; lia).
  destruct (Byte.of_N (Z.to_N (z mod 256))) as [b |] eqn:E.
  - rewrite (Byte.to_of_N _ E). lia.
  - apply Byte.of_N_None_iff in E. lia.
Qed.

(** Four little-endian bytes read back as the integer they encode. *)
Lemma memcpy_u32_le_bytes (v : Z) (post : list byte) :
  0 <= v < 2 ^ 32 -> memcpy_u32 (le_bytes 4 v ++ post) 0 = v.
Proof.
  intro Hv. rewrite memcpy_u32_le. cbn [le_bytes app].
  unfold load_u8.
  change (0 + 1) with 1. change (0 + 2) with 2. change (0 + 3) with 3.
  change (Z.to_nat 0) with 0%nat. change (Z.to_nat 1) with 1%nat.
  change (Z.to_nat 2) with 2%nat. change (Z.to_nat 3) with 3%nat.
  cbn [Z.ltb Z.compare nth].
  rewrite !byte_val_of_Z, !Z.shiftr_shiftr by lia. cbn [Z.add Pos.add Pos.succ].
  rewrite !Z.shiftr_div_pow2 by lia.
  change (2 ^ 8) with 256. change (2 ^ 16) with 65536. change (2 ^ 24) with 16777216.
  change (2 ^ 32) with 4294967296 in Hv.
  Z.div_mod_to_equations. lia.
Qed.

Lemma load_u8_skip (pre l : list byte) (k : Z) :
  0 <= k ->
  load_u8 (pre ++ l) (Z.of_nat (List.length pre) + k) = load_u8 l k.
Proof.
  intro Hk. unfold load_u8.
  destruct (Z.ltb_spec (Z.of_nat (List.length pre) + k) 0); [lia |].
  destruct (Z.ltb_spec k 0); [lia |].
  replace (Z.to_nat (Z.of_nat (List.length pre) + k))
    with (List.length pre + Z.to_nat k)%nat by lia.
  rewrite app_nth2_plus. reflexivity.
Qed.

Lemma memcpy_u32_skip (pre l : list byte) (k : Z) :
  0 <= k ->
  memcpy_u32 (pre ++ l) (Z.of_nat (List.length pre) + k) = memcpy_u32 l k.
Proof.
  intro Hk. unfold memcpy_u32.
  rewrite <- !Z.add_assoc, !load_u8_skip by lia. reflexivity.
Qed.

(** The first sixteen bytes of a block after the stores of
    [usbPrepareCommandHeader]. *)
Lemma header_window (b : Buffer) (m c z : list byte) :
  List.length m = 4%nat -> List.length c = 4%nat -> List.length z = 4%nat ->
  header_of (store (store (store (memset0 b 0 sizeof_UsbCommandHeader) 0 m) 4 c) 8 z)
  = (m ++ c ++ z ++ [x00; x00; x00; x00])%list.
Proof.
  intros Hm Hc Hz.
  destruct m as [| m0 [| m1 [| m2 [| m3 [| ? ?]]]]]; try discriminate.
  destruct c as [| c0 [| c1 [| c2 [| c3 [| ? ?]]]]]; try discriminate.
  destruct z as [| z0 [| z1 [| z2 [| z3 [| ? ?]]]]]; try discriminate.
  reflexivity.
Qed.

Lemma le_bytes_length (n : nat) (v : Z) : List.length (le_bytes n v) = n.
Proof. revert v. induction n as [| n IH]; intro v; simpl; [| rewrite IH]; reflexivity. Qed.

(** X12: the header that [usbPrepareCommandHeader] leaves in the
    transfer buffer reads back as it was meant: the magic word is "NXDT"
    on the wire, the command and the block size are the arguments, the
    reserved word is zero and the bytes after the header are untouched.
    A command code past [EndSession] leaves the state as it is. *)
Theorem usbPrepareCommandHeader_roundtrip (cmd cmd_block_size : Z) (s : State)
  (b : Buffer) :
  g_usbTransferBuffer s = Some b ->
  0 <= cmd < 2 ^ 32 -> 0 <= cmd_block_size < 2 ^ 32 ->
  (UsbCommandType_EndSession < cmd ->
   snd (usbPrepareCommandHeader cmd cmd_block_size s) = s) /\
  (cmd <= UsbCommandType_EndSession ->
   exists b',
     snd (usbPrepareCommandHeader cmd cmd_block_size s) = set_buffer (Some b') s /\
     addr b' = addr b /\
     wire_magic (header_of b') = USB_CMD_HEADER_MAGIC /\
     memcpy_u32 (header_of b') 4 = cmd /\
     memcpy_u32 (header_of b') 8 = cmd_block_size /\
     memcpy_u32 (header_of b') 12 = 0 /\
     forall i, sizeof_UsbCommandHeader <= i -> byte_at b' i = byte_at b i).
Proof.
  intros Hb Hcmd Hsize. unfold usbPrepareCommandHeader. split.
  - intro Hgt. destruct (Z.gtb_spec cmd UsbCommandType_EndSession); [reflexivity | lia].
  - intro Hle. destruct (Z.gtb_spec cmd UsbCommandType_EndSession); [lia |].
    unfold update_buffer, modify. cbn [snd]. rewrite Hb. cbn [option_map].
    eexists. split; [reflexivity |]. split; [reflexivity |].
    rewrite header_window by apply le_bytes_length.
    split; [reflexivity |].
    split; [| split; [| split]].
    + change 4 with (Z.of_nat (List.length (le_bytes 4 (bswap32 USB_CMD_HEADER_MAGIC))) + 0).
      rewrite memcpy_u32_skip by lia. apply memcpy_u32_le_bytes. exact Hcmd.
    + rewrite app_assoc.
      change 8 with (Z.of_nat (List.length (le_bytes 4 (bswap32 USB_CMD_HEADER_MAGIC)
                                            ++ le_bytes 4 cmd)) + 0)
        at 1.
      rewrite memcpy_u32_skip by lia. apply memcpy_u32_le_bytes. exact Hsize.
    + rewrite !app_assoc.
      replace 12 with (Z.of_nat (List.length ((le_bytes 4 (bswap32 USB_CMD_HEADER_MAGIC)
                                               ++ le_bytes 4 cmd)
                                              ++ le_bytes 4 cmd_block_size)) + 0)
        by (rewrite !length_app, !le_bytes_length; reflexivity).
      rewrite memcpy_u32_skip by lia. reflexivity.
    + intros i Hi. unfold sizeof_UsbCommandHeader in Hi. cbn [byte_at store memset0].
      rewrite !le_bytes_length.
      repeat match goal with
             | |- context [(?a <=? i) && (i <? ?c)] =>
               replace ((a <=? i) && (i <? c)) with false
                 by (symmetry; apply andb_false_iff; right; apply Z.ltb_ge;
                     unfold sizeof_UsbCommandHeader; cbn; lia)
             end.
      reflexivity.
Qed.

Lemma usbPrepareCommandHeader_roundtrip_witness :
  exists b',
    snd (usbPrepareCommandHeader UsbCommandType_SendFileProperties 0x320 initialized_state)
    = set_buffer (Some b') initialized_state /\
    addr b' = addr (zero_buffer 0x10000) /\
    wire_magic (header_of b') = USB_CMD_HEADER_MAGIC /\
    memcpy_u32 (header_of b') 4 = UsbCommandType_SendFileProperties /\
    memcpy_u32 (header_of b') 8 = 0x320 /\
    memcpy_u32 (header_of b') 12 = 0 /\
    forall i, sizeof_UsbCommandHeader <= i -> byte_at b' i = byte_at (zero_buffer 0x10000) i.
Proof.
  apply (usbPrepareCommandHeader_roundtrip UsbCommandType_SendFileProperties 0x320
           initialized_state (zero_buffer 0x10000)).
  - reflexivity.
  - vm_compute. split; [discriminate | reflexivity].
  - vm_compute. split; [discriminate | reflexivity].
  - vm_compute. discriminate.
Defined.

(** *** Transfers and commands *)

(** Take a monadic term apart: unfold the combinators and split on
    every test and every intermediate result. *)
Ltac mcases :=
  repeat (cbv beta iota zeta delta [bind ret get modify] in *;
          match goal with
          | |- context [match ?x with _ => _ end] =>
            lazymatch x with
            | context [match _ with _ => _ end] => fail
            | _ => destruct x eqn:?
            end
          end).

(** Close the branches whose tests contradict each other and bring the
    platform's answers of the others into the goal. *)
Ltac mleaf s :=
  try solve [exfalso; cbn in *; congruence];
  cbn in *;
  repeat match goal with
         | H : urbs s = _ |- _ => rewrite H; clear H
         | H : ds_states s = _ |- _ => rewrite H; clear H
         | H : g_usbSessionStarted s = _ |- _ => rewrite H; clear H
         end.

Lemma usbTransferData_success (buf : option Buffer) (size : Z) (e : Direction)
  (s : State) :
  fst (fst (usbTransferData buf size e s)) = true ->
  g_usbDetectionThreadExitFlag (snd (usbTransferData buf size e s))
  = g_usbDetectionThreadExitFlag s /\
  g_usbTimeoutEvent (snd (usbTransferData buf size e s)) = g_usbTimeoutEvent s /\
  exists u, urbs s = u :: urbs (snd (usbTransferData buf size e s)) /\
            u32 (urb_transferred_size u) = size.
Proof.
  unfold usbTransferData, usbIsHostAvailable, next_urb.
  mcases; mleaf s; intro Hok; try discriminate Hok.
  all: split; [reflexivity |]; split; [reflexivity |].
  all: eexists; split; [reflexivity |].
  all: match goal with
       | H : negb (u32 _ =? _) = false |- _ =>
         apply negb_false_iff, Z.eqb_eq in H; exact H
       end.
Qed.

Lemma usbTransferData_exit_flag (buf : option Buffer) (size : Z) (e : Direction)
  (s : State) :
  g_usbDetectionThreadExitFlag (snd (usbTransferData buf size e s))
  = g_usbDetectionThreadExitFlag s \/
  g_usbSessionStarted s = false /\
  fst (fst (usbTransferData buf size e s)) = false /\
  g_usbDetectionThreadExitFlag (snd (usbTransferData buf size e s)) = true.
Proof.
  unfold usbTransferData, usbIsHostAvailable, next_urb.
  mcases; mleaf s;
    first [left; reflexivity | right; split; [| split]; reflexivity].
Qed.

Lemma usbTransferData_timeout_event (buf : option Buffer) (size : Z) (e : Direction)
  (s : State) :
  g_usbTimeoutEvent (snd (usbTransferData buf size e s)) = g_usbTimeoutEvent s \/
  g_usbSessionStarted s = true /\
  fst (fst (usbTransferData buf size e s)) = false /\
  g_usbTimeoutEvent (snd (usbTransferData buf size e s)) = true.
Proof.
  unfold usbTransferData, usbIsHostAvailable, next_urb.
  mcases; mleaf s;
    first [left; reflexivity | right; split; [| split]; reflexivity].
Qed.

Lemma usbTransferData_urbs (buf : option Buffer) (size : Z) (e : Direction)
  (s : State) :
  urbs (snd (usbTransferData buf size e s)) = urbs s \/
  exists u rest, ds_states s = (true, 5) :: rest /\
                 urbs s = u :: urbs (snd (usbTransferData buf size e s)).
Proof.
  unfold usbTransferData, usbIsHostAvailable, next_urb.
  mcases; mleaf s;
    first [left; reflexivity
          | right; eexists; eexists; split; [| reflexivity];
            match goal with
            | H : negb (?b && (?z =? 5)) = false |- _ =>
              apply negb_false_iff in H; apply andb_prop in H;
              destruct H as [Hb Hz]; apply Z.eqb_eq in Hz; rewrite Hb, Hz; reflexivity
            end].
Qed.

(** X13: the signals of [usbTransferData].  A transfer that succeeds
    sets neither the exit flag nor the timeout event and consumes one
    answer of the device server, whose transferred size is the size
    asked for.  The exit flag is set only while no session is started,
    the timeout event only while one is, and both only by a transfer
    that fails.  A call consumes at most one answer to a posted
    transfer, and none unless the host is available. *)
Theorem usbTransferData_signals (buf : option Buffer) (size : Z) (e : Direction)
  (s : State) :
  (fst (fst (usbTransferData buf size e s)) = true ->
   g_usbDetectionThreadExitFlag (snd (usbTransferData buf size e s))
   = g_usbDetectionThreadExitFlag s /\
   g_usbTimeoutEvent (snd (usbTransferData buf size e s)) = g_usbTimeoutEvent s /\
   exists u, urbs s = u :: urbs (snd (usbTransferData buf size e s)) /\
             u32 (urb_transferred_size u) = size) /\
  (g_usbDetectionThreadExitFlag (snd (usbTransferData buf size e s))
   = g_usbDetectionThreadExitFlag s \/
   g_usbSessionStarted s = false /\
   fst (fst (usbTransferData buf size e s)) = false /\
   g_usbDetectionThreadExitFlag (snd (usbTransferData buf size e s)) = true) /\
  (g_usbTimeoutEvent (snd (usbTransferData buf size e s)) = g_usbTimeoutEvent s \/
   g_usbSessionStarted s = true /\
   fst (fst (usbTransferData buf size e s)) = false /\
   g_usbTimeoutEvent (snd (usbTransferData buf size e s)) = true) /\
  (urbs (snd (usbTransferData buf size e s)) = urbs s \/
   exists u rest, ds_states s = (true, 5) :: rest /\
                  urbs s = u :: urbs (snd (usbTransferData buf size e s))).
Proof.
  split; [apply usbTransferData_success |].
  split; [apply usbTransferData_exit_flag |].
  split; [apply usbTransferData_timeout_event | apply usbTransferData_urbs].
Qed.

Lemma usbRead_transfer_buffer_some (size : Z) (s s' : State) :
  usbRead_transfer_buffer size s = (true, s') ->
  exists reply, g_usbTransferBuffer s' = Some reply.
Proof.
  unfold usbRead_transfer_buffer, usbRead, log_io. unfold bind, get, modify, ret.
  pose proof (usbTransferData_buffer (g_usbTransferBuffer s) size Out_endpoint s) as Hb.
  destruct (usbTransferData (g_usbTransferBuffer s) size Out_endpoint s) as [[ok b] s1] eqn:E.
  cbn [fst snd] in Hb. intro H. inversion H; subst. cbn.
  destruct b as [reply |]; [exists reply; reflexivity |].
  exfalso. destruct Hb as [_ Hb]. specialize (Hb eq_refl).
  rewrite Hb in E. unfold usbTransferData in E. unfold bind, get, ret in E.
  inversion E.
Qed.

(** A command that was acknowledged: its size was within bounds, it was
    written and its status was read, and the reply is in the transfer
    buffer. *)
Lemma usbSendCommand_acknowledged (h : Headers) (cmd_size : Z) (s s' : State) :
  usbSendCommand h cmd_size s = (UsbStatusType_Success, s') ->
  sizeof_UsbCommandHeader <= cmd_size <= USB_TRANSFER_BUFFER_SIZE h /\
  io_trace s' =
  (io_trace s ++ [mkIo In_endpoint cmd_size true;
                  mkIo Out_endpoint sizeof_UsbStatus true])%list.
Proof.
  intro H. destruct (g_usbTransferBuffer s) as [b |] eqn:Hbuf.
  2:{ rewrite (usbSendCommand_without_buffer h cmd_size s Hbuf) in H. discriminate. }
  rewrite (usbSendCommand_with_buffer h cmd_size s b Hbuf) in H. clear b Hbuf.
  unfold usbSendCommand_exchange in H.
  destruct ((cmd_size <? sizeof_UsbCommandHeader) || (cmd_size >? USB_TRANSFER_BUFFER_SIZE h))
    eqn:Hsize; [discriminate |].
  apply orb_false_elim in Hsize. destruct Hsize as [Hlo Hhi].
  apply Z.ltb_ge in Hlo. rewrite Z.gtb_ltb in Hhi. apply Z.ltb_ge in Hhi.
  split; [split; assumption |].
  unfold bind, get, ret in H.
  destruct (usbWrite (g_usbTransferBuffer s) cmd_size s) as [written s1] eqn:Ew.
  apply usbWrite_spec in Ew. destruct Ew as [_ [Tw _]].
  destruct written; cbn [negb] in H; [| discriminate].
  destruct (usbRead_transfer_buffer sizeof_UsbStatus s1) as [read s2] eqn:Er.
  apply usbRead_transfer_buffer_spec in Er. destruct Er as [_ Tr].
  destruct read; cbn [negb] in H; [| discriminate].
  assert (Hs : s2 = s').
  { destruct (g_usbTransferBuffer s2); [| discriminate].
    destruct (negb _); inversion H; reflexivity. }
  subst s'. rewrite Tr, Tw, <- app_assoc. reflexivity.
Qed.

(** X14: the exchanges of [usbSendCommand] in a state that has a
    transfer buffer.  A size outside the bounds is refused without any
    transfer.  Otherwise the command is written once; the status is
    read, once, only after a write that succeeded.  After two successful
    transfers the result is read off the reply in the transfer buffer:
    [UsbStatusType_InvalidMagicWord] unless its first four bytes are
    "NXDT" in wire order, and else the little-endian word at offset 4.
    A result of [UsbStatusType_Success] means that both transfers
    succeeded and that the reply has the magic word and the status
    word 0. *)
Theorem usbSendCommand_exchanges (h : Headers) (cmd_size : Z) (s s' : State)
  (status : Z) :
  g_usbTransferBuffer s <> None ->
  usbSendCommand h cmd_size s = (status, s') ->
  (cmd_size < sizeof_UsbCommandHeader \/ USB_TRANSFER_BUFFER_SIZE h < cmd_size ->
   status = UsbStatusType_InvalidCommandSize /\ s' = s) /\
  (sizeof_UsbCommandHeader <= cmd_size <= USB_TRANSFER_BUFFER_SIZE h ->
   exists written read,
     io_trace s' =
     (io_trace s ++
      mkIo In_endpoint cmd_size written ::
      (if written then [mkIo Out_endpoint sizeof_UsbStatus read] else []))%list /\
     (written = false -> status = UsbStatusType_WriteCommandFailed) /\
     (written = true -> read = false -> status = UsbStatusType_ReadStatusFailed) /\
     (written = true -> read = true ->
      exists reply,
        g_usbTransferBuffer s' = Some reply /\
        status =
        if wire_magic (window reply 0 (Z.to_nat sizeof_UsbStatus)) =? USB_CMD_HEADER_MAGIC
        then memcpy_u32 (window reply 0 (Z.to_nat sizeof_UsbStatus)) 4
        else UsbStatusType_InvalidMagicWord) /\
     (status = UsbStatusType_Success ->
      written = true /\ read = true /\
      exists reply,
        g_usbTransferBuffer s' = Some reply /\
        wire_magic (window reply 0 (Z.to_nat sizeof_UsbStatus)) = USB_CMD_HEADER_MAGIC /\
        memcpy_u32 (window reply 0 (Z.to_nat sizeof_UsbStatus)) 4
        = UsbStatusType_Success)).
Proof.
  intros Hbuf H.
  destruct (g_usbTransferBuffer s) as [b |] eqn:Hb; [| congruence].
  rewrite (usbSendCommand_with_buffer h cmd_size s b Hb) in H. clear Hbuf b Hb.
  unfold usbSendCommand_exchange in H. split.
  - intro Hout.
    replace ((cmd_size <? sizeof_UsbCommandHeader) || (cmd_size >? USB_TRANSFER_BUFFER_SIZE h))
      with true in H
      by (symmetry; apply orb_true_iff; rewrite Z.ltb_lt, Z.gtb_ltb, Z.ltb_lt; lia).
    inversion H. split; reflexivity.
  - intro Hin.
    replace ((cmd_size <? sizeof_UsbCommandHeader) || (cmd_size >? USB_TRANSFER_BUFFER_SIZE h))
      with false in H
      by (symmetry; apply orb_false_iff; rewrite Z.ltb_ge, Z.gtb_ltb, Z.ltb_ge; lia).
    unfold bind, get, ret in H.
    destruct (usbWrite (g_usbTransferBuffer s) cmd_size s) as [written s1] eqn:Ew.
    apply usbWrite_spec in Ew. destruct Ew as [_ [Tw _]].
    exists written.
    destruct written; cbn [negb] in H.
    + destruct (usbRead_transfer_buffer sizeof_UsbStatus s1) as [read s2] eqn:Er.
      pose proof (usbRead_transfer_buffer_spec _ _ _ _ Er) as [_ Tr].
      exists read.
      assert (Ht : io_trace s2 =
                   (io_trace s ++ [mkIo In_endpoint cmd_size true;
                                   mkIo Out_endpoint sizeof_UsbStatus read])%list)
        by (rewrite Tr, Tw, <- app_assoc; reflexivity).
      destruct read; cbn [negb] in H.
      * destruct (usbRead_transfer_buffer_some _ _ _ Er) as [reply Hreply].
        rewrite Hreply in H.
        destruct (UsbStatus_magic reply =? bswap32 USB_CMD_HEADER_MAGIC) eqn:Em;
          cbn [negb] in H; inversion H; subst.
        -- pose proof (proj1 (magic_check_wire reply) Em) as Hwire.
           split; [exact Ht |]. split; [discriminate |]. split; [discriminate |].
           split.
           ++ intros _ _. exists reply. split; [exact Hreply |].
              rewrite Hwire, Z.eqb_refl. reflexivity.
           ++ intro Hs. split; [reflexivity |]. split; [reflexivity |].
              exists reply. split; [exact Hreply |].
              split; [exact Hwire | exact Hs].
        -- assert (Hwire : (wire_magic (window reply 0 (Z.to_nat sizeof_UsbStatus))
                            =? USB_CMD_HEADER_MAGIC) = false).
           { apply Z.eqb_neq. intro Hc. apply magic_check_wire in Hc. congruence. }
           split; [exact Ht |]. split; [discriminate |]. split; [discriminate |].
           split; [| discriminate].
           intros _ _. exists reply. split; [exact Hreply |].
           rewrite Hwire. reflexivity.
      * inversion H; subst. split; [exact Ht |]. split; [discriminate |].
        split; [reflexivity |]. split; discriminate.
    + inversion H; subst. exists false. split; [exact Tw |].
      split; [reflexivity |]. split; [discriminate |]. split; discriminate.
Qed.

Lemma session_command_sent :
  usbSendCommand nx_usb_headers SendFileProperties_cmd_size
    (snd (usbSendFileProperties_prepare 0x2000 (Some "dump.bin"%string)
            (with_platform [(true, 5); (true, 5)]
               [urb_done 0x330 []; urb_done 16 ack] session_state)))
  = (UsbStatusType_Success, set_remaining 0 file_state).
Proof. vm_compute. reflexivity. Qed.

Lemma session_command_buffer :
  g_usbTransferBuffer
    (snd (usbSendFileProperties_prepare 0x2000 (Some "dump.bin"%string)
            (with_platform [(true, 5); (true, 5)]
               [urb_done 0x330 []; urb_done 16 ack] session_state))) <> None.
Proof. vm_compute. discriminate. Qed.

Lemma usbSendCommand_exchanges_witness :
  exists written read,
    io_trace (set_remaining 0 file_state) =
    (io_trace session_state ++
     mkIo In_endpoint SendFileProperties_cmd_size written ::
     (if written then [mkIo Out_endpoint sizeof_UsbStatus read] else []))%list /\
    written = true /\ read = true.
Proof.
  destruct (usbSendCommand_exchanges nx_usb_headers _ _ _ _
              session_command_buffer session_command_sent)
    as [_ Hin].
  destruct Hin as [written [read [Ht [_ [_ [_ Hs]]]]]].
  - vm_compute. split; discriminate.
  - exists written, read. destruct (Hs eq_refl) as [Hw [Hr _]].
    split; [exact Ht |]. split; assumption.
Defined.

Lemma usbTransferData_signals_witness :
  g_usbDetectionThreadExitFlag
    (snd (usbTransferData (Some (zero_buffer 0x10000)) 32 In_endpoint
            (with_platform [(true, 5)] [urb_interrupted] initialized_state))) = true /\
  g_usbTimeoutEvent
    (snd (usbTransferData (Some (zero_buffer 0x10000)) 32 In_endpoint
            (with_platform [(true, 5)] [urb_timeout] session_state))) = true.
Proof.
  split.
  - destruct (proj1 (proj2 (usbTransferData_signals (Some (zero_buffer 0x10000)) 32
                              In_endpoint
                              (with_platform [(true, 5)] [urb_interrupted]
                                 initialized_state))))
      as [H | [_ [_ H]]]; [vm_compute in H; discriminate | exact H].
  - destruct (proj1 (proj2 (proj2 (usbTransferData_signals (Some (zero_buffer 0x10000)) 32
                                     In_endpoint
                                     (with_platform [(true, 5)] [urb_timeout]
                                        session_state)))))
      as [H | [_ [_ H]]]; [vm_compute in H; discriminate | exact H].
Defined.

(** *** Sending a file in chunks *)

Lemma usbSendFileData_pending (h : Headers) (data : option Buffer) (n : Z) (s : State) :
  fst (usbSendFileData h data n s) = true -> g_usbTransferRemainingSize s <> 0.
Proof.
  unfold usbSendFileData. unfold bind, get.
  destruct data as [d |]; [| rewrite usbSendFileData_end_spec; discriminate].
  destruct (g_usbTransferRemainingSize s =? 0) eqn:E.
  - rewrite !orb_true_r. cbn [orb]. rewrite usbSendFileData_end_spec. discriminate.
  - intros _. apply Z.eqb_neq. exact E.
Qed.

Lemma send_chunks_pending (h : Headers) (chunks : list (option Buffer * Z))
  (s s' : State) :
  send_chunks h chunks s = (true, s') -> chunks <> [] ->
  g_usbTransferRemainingSize s <> 0.
Proof.
  destruct chunks as [| [d n] more]; [congruence |]. intros H _.
  cbn [send_chunks] in H. unfold bind in H.
  destruct (usbSendFileData h d n s) as [sent s1] eqn:E.
  destruct sent; [| discriminate].
  apply (usbSendFileData_pending h d n). rewrite E. reflexivity.
Qed.

(** X15: a file sent in chunks.  When every call of a sequence of
    [usbSendFileData] calls succeeds, the chunks add up to no more than
    what was pending, the pending size has dropped by their sum, every
    chunk was written once and in order, and the status block was read
    exactly once, after the last chunk, if and only if nothing is
    pending any more. *)
Theorem usbSendFileData_chunks (h : Headers) (chunks : list (option Buffer * Z))
  (s s' : State) :
  Forall (fun chunk => 0 <= snd chunk) chunks ->
  0 <= g_usbTransferRemainingSize s < 2 ^ 64 ->
  send_chunks h chunks s = (true, s') ->
  chunks_size chunks <= g_usbTransferRemainingSize s /\
  g_usbTransferRemainingSize s' = g_usbTransferRemainingSize s - chunks_size chunks /\
  g_usbHostAvailable s' = g_usbHostAvailable s /\
  g_usbSessionStarted s' = g_usbSessionStarted s /\
  io_trace s' =
  (io_trace s ++ map (fun chunk => mkIo In_endpoint (snd chunk) true) chunks
   ++ (if (g_usbTransferRemainingSize s' =? 0) && negb (List.length chunks =? 0)%nat
       then [mkIo Out_endpoint sizeof_UsbStatus true] else []))%list.
Proof.
  revert s. induction chunks as [| [d n] more IH]; intros s HF Hr H.
  - cbn in H. inversion H; subst s'. cbn [chunks_size fold_right map List.length].
    rewrite andb_false_r, app_nil_r.
    repeat split; solve [reflexivity | lia].
  - inversion HF as [| c cs Hn HF']; subst. cbn [snd] in Hn.
    cbn [send_chunks] in H. unfold bind in H.
    destruct (usbSendFileData h d n s) as [sent s1] eqn:E.
    destruct sent; [| discriminate].
    destruct (usbSendFileData_cases h d n s s1 true E) as [Hh [Hs [_ Hok]]].
    destruct (Hok eq_refl) as [_ [_ [Hn0 [_ [Hle [Hrem Ht]]]]]].
    rewrite u64_small in Hrem by lia.
    destruct (IH s1 HF' ltac:(lia) H) as [Hsum [Hrem' [Hh' [Hs' Ht']]]].
    cbn [chunks_size fold_right snd map List.length]. fold (chunks_size more).
    split; [lia |]. split; [lia |].
    split; [congruence |]. split; [congruence |].
    rewrite Ht', Ht. cbn [Nat.eqb negb]. rewrite andb_true_r.
    destruct more as [| c more].
    + cbn in H. inversion H; subst s'. cbn [map List.length Nat.eqb negb app].
      rewrite andb_false_r, app_nil_r. reflexivity.
    + assert (Hp : g_usbTransferRemainingSize s1 <> 0)
        by (apply (send_chunks_pending h (c :: more) s1 s' H); discriminate).
      apply Z.eqb_neq in Hp. rewrite Hp.
      cbn [List.length Nat.eqb negb]. rewrite andb_true_r.
      rewrite <- app_assoc. reflexivity.
Qed.

Lemma sample_chunks_sent :
  send_chunks nx_usb_headers sample_chunks chunked_state = (true, chunked_done).
Proof.
  assert (H : fst (send_chunks nx_usb_headers sample_chunks chunked_state) = true)
    by (vm_compute; reflexivity).
  unfold chunked_done.
  destruct (send_chunks nx_usb_headers sample_chunks chunked_state) as [ok s1].
  cbn in *. subst ok. reflexivity.
Qed.

Lemma usbSendFileData_chunks_witness :
  g_usbTransferRemainingSize chunked_done
  = g_usbTransferRemainingSize chunked_state - chunks_size sample_chunks /\
  io_trace chunked_done =
  (io_trace chunked_state
   ++ map (fun chunk => mkIo In_endpoint (snd chunk) true) sample_chunks
   ++ (if (g_usbTransferRemainingSize chunked_done =? 0)
          && negb (List.length sample_chunks =? 0)%nat
       then [mkIo Out_endpoint sizeof_UsbStatus true] else []))%list.
Proof.
  destruct (usbSendFileData_chunks nx_usb_headers sample_chunks chunked_state chunked_done)
    as [_ [Hrem [_ [_ Ht]]]].
  - repeat constructor; cbn; lia.
  - vm_compute. split; [discriminate | reflexivity].
  - exact sample_chunks_sent.
  - split; [exact Hrem | exact Ht].
Defined.

(** *** The session *)

Lemma usbIsHostAvailable_frame (s : State) :
  same_session s (snd (usbIsHostAvailable s)) /\
  io_trace (snd (usbIsHostAvailable s)) = io_trace s /\
  g_usbDetectionThreadExitFlag (snd (usbIsHostAvailable s))
  = g_usbDetectionThreadExitFlag s.
Proof.
  unfold usbIsHostAvailable, same_session.
  destruct (ds_states s) as [| [rc_ok state] rest]; cbn; repeat split.
Qed.

Lemma usbEndSession_trace (s : State) :
  exists ok,
    io_trace (snd (usbEndSession s)) =
    (io_trace s ++
     (if comms_ready s && g_usbHostAvailable s && g_usbSessionStarted s
      then [mkIo In_endpoint sizeof_UsbCommandHeader ok] else []))%list.
Proof.
  unfold usbEndSession. unfold bind, get, ret.
  destruct (comms_ready s), (g_usbHostAvailable s), (g_usbSessionStarted s);
    cbn [negb orb andb];
    try (exists true; cbn [snd]; rewrite app_nil_r; reflexivity).
  pose proof (usbPrepareCommandHeader_spec UsbCommandType_EndSession 0 s) as [_ T1].
  destruct (usbPrepareCommandHeader _ _ s) as [[] s1]. cbn [snd] in T1.
  destruct (usbWrite (g_usbTransferBuffer s1) sizeof_UsbCommandHeader s1) as [w s2] eqn:Ew.
  apply usbWrite_spec in Ew. destruct Ew as [_ [Tw _]]. cbn [snd].
  exists w. rewrite Tw, T1. reflexivity.
Qed.

(** The state after the lines that follow the loop of the detection
    thread. *)
Lemma usbDetectionThread_exit_state (s : State) :
  g_usbHostAvailable (snd (usbDetectionThread_exit s)) = false /\
  g_usbSessionStarted (snd (usbDetectionThread_exit s)) = false /\
  g_usbDetectionThreadExitFlag (snd (usbDetectionThread_exit s)) = false /\
  g_usbTransferRemainingSize (snd (usbDetectionThread_exit s)) = 0 /\
  comms_ready (snd (usbDetectionThread_exit s)) = comms_ready s /\
  exists ok,
    io_trace (snd (usbDetectionThread_exit s)) =
    (io_trace s ++
     (if comms_ready s && g_usbHostAvailable s && g_usbSessionStarted s
      then [mkIo In_endpoint sizeof_UsbCommandHeader ok] else []))%list.
Proof.
  unfold usbDetectionThread_exit. unfold bind, get, modify.
  destruct (g_usbHostAvailable s && g_usbSessionStarted s) eqn:E.
  - pose proof (usbEndSession_frame s) as [_ [_ [_ Hc]]].
    destruct (usbEndSession_trace s) as [ok Ht].
    destruct (usbEndSession s) as [[] s1]. cbn [snd] in *.
    repeat split; try reflexivity; [exact Hc |].
    exists ok. exact Ht.
  - cbn [snd]. repeat split; try reflexivity.
    exists true. rewrite <- andb_assoc, E, andb_false_r, app_nil_r. reflexivity.
Qed.

(** The turn of the loop that sees the exit event runs the lines after
    the loop. *)
Lemma turn_exit (h : Headers) (s : State) :
  usbDetectionThread_turn h (true, 2) s = (false, snd (usbDetectionThread_exit s)).
Proof.
  unfold usbDetectionThread_turn. cbn [negb Z.eqb Pos.eqb]. unfold bind, ret.
  destruct (usbDetectionThread_exit s) as [[] s1]. reflexivity.
Qed.

(** X16: the exit event ends the detection thread.  The turn of the loop
    that sees it leaves the loop; afterwards the host and session flags
    and the exit flag are false and nothing is pending.  At most one
    transfer is attempted on the way: the write of the 16-byte
    [EndSession] header, and only if a session was up.  Nothing is
    read. *)
Theorem usbDetectionThread_exit_event (h : Headers) (s : State) :
  fst (usbDetectionThread_turn h (true, 2) s) = false /\
  g_usbHostAvailable (snd (usbDetectionThread_turn h (true, 2) s)) = false /\
  g_usbSessionStarted (snd (usbDetectionThread_turn h (true, 2) s)) = false /\
  g_usbDetectionThreadExitFlag (snd (usbDetectionThread_turn h (true, 2) s)) = false /\
  g_usbTransferRemainingSize (snd (usbDetectionThread_turn h (true, 2) s)) = 0 /\
  exists ok,
    io_trace (snd (usbDetectionThread_turn h (true, 2) s)) =
    (io_trace s ++
     (if comms_ready s && g_usbHostAvailable s && g_usbSessionStarted s
      then [mkIo In_endpoint sizeof_UsbCommandHeader ok] else []))%list.
Proof.
  rewrite turn_exit. cbn [fst snd].
  pose proof (usbDetectionThread_exit_state s) as [Hh [Hs [He [Hr [_ Ht]]]]].
  repeat split; assumption.
Qed.

Lemma usbStartSession_started (h : Headers) (s s' : State) :
  usbStartSession h s = (true, s') ->
  comms_ready s = true /\
  io_trace s' =
  (io_trace s ++
   [mkIo In_endpoint (sizeof_UsbCommandHeader + sizeof_UsbCommandStartSession) true;
    mkIo Out_endpoint sizeof_UsbStatus true])%list.
Proof.
  unfold usbStartSession. unfold bind, get, ret. intro H.
  destruct (comms_ready s); cbn [negb] in H; [| discriminate].
  split; [reflexivity |].
  pose proof (usbPrepareCommandHeader_spec UsbCommandType_StartSession
                sizeof_UsbCommandStartSession s) as [_ T1].
  destruct (usbPrepareCommandHeader _ _ s) as [[] s1]. cbn [snd] in T1.
  match type of H with
  | context [update_buffer ?f s1] =>
    pose proof (update_buffer_spec f s1) as [_ T2];
    destruct (update_buffer f s1) as [[] s2]
  end.
  cbn [snd] in T2.
  destruct (usbSendCommand h _ s2) as [status s3] eqn:Ec.
  inversion H as [[Hst Hs']]. subst s3. apply Z.eqb_eq in Hst. subst status.
  destruct (usbSendCommand_acknowledged h _ s2 s' Ec) as [_ Ht].
  rewrite Ht, T2, T1. reflexivity.
Qed.

(** The flags after a turn of the loop on a state change or a timeout. *)
Lemma turn_flags (h : Headers) (idx : Z) (s : State) :
  idx <> 2 ->
  g_usbTransferRemainingSize (snd (usbDetectionThread_turn h (true, idx) s)) = 0 /\
  (g_usbSessionStarted (snd (usbDetectionThread_turn h (true, idx) s)) = true ->
   g_usbHostAvailable (snd (usbDetectionThread_turn h (true, idx) s)) = true) /\
  (fst (usbDetectionThread_turn h (true, idx) s) = false ->
   g_usbHostAvailable (snd (usbDetectionThread_turn h (true, idx) s)) = false /\
   g_usbSessionStarted (snd (usbDetectionThread_turn h (true, idx) s)) = false /\
   g_usbDetectionThreadExitFlag (snd (usbDetectionThread_turn h (true, idx) s)) = false).
Proof.
  intro Hidx. apply Z.eqb_neq in Hidx.
  destruct (usbDetectionThread_turn h (true, idx) s) as [waiting s'] eqn:E.
  unfold usbDetectionThread_turn in E. cbn [negb] in E. rewrite Hidx in E.
  unfold bind at 1 in E. destruct (usbIsHostAvailable s) as [available s0].
  cbn [fst snd].
  unfold bind at 1 2 3 in E. unfold modify at 1 2 3 in E.
  destruct available.
  - unfold bind at 1 in E.
    match type of E with
    | context [usbStartSession h ?st] =>
      destruct (usbStartSession h st) as [started s1] eqn:Es;
      pose proof (usbStartSession_frame h _ _ _ Es) as [F1 [F2 [F3 _]]]; cbn in F1, F2, F3
    end.
    unfold bind at 1 2 in E. unfold modify at 1 in E. unfold get in E.
    cbn [g_usbDetectionThreadExitFlag set_session] in E.
    destruct started; cbn [negb andb] in E.
    + unfold ret in E. inversion E; subst waiting s'. clear E. cbn.
      split; [exact F3 |]. split; [intros _; exact F1 | discriminate].
    + destruct (g_usbDetectionThreadExitFlag s1).
      * unfold bind, ret in E.
        pose proof (usbDetectionThread_exit_state (set_session false s1))
          as [Hh [Hs [He [Hr _]]]].
        destruct (usbDetectionThread_exit (set_session false s1)) as [[] s2].
        cbn [fst snd] in *. inversion E; subst waiting s'. clear E.
        split; [exact Hr |].
        split; [intro Hc; rewrite Hs in Hc; discriminate |].
        intros _. repeat split; assumption.
      * unfold ret in E. inversion E; subst waiting s'. clear E. cbn.
        split; [exact F3 |]. split; discriminate.
  - unfold ret in E. inversion E; subst waiting s'. clear E. cbn.
    split; [reflexivity |]. split; discriminate.
Qed.

(** X17: a state change or a timeout restarts the session.  After such
    a turn of the detection loop nothing is pending.  A session is up
    afterwards only if the host was found, [StartSession] was written
    (32 bytes) and its status was read (16 bytes), both successfully;
    the thread then keeps waiting.  When the host is not there the
    flags are cleared without any transfer.  When the turn ends the
    thread, the host, session and exit flags are false. *)
Theorem usbDetectionThread_state_change (h : Headers) (idx : Z) (s : State) :
  idx <> 2 ->
  g_usbTransferRemainingSize (snd (usbDetectionThread_turn h (true, idx) s)) = 0 /\
  (g_usbSessionStarted (snd (usbDetectionThread_turn h (true, idx) s)) = true ->
   fst (usbDetectionThread_turn h (true, idx) s) = true /\
   g_usbHostAvailable (snd (usbDetectionThread_turn h (true, idx) s)) = true /\
   fst (usbIsHostAvailable s) = true /\
   io_trace (snd (usbDetectionThread_turn h (true, idx) s)) =
   (io_trace s ++
    [mkIo In_endpoint (sizeof_UsbCommandHeader + sizeof_UsbCommandStartSession) true;
     mkIo Out_endpoint sizeof_UsbStatus true])%list) /\
  (fst (usbIsHostAvailable s) = false ->
   fst (usbDetectionThread_turn h (true, idx) s) = true /\
   g_usbHostAvailable (snd (usbDetectionThread_turn h (true, idx) s)) = false /\
   g_usbSessionStarted (snd (usbDetectionThread_turn h (true, idx) s)) = false /\
   io_trace (snd (usbDetectionThread_turn h (true, idx) s)) = io_trace s) /\
  (fst (usbDetectionThread_turn h (true, idx) s) = false ->
   g_usbHostAvailable (snd (usbDetectionThread_turn h (true, idx) s)) = false /\
   g_usbSessionStarted (snd (usbDetectionThread_turn h (true, idx) s)) = false /\
   g_usbDetectionThreadExitFlag (snd (usbDetectionThread_turn h (true, idx) s)) = false).
Proof.
  intro Hidx. apply Z.eqb_neq in Hidx.
  pose proof (usbIsHostAvailable_frame s) as [_ [Ta _]].
  destruct (usbDetectionThread_turn h (true, idx) s) as [waiting s'] eqn:E.
  unfold usbDetectionThread_turn in E. cbn [negb] in E. rewrite Hidx in E.
  unfold bind at 1 in E. destruct (usbIsHostAvailable s) as [available s0].
  cbn [fst snd] in Ta |- *.
  unfold bind at 1 2 3 in E. unfold modify at 1 2 3 in E.
  destruct available.
  - unfold bind at 1 in E.
    match type of E with
    | context [usbStartSession h ?st] =>
      destruct (usbStartSession h st) as [started s1] eqn:Es;
      pose proof (usbStartSession_frame h _ _ _ Es) as [F1 [F2 [F3 _]]]; cbn in F1, F2, F3
    end.
    unfold bind at 1 2 in E. unfold modify at 1 in E. unfold get in E.
    cbn [g_usbDetectionThreadExitFlag set_session] in E.
    destruct started; cbn [negb andb] in E.
    + apply usbStartSession_started in Es. destruct Es as [_ Ts].
      cbn [io_trace set_remaining set_session set_host] in Ts.
      unfold ret in E. inversion E; subst waiting s'. clear E. cbn.
      split; [exact F3 |].
      split; [intros _; split; [reflexivity |]; split; [exact F1 |];
              split; [reflexivity |]; rewrite Ts, Ta; reflexivity |].
      split; discriminate.
    + destruct (g_usbDetectionThreadExitFlag s1).
      * unfold bind, ret in E.
        pose proof (usbDetectionThread_exit_state (set_session false s1))
          as [Hh [Hs [He [Hr _]]]].
        destruct (usbDetectionThread_exit (set_session false s1)) as [[] s2].
        cbn [fst snd] in *. inversion E; subst waiting s'. clear E.
        split; [exact Hr |].
        split; [intro Hc; rewrite Hs in Hc; discriminate |].
        split; [discriminate |].
        intros _. repeat split; assumption.
      * unfold ret in E. inversion E; subst waiting s'. clear E. cbn.
        split; [exact F3 |].
        split; discriminate || (split; discriminate).
  - unfold ret in E. inversion E; subst waiting s'. clear E. cbn.
    split; [reflexivity |].
    split; [discriminate |].
    split; [intros _; repeat split; exact Ta |]. discriminate.
Qed.

Lemma usbDetectionThread_state_change_witness :
  g_usbSessionStarted session_state = true /\
  io_trace session_state =
  (io_trace
     (with_platform [(true, 5); (true, 5); (true, 5)]
        [urb_done 32 []; urb_done 16 ack] initialized_state) ++
   [mkIo In_endpoint (sizeof_UsbCommandHeader + sizeof_UsbCommandStartSession) true;
    mkIo Out_endpoint sizeof_UsbStatus true])%list.
Proof.
  unfold session_state.
  destruct (usbDetectionThread_state_change nx_usb_headers 0
              (with_platform [(true, 5); (true, 5); (true, 5)]
                 [urb_done 32 []; urb_done 16 ack] initialized_state))
    as [_ [Hstart _]]; [discriminate |].
  assert (Hs : g_usbSessionStarted
                 (snd (usbDetectionThread_turn nx_usb_headers (true, 0)
                         (with_platform [(true, 5); (true, 5); (true, 5)]
                            [urb_done 32 []; urb_done 16 ack] initialized_state))) = true)
    by (vm_compute; reflexivity).
  split; [exact Hs |].
  destruct (Hstart Hs) as [_ [_ [_ Ht]]]. exact Ht.
Defined.

(** *** Reachable states *)

Lemma step_session_needs_host (h : Headers) (s s' : State) :
  step h s s' -> session_needs_host s -> session_needs_host s'.
Proof.
  intros Hstep Hinv. unfold session_needs_host in *.
  destruct Hstep as [s states answers file_size filename
                    | s states answers data data_size
                    | s states answers wake].
  - destruct (usbSendFileProperties h file_size filename (with_platform states answers s))
      as [r s'] eqn:E.
    apply usbSendFileProperties_cases in E. destruct E as [E1 [E2 _]].
    cbn [snd]. cbn in E1, E2. rewrite E1, E2. exact Hinv.
  - destruct (usbSendFileData h data data_size (with_platform states answers s))
      as [r s'] eqn:E.
    apply usbSendFileData_cases in E. destruct E as [E1 [E2 _]].
    cbn [snd]. cbn in E1, E2. rewrite E1, E2. exact Hinv.
  - destruct wake as [rc_ok idx]. destruct rc_ok; [| exact Hinv].
    destruct (Z.eq_dec idx 2) as [-> | Hidx].
    + rewrite turn_exit. cbn [snd].
      destruct (usbDetectionThread_exit_state (with_platform states answers s))
        as [_ [Hs _]].
      intro Hc. rewrite Hs in Hc. discriminate.
    + destruct (turn_flags h idx (with_platform states answers s) Hidx)
        as [_ [Hstart _]].
      exact Hstart.
Qed.

(** X18: in every reachable state a started session has a host, so
    [usbIsReady], which changes nothing, answers with the session
    flag. *)
Theorem reachable_session_needs_host (h : Headers) (s : State) :
  reachable h s ->
  session_needs_host s /\ usbIsReady s = (g_usbSessionStarted s, s).
Proof.
  intro Hr.
  assert (Hinv : session_needs_host s).
  { induction Hr as [s [_ [Hs _]] | s s' _ IH Hstep].
    - intro Hc. rewrite Hs in Hc. discriminate.
    - exact (step_session_needs_host h s s' Hstep IH). }
  split; [exact Hinv |].
  unfold usbIsReady, bind, get, ret. unfold session_needs_host in Hinv.
  destruct (g_usbSessionStarted s); [rewrite (Hinv eq_refl); reflexivity |].
  rewrite andb_false_r. reflexivity.
Qed.

Lemma reachable_session_needs_host_witness :
  session_needs_host file_state /\
  usbIsReady file_state = (g_usbSessionStarted file_state, file_state).
Proof. exact (reachable_session_needs_host nx_usb_headers file_state file_state_reachable). Defined.

(** *** Announcing a file *)

Lemma usbSendFileProperties_prepare_trace (file_size : Z) (filename : option string)
  (s : State) :
  io_trace (snd (usbSendFileProperties_prepare file_size filename s)) = io_trace s.
Proof.
  unfold usbSendFileProperties_prepare. unfold bind.
  pose proof (usbPrepareCommandHeader_spec UsbCommandType_SendFileProperties
                (u32 sizeof_UsbCommandSendFileProperties) s) as [_ T1].
  destruct (usbPrepareCommandHeader _ _ s) as [[] s1]. cbn [snd] in T1.
  match goal with
  | |- context [update_buffer ?f s1] =>
    pose proof (update_buffer_spec f s1) as [_ T2]
  end.
  rewrite T2. exact T1.
Qed.

(** X19: announcing a file.  A call that the parameter check refuses,
    for instance while a file is still pending, returns false and leaves
    the state as it is.  A call that succeeds found nothing pending and a
    name of 1 to 0x300 characters, wrote the command of 0x330 bytes
    once, read the status once, and leaves the announced size pending. *)
Theorem usbSendFileProperties_protocol (h : Headers) (file_size : Z)
  (filename : option string) (s : State) :
  (usbSendFileProperties_refused filename s = true ->
   usbSendFileProperties h file_size filename s = (false, s)) /\
  (0 < g_usbTransferRemainingSize s ->
   usbSendFileProperties_refused filename s = true) /\
  (fst (usbSendFileProperties h file_size filename s) = true ->
   g_usbTransferRemainingSize s <= 0 /\
   0 < filename_length_of filename < FS_MAX_PATH /\
   g_usbTransferRemainingSize (snd (usbSendFileProperties h file_size filename s))
   = file_size /\
   io_trace (snd (usbSendFileProperties h file_size filename s)) =
   (io_trace s ++ [mkIo In_endpoint SendFileProperties_cmd_size true;
                   mkIo Out_endpoint sizeof_UsbStatus true])%list).
Proof.
  split; [| split].
  - intro Hr. unfold usbSendFileProperties. unfold bind, get, ret. rewrite Hr. reflexivity.
  - intro Hp. unfold usbSendFileProperties_refused.
    replace (g_usbTransferRemainingSize s >? 0) with true
      by (symmetry; rewrite Z.gtb_ltb; apply Z.ltb_lt; exact Hp).
    rewrite !orb_true_r. reflexivity.
  - intro Hok.
    destruct (usbSendFileProperties_refused filename s) eqn:Hr.
    { unfold usbSendFileProperties in Hok. unfold bind, get, ret in Hok.
      rewrite Hr in Hok. discriminate. }
    assert (Hparams : g_usbTransferRemainingSize s <= 0 /\
                      0 < filename_length_of filename < FS_MAX_PATH).
    { unfold usbSendFileProperties_refused in Hr.
      repeat match type of Hr with
             | _ || _ = false => apply orb_false_elim in Hr; destruct Hr as [Hr ?]
             end.
      repeat match goal with
             | H : (_ >? _) = false |- _ => rewrite Z.gtb_ltb in H; apply Z.ltb_ge in H
             | H : (_ >=? _) = false |- _ => rewrite Z.geb_leb in H; apply Z.leb_gt in H
             | H : (_ =? _) = false |- _ => apply Z.eqb_neq in H
             end.
      assert (0 <= filename_length_of filename)
        by (unfold filename_length_of; destruct filename; [apply Z.mod_pos_bound |]; lia).
      lia. }
    destruct Hparams as [Hrem Hname].
    destruct (usbSendCommand h SendFileProperties_cmd_size
                (snd (usbSendFileProperties_prepare file_size filename s)))
      as [status s1] eqn:Ec.
    rewrite (usbSendFileProperties_status h file_size filename s s1 status Hr Ec) in Hok |- *.
    destruct (status =? UsbStatusType_Success) eqn:Es; [| discriminate].
    apply Z.eqb_eq in Es. subst status. cbn [fst snd].
    split; [exact Hrem |]. split; [exact Hname |]. split; [reflexivity |].
    destruct (usbSendCommand_acknowledged h _ _ _ Ec) as [_ Ht].
    cbn [io_trace set_remaining]. rewrite Ht, usbSendFileProperties_prepare_trace.
    reflexivity.
Qed.

Lemma file_announced :
  fst (usbSendFileProperties nx_usb_headers 0x2000 (Some "dump.bin"%string)
         (with_platform [(true, 5); (true, 5)]
            [urb_done 0x330 []; urb_done 16 ack] session_state)) = true.
Proof. vm_compute. reflexivity. Qed.

Lemma usbSendFileProperties_protocol_witness :
  g_usbTransferRemainingSize file_state = 0x2000 /\
  io_trace file_state =
  (io_trace (with_platform [(true, 5); (true, 5)]
               [urb_done 0x330 []; urb_done 16 ack] session_state)
   ++ [mkIo In_endpoint SendFileProperties_cmd_size true;
       mkIo Out_endpoint sizeof_UsbStatus true])%list /\
  usbSendFileProperties nx_usb_headers 0x1000 (Some "next.bin"%string) file_state
  = (false, file_state).
Proof.
  unfold file_state at 1 2.
  destruct (usbSendFileProperties_protocol nx_usb_headers 0x2000 (Some "dump.bin"%string)
              (with_platform [(true, 5); (true, 5)]
                 [urb_done 0x330 []; urb_done 16 ack] session_state))
    as [_ [_ Hok]].
  destruct (Hok file_announced) as [_ [_ [Hrem Ht]]].
  split; [exact Hrem |]. split; [exact Ht |].
  destruct (usbSendFileProperties_protocol nx_usb_headers 0x1000 (Some "next.bin"%string)
              file_state) as [Hrefused [Hpending _]].
  apply Hrefused. apply Hpending. vm_compute. reflexivity.
Defined.

(** *** Shutting down *)

Lemma usbExit_locked_state (s : State) :
  g_usbTransferBuffer (snd (usbExit_locked s)) = None /\
  g_usbDeviceInterfaceInitialized (snd (usbExit_locked s)) = false /\
  g_usbDeviceInterface_initialized (snd (usbExit_locked s)) = false /\
  g_usbHostAvailable (snd (usbExit_locked s)) = g_usbHostAvailable s /\
  g_usbSessionStarted (snd (usbExit_locked s)) = g_usbSessionStarted s /\
  g_usbTransferRemainingSize (snd (usbExit_locked s)) = g_usbTransferRemainingSize s /\
  io_trace (snd (usbExit_locked s)) = io_trace s /\
  snd (usbExit_locked (snd (usbExit_locked s))) = snd (usbExit_locked s).
Proof.
  unfold usbExit_locked, usbCloseComms, usbFreeDeviceInterface, usbFreeTransferBuffer.
  unfold bind, get, modify, ret.
  destruct s as [buf flag initialized ep_in ep_out zlt host session exit_flag remaining
                 timeout trace states answers].
  cbn. destruct initialized, buf; cbn; repeat split; reflexivity.
Qed.

(** X20: after the locked part of [usbExit] (the interface closed, the
    transfer buffer freed) the engine refuses every call without a
    transfer: announcing a file and starting a session return false and
    leave the state as it is, sending data returns false and only clears
    the pending size, and ending a session does nothing.  Shutting down
    twice is the same as once. *)
Theorem usbExit_locked_refuses (h : Headers) (s : State) :
  g_usbTransferBuffer (snd (usbExit_locked s)) = None /\
  comms_ready (snd (usbExit_locked s)) = false /\
  io_trace (snd (usbExit_locked s)) = io_trace s /\
  snd (usbExit_locked (snd (usbExit_locked s))) = snd (usbExit_locked s) /\
  (forall file_size filename,
     usbSendFileProperties h file_size filename (snd (usbExit_locked s))
     = (false, snd (usbExit_locked s))) /\
  (forall data data_size,
     usbSendFileData h data data_size (snd (usbExit_locked s))
     = (false, set_remaining 0 (snd (usbExit_locked s)))) /\
  usbStartSession h (snd (usbExit_locked s)) = (false, snd (usbExit_locked s)) /\
  usbEndSession (snd (usbExit_locked s)) = (tt, snd (usbExit_locked s)).
Proof.
  destruct (usbExit_locked_state s) as [Hb [Hf [_ [_ [_ [_ [Ht Hi]]]]]]].
  set (s' := snd (usbExit_locked s)) in *.
  assert (Hc : comms_ready s' = false)
    by (unfold comms_ready; rewrite Hb; reflexivity).
  split; [exact Hb |]. split; [exact Hc |]. split; [exact Ht |]. split; [exact Hi |].
  split; [| split; [| split]].
  - intros file_size filename. unfold usbSendFileProperties, bind, get, ret.
    unfold usbSendFileProperties_refused. rewrite Hc. reflexivity.
  - intros data data_size. unfold usbSendFileData. unfold bind, get. rewrite Hc.
    destruct data; cbn [negb orb]; rewrite usbSendFileData_end_spec; reflexivity.
  - unfold usbStartSession, bind, get, ret. rewrite Hc. reflexivity.
  - unfold usbEndSession, bind, get, ret. rewrite Hc. reflexivity.
Qed.

(** *** Staging unaligned data *)

Lemma window_copy_from (b d : Buffer) (n : Z) :
  window (copy_from b d n) 0 (Z.to_nat n) = window d 0 (Z.to_nat n).
Proof.
  unfold window. apply map_ext_in. intros k Hk. apply in_seq in Hk.
  cbn [byte_at copy_from].
  replace ((0 <=? 0 + Z.of_nat k) && (0 + Z.of_nat k <? n)) with true; [reflexivity |].
  symmetry. apply andb_true_iff. split; [apply Z.leb_le | apply Z.ltb_lt]; lia.
Qed.

Lemma usbSendFileData_buffer (h : Headers) (d : Buffer) (n : Z) (s s' : State) :
  usbSendFileData h (Some d) n s = (true, s') ->
  g_usbTransferRemainingSize s' <> 0 ->
  exists b,
    g_usbTransferBuffer s = Some b /\
    g_usbTransferBuffer s' =
    Some (if IS_ALIGNED (addr d) USB_TRANSFER_ALIGNMENT then b else copy_from b d n).
Proof.
  unfold usbSendFileData. unfold bind at 1 2 3 4. unfold get. intros H Hrem.
  destruct (negb (comms_ready s) || negb (g_usbHostAvailable s)
            || negb (g_usbSessionStarted s) || (g_usbTransferRemainingSize s =? 0)
            || (n =? 0) || (n >? USB_TRANSFER_BUFFER_SIZE h)
            || (n >? g_usbTransferRemainingSize s)) eqn:Hg.
  { rewrite usbSendFileData_end_spec in H. discriminate. }
  repeat (apply orb_false_elim in Hg; destruct Hg as [Hg ?]).
  apply negb_false_iff in Hg. unfold comms_ready in Hg.
  destruct (g_usbTransferBuffer s) as [b |] eqn:Hb; [| discriminate].
  exists b. split; [reflexivity |].
  unfold bind at 1 in H.
  assert (Hstage : exists s0,
             (if IS_ALIGNED (addr d) USB_TRANSFER_ALIGNMENT then ret (Some d)
              else bind (update_buffer (fun b => copy_from b d n))
                     (fun _ => get g_usbTransferBuffer)) s
             = (if IS_ALIGNED (addr d) USB_TRANSFER_ALIGNMENT then Some d
                else Some (copy_from b d n), s0) /\
             g_usbTransferBuffer s0 =
             Some (if IS_ALIGNED (addr d) USB_TRANSFER_ALIGNMENT then b
                   else copy_from b d n)).
  { destruct (IS_ALIGNED (addr d) USB_TRANSFER_ALIGNMENT).
    - exists s. split; [reflexivity | exact Hb].
    - unfold update_buffer, bind, get, modify. cbn. rewrite Hb. cbn.
      eexists. split; reflexivity. }
  destruct Hstage as [s0 [Hs0 Hb0]].
  unfold get in Hs0. unfold get in H. rewrite Hs0 in H. clear Hs0.
  unfold bind at 1 in H.
  match type of H with
  | context [usbWrite ?buf n s0] => destruct (usbWrite buf n s0) as [written s1] eqn:Ew
  end.
  apply usbWrite_spec in Ew. destruct Ew as [_ [_ Wb]].
  destruct written; cbn [negb] in H;
    [| rewrite usbSendFileData_end_spec in H; discriminate].
  unfold bind at 1 in H. unfold modify at 1 in H. unfold bind at 1 in H. unfold get in H.
  cbn [g_usbTransferRemainingSize set_remaining] in H.
  destruct (u64 (g_usbTransferRemainingSize s1 - n) =? 0) eqn:Hz.
  - exfalso. apply Z.eqb_eq in Hz.
    unfold bind at 1 in H.
    destruct (usbRead_transfer_buffer sizeof_UsbStatus _) as [read s2] eqn:Er.
    apply usbRead_transfer_buffer_spec in Er. destruct Er as [[_ [_ [R3 _]]] _].
    cbn [g_usbTransferRemainingSize set_remaining] in R3.
    assert (Hend : forall r, usbSendFileData_end r s2 = (true, s') ->
                             g_usbTransferRemainingSize s' = 0).
    { intros r Hr. rewrite usbSendFileData_end_spec in Hr.
      inversion Hr; subst. rewrite R3. exact Hz. }
    destruct read; cbn [negb] in H; [| apply Hend in H; contradiction].
    unfold bind at 1 in H. unfold get in H.
    destruct (g_usbTransferBuffer s2); [| apply Hend in H; contradiction].
    match type of H with
    | context [negb ?c] => destruct (negb c)
    end; apply Hend in H; contradiction.
  - rewrite usbSendFileData_end_spec in H. inversion H; subst s'.
    cbn [g_usbTransferBuffer set_remaining]. rewrite Wb. exact Hb0.
Qed.

(** X21: staging.  A chunk that is not the last one and whose block is
    page aligned is written from where it is, and the transfer buffer
    is left as it was.  A chunk whose block is not aligned is first
    copied to the start of the transfer buffer: afterwards the first
    [data_size] bytes of the transfer buffer are those of the chunk and
    the bytes behind them are untouched. *)
Theorem usbSendFileData_staging (h : Headers) (d : Buffer) (n : Z) (s s' : State) :
  usbSendFileData h (Some d) n s = (true, s') ->
  g_usbTransferRemainingSize s' <> 0 ->
  exists b b',
    g_usbTransferBuffer s = Some b /\
    g_usbTransferBuffer s' = Some b' /\
    addr b' = addr b /\
    (IS_ALIGNED (addr d) USB_TRANSFER_ALIGNMENT = true -> b' = b) /\
    (IS_ALIGNED (addr d) USB_TRANSFER_ALIGNMENT = false ->
     window b' 0 (Z.to_nat n) = window d 0 (Z.to_nat n) /\
     forall i, n <= i -> byte_at b' i = byte_at b i).
Proof.
  intros H Hrem.
  destruct (usbSendFileData_buffer h d n s s' H Hrem) as [b [Hb Hb']].
  exists b. eexists. split; [exact Hb |]. split; [exact Hb' |].
  destruct (IS_ALIGNED (addr d) USB_TRANSFER_ALIGNMENT).
  - split; [reflexivity |]. split; [reflexivity | discriminate].
  - split; [reflexivity |]. split; [discriminate |]. intros _.
    split; [apply window_copy_from |].
    intros i Hi. cbn [byte_at copy_from].
    replace (i <? n) with false by (symmetry; apply Z.ltb_ge; exact Hi).
    rewrite andb_false_r. reflexivity.
Qed.

Lemma staged_sent :
  usbSendFileData nx_usb_headers (Some unaligned_chunk) 0x1000 staging_input
  = (true, staged_state).
Proof.
  assert (H : fst (usbSendFileData nx_usb_headers (Some unaligned_chunk) 0x1000
                     staging_input) = true)
    by (vm_compute; reflexivity).
  unfold staged_state.
  destruct (usbSendFileData nx_usb_headers (Some unaligned_chunk) 0x1000 staging_input)
    as [ok s1].
  cbn [fst snd] in *. subst ok. reflexivity.
Qed.

Lemma staged_pending : g_usbTransferRemainingSize staged_state <> 0.
Proof. vm_compute. discriminate. Qed.

Lemma usbSendFileData_staging_witness :
  exists b b',
    g_usbTransferBuffer staging_input = Some b /\
    g_usbTransferBuffer staged_state = Some b' /\
    window b' 0 (Z.to_nat 0x1000) = window unaligned_chunk 0 (Z.to_nat 0x1000).
Proof.
  destruct (usbSendFileData_staging nx_usb_headers unaligned_chunk 0x1000
              staging_input staged_state staged_sent staged_pending)
    as [b [b' [Hb [Hb' [_ [_ Hun]]]]]].
  exists b, b'. split; [exact Hb |]. split; [exact Hb' |].
  exact (proj1 (Hun eq_refl)).
Defined.

(** *** The detection thread *)

Lemma turn_ends (h : Headers) (wake : bool * Z) (s : State) :
  fst (usbDetectionThread_turn h wake s) = false ->
  g_usbHostAvailable (snd (usbDetectionThread_turn h wake s)) = false /\
  g_usbSessionStarted (snd (usbDetectionThread_turn h wake s)) = false /\
  g_usbDetectionThreadExitFlag (snd (usbDetectionThread_turn h wake s)) = false /\
  g_usbTransferRemainingSize (snd (usbDetectionThread_turn h wake s)) = 0.
Proof.
  destruct wake as [rc_ok idx]. destruct rc_ok; [| discriminate].
  destruct (Z.eq_dec idx 2) as [-> | Hidx].
  - intros _. rewrite turn_exit. cbn [snd].
    destruct (usbDetectionThread_exit_state s) as [Hh [Hs [He [Hr _]]]].
    repeat split; assumption.
  - intro Hend. destruct (turn_flags h idx s Hidx) as [Hr [_ Hflags]].
    destruct (Hflags Hend) as [Hh [Hs He]]. repeat split; assumption.
Qed.

(** X22: the detection thread over the wake-ups it gets.  A wake-up
    whose wait failed is skipped.  The exit event ends the thread, and
    what would have woken it later has no effect.  Whenever the thread
    has ended, the host, session and exit flags are false and nothing
    is pending. *)
Theorem usbDetectionThreadFunc_ends (h : Headers) (wakes : list (bool * Z)) (s : State) :
  (forall idx,
     usbDetectionThreadFunc h ((false, idx) :: wakes) s = usbDetectionThreadFunc h wakes s) /\
  usbDetectionThreadFunc h ((true, 2) :: wakes) s
  = (false, snd (usbDetectionThread_turn h (true, 2) s)) /\
  (fst (usbDetectionThreadFunc h wakes s) = false ->
   g_usbHostAvailable (snd (usbDetectionThreadFunc h wakes s)) = false /\
   g_usbSessionStarted (snd (usbDetectionThreadFunc h wakes s)) = false /\
   g_usbDetectionThreadExitFlag (snd (usbDetectionThreadFunc h wakes s)) = false /\
   g_usbTransferRemainingSize (snd (usbDetectionThreadFunc h wakes s)) = 0).
Proof.
  split; [| split].
  - intro idx. reflexivity.
  - cbn [usbDetectionThreadFunc]. unfold bind. rewrite turn_exit. reflexivity.
  - revert s. induction wakes as [| wake more IH]; intro s; [discriminate |].
    cbn [usbDetectionThreadFunc]. unfold bind.
    pose proof (turn_ends h wake s) as Hturn.
    destruct (usbDetectionThread_turn h wake s) as [waiting s1].
    cbn [fst snd] in Hturn. destruct waiting.
    + apply IH.
    + intros _. unfold ret. cbn [snd]. apply Hturn. reflexivity.
Qed.

(** *** The last chunk *)

(** X24: the end of a file.  When [usbSendFileData] returns true and
    leaves nothing pending, the status block of the host is in the
    transfer buffer, with the magic word and the status 0: a file is
    reported as sent only after the host acknowledged it. *)
Theorem usbSendFileData_acknowledged (h : Headers) (data : option Buffer) (n : Z)
  (s s' : State) :
  usbSendFileData h data n s = (true, s') ->
  g_usbTransferRemainingSize s' = 0 ->
  exists reply,
    g_usbTransferBuffer s' = Some reply /\
    wire_magic (window reply 0 (Z.to_nat sizeof_UsbStatus)) = USB_CMD_HEADER_MAGIC /\
    UsbStatus_status reply = UsbStatusType_Success.
Proof.
  unfold usbSendFileData. unfold bind at 1 2 3 4. unfold get. intros H Hrem.
  destruct data as [d |]; [| rewrite usbSendFileData_end_spec in H; discriminate].
  destruct (negb (comms_ready s) || negb (g_usbHostAvailable s)
            || negb (g_usbSessionStarted s) || (g_usbTransferRemainingSize s =? 0)
            || (n =? 0) || (n >? USB_TRANSFER_BUFFER_SIZE h)
            || (n >? g_usbTransferRemainingSize s)).
  { rewrite usbSendFileData_end_spec in H. discriminate. }
  unfold bind at 1 in H.
  match type of H with
  | context [(if ?c then ?a else ?b) s] => destruct ((if c then a else b) s) as [buf s0]
  end.
  unfold bind at 1 in H.
  destruct (usbWrite buf n s0) as [written s1].
  destruct written; cbn [negb] in H;
    [| rewrite usbSendFileData_end_spec in H; discriminate].
  unfold bind at 1 in H. unfold modify at 1 in H. unfold bind at 1 in H. unfold get in H.
  cbn [g_usbTransferRemainingSize set_remaining] in H.
  destruct (u64 (g_usbTransferRemainingSize s1 - n) =? 0) eqn:Hz.
  - unfold bind at 1 in H.
    destruct (usbRead_transfer_buffer sizeof_UsbStatus _) as [read s2].
    destruct read; cbn [negb] in H;
      [| rewrite usbSendFileData_end_spec in H; discriminate].
    unfold bind at 1 in H. unfold get in H.
    destruct (g_usbTransferBuffer s2) as [reply |] eqn:Hreply;
      [| rewrite usbSendFileData_end_spec in H; discriminate].
    destruct (UsbStatus_magic reply =? bswap32 USB_CMD_HEADER_MAGIC) eqn:Em;
      cbn [negb] in H; [| rewrite usbSendFileData_end_spec in H; discriminate].
    rewrite usbSendFileData_end_spec in H.
    destruct (UsbStatus_status reply =? UsbStatusType_Success) eqn:Es; [| discriminate].
    inversion H; subst s'. exists reply.
    split; [exact Hreply |].
    split; [apply magic_check_wire; exact Em | apply Z.eqb_eq; exact Es].
  - rewrite usbSendFileData_end_spec in H. inversion H; subst s'.
    cbn [g_usbTransferRemainingSize set_remaining] in Hrem.
    apply Z.eqb_neq in Hz. contradiction.
Qed.

Lemma last_chunk_sent :
  usbSendFileData nx_usb_headers (Some (zero_buffer 0x20000)) 0x2000 last_chunk_input
  = (true, last_chunk_done).
Proof.
  assert (H : fst (usbSendFileData nx_usb_headers (Some (zero_buffer 0x20000)) 0x2000
                     last_chunk_input) = true)
    by (vm_compute; reflexivity).
  unfold last_chunk_done.
  destruct (usbSendFileData nx_usb_headers (Some (zero_buffer 0x20000)) 0x2000
              last_chunk_input) as [ok s1].
  cbn [fst snd] in *. subst ok. reflexivity.
Qed.

Lemma last_chunk_nothing_pending : g_usbTransferRemainingSize last_chunk_done = 0.
Proof. vm_compute. reflexivity. Qed.

Lemma usbSendFileData_acknowledged_witness :
  exists reply,
    g_usbTransferBuffer last_chunk_done = Some reply /\
    wire_magic (window reply 0 (Z.to_nat sizeof_UsbStatus)) = USB_CMD_HEADER_MAGIC /\
    UsbStatus_status reply = UsbStatusType_Success.
Proof.
  exact (usbSendFileData_acknowledged nx_usb_headers (Some (zero_buffer 0x20000)) 0x2000
           last_chunk_input last_chunk_done last_chunk_sent last_chunk_nothing_pending).
Defined.

End UsbLaws.
